(** * LinkedIn Post Counter: the recency-classification pipeline of the
      content script (class [LinkedInContentScript]).

    The development embeds the content script's decision logic: the name
    validation predicate, the relative-time text parser, the explicit
    timestamp parser, the fragment scanner with its de-duplication set,
    the scored fallback estimator, the emergency pass and the orchestrator
    [extractProfileData] with the [analyzeCurrentProfile] boundary, the
    page test and the message listener. Of the background service
    (class [LinkedInBackgroundService]) it embeds the rate limiter, the
    store of results, the request handler [handleAnalyzeProfile] with its
    three strategies, and the validation and the estimate of the injected
    analysis.

    Modelling conventions.
    - JavaScript strings are modelled by [string] (sequences of 8-bit
      characters); case mapping and the whitespace class are the ASCII ones.
    - Regular expressions are kept as syntax trees of the constructs the
      script uses, run by a backtracking matcher with JavaScript's
      priorities (leftmost start, greedy quantifiers, ordered alternatives);
      [source] prints a tree back to the text of the literal, which is what
      [pattern.source] reads.
    - The DOM is an external collaborator: a document and its elements are
      records of the observations the script makes on them.
    - Exceptions are values of [Res]; [try_catch] is the [try]/[catch]
      statement.
    - Instants are milliseconds since the epoch, in [Z]; an invalid [Date]
      is [None].
    - The fallback scores are JavaScript numbers, IEEE 754 binary64 values:
      they are the [spec_float] of the standard library with its additions,
      multiplications and divisions, which round to nearest, ties to even.
      The decimal literals 1.5, 0.8, 0.3 and 2.5 are the quotients that
      round to them. The times compared with [maxHours] are carried as
      rationals: on them the comparison is exact. *)

From Stdlib Require Import ZArith QArith Lia Ascii String List Bool.
From Stdlib Require Import SpecFloat.
From Stdlib Require Reals Lra.
From stdpp Require Import base decidable option list strings gmap pretty.

Import ListNotations.
Local Open Scope string_scope.
Local Open Scope Z_scope.

(** ** Strings *)

Module Js.

(** The double quote character, which selector and pattern texts contain. *)
Definition dq : string := String (ascii_of_nat 34) EmptyString.

Definition is_space (c : ascii) : bool :=
  let n := nat_of_ascii c in
  ((9 <=? n)%nat && (n <=? 13)%nat) || (n =? 32)%nat.

Definition is_digit (c : ascii) : bool :=
  let n := nat_of_ascii c in (48 <=? n)%nat && (n <=? 57)%nat.

Definition is_upper (c : ascii) : bool :=
  let n := nat_of_ascii c in (65 <=? n)%nat && (n <=? 90)%nat.

Definition is_lower (c : ascii) : bool :=
  let n := nat_of_ascii c in (97 <=? n)%nat && (n <=? 122)%nat.

Definition is_alpha (c : ascii) : bool := is_upper c || is_lower c.

Definition lower_char (c : ascii) : ascii :=
  if is_upper c then ascii_of_nat (nat_of_ascii c + 32) else c.

(** [s.toLowerCase()] *)
Fixpoint toLowerCase (s : string) : string :=
  match s with
  | EmptyString => EmptyString
  | String c s' => String (lower_char c) (toLowerCase s')
  end.

Fixpoint trimStart (s : string) : string :=
  match s with
  | String c s' => if is_space c then trimStart s' else s
  | EmptyString => EmptyString
  end.

Fixpoint trimEnd (s : string) : string :=
  match s with
  | EmptyString => EmptyString
  | String c s' =>
      match trimEnd s' with
      | EmptyString => if is_space c then EmptyString else String c EmptyString
      | t => String c t
      end
  end.

(** [s.trim()] *)
Definition trim (s : string) : string := trimEnd (trimStart s).

(** [s.substring(0, n)] *)
Definition substring0 (n : nat) (s : string) : string := String.substring 0 n s.

(** [strip p s] removes the prefix [p] from [s]. *)
Fixpoint strip (p s : string) : option string :=
  match p with
  | EmptyString => Some s
  | String a p' =>
      match s with
      | String b s' => if Ascii.eqb a b then strip p' s' else None
      | EmptyString => None
      end
  end.

(** [s.includes(needle)] *)
Fixpoint includes (needle s : string) : bool :=
  match strip needle s with
  | Some _ => true
  | None => match s with
            | String _ s' => includes needle s'
            | EmptyString => false
            end
  end.

(** [s.split(sep)[0]]: the text before the first occurrence of a
    non-empty separator, the whole string when there is none. *)
Fixpoint splitHead (sep s : string) : string :=
  match strip sep s with
  | Some _ => EmptyString
  | None => match s with
            | String c s' => String c (splitHead sep s')
            | EmptyString => EmptyString
            end
  end.

(** The value of a string of decimal digits. *)
Definition digit_val (c : ascii) : Z := Z.of_nat (nat_of_ascii c) - 48.

Fixpoint digits_val (acc : Z) (s : string) : Z :=
  match s with
  | String c s' => if is_digit c then digits_val (10 * acc + digit_val c) s' else acc
  | EmptyString => acc
  end.

(** [parseInt(m) || 1] for [m] a capture of [\d+] or [undefined]:
    [parseInt(undefined)] is [NaN] and [0] is falsy, so both give 1. *)
Definition parseIntOr1 (m : option string) : Z :=
  match m with
  | None => 1
  | Some d => let v := digits_val 0 d in if v =? 0 then 1 else v
  end.

End Js.

(** ** Regular expressions *)

Module Regex.
Import Js.

(** The character classes the script's patterns use. *)
Inductive cset :=
| CDigit       (* \d *)
| CSpace       (* \s *)
| CAny         (* .  *)
| CNotQuote    (* any character but the double quote *)
| CAlpha       (* [a-zA-Z] *)
| CNotAlpha    (* [^a-zA-Z] *)
| CUpper       (* [A-Z] *)
| CNameChar.   (* [a-zA-Z\s'-] *)

(** The pattern constructs the script's patterns use. [Opt] is applied to a
    one-character literal or to a group only, as in the source. *)
Inductive re :=
| Lit (l : string)                      (* literal text *)
| Cls (c : cset)                        (* one character of a class *)
| Star (c : cset)                       (* c*  *)
| Plus (c : cset)                       (* c+  *)
| Rep (c : cset) (lo hi : nat)          (* c{lo,hi} *)
| Opt (r : re)                          (* r?  *)
| Grp (capture : bool) (alts : list string)   (* (a|b|...) or (?:a|b|...) *)
| Cap (r : re)                          (* (r) *)
| Seq (r1 r2 : re)
| Eol.                                  (* $ *)

Declare Scope re_scope.
Delimit Scope re_scope with re.
Bind Scope re_scope with re.
Infix "⋅" := Seq (at level 60, right associativity) : re_scope.

(** A regular expression literal: its body, whether it starts with [^], and
    its [i] flag. The [g] flag selects the operation ([matchAll], or
    [match] returning every match) rather than the matcher. *)
Record regex := Rx { rx_bol : bool; rx_icase : bool; rx_body : re }.

Definition rx (r : re) : regex := Rx false false r.
Definition rxi (r : re) : regex := Rx false true r.

(** *** Pattern text *)

Definition cset_source (c : cset) : string :=
  match c with
  | CDigit => "\d"
  | CSpace => "\s"
  | CAny => "."
  | CNotQuote => "[^" ++ dq ++ "]"
  | CAlpha => "[a-zA-Z]"
  | CNotAlpha => "[^a-zA-Z]"
  | CUpper => "[A-Z]"
  | CNameChar => "[a-zA-Z\s'-]"
  end.

Fixpoint join (sep : string) (l : list string) : string :=
  match l with
  | [] => EmptyString
  | [a] => a
  | a :: l' => a ++ sep ++ join sep l'
  end.

Fixpoint re_source (r : re) : string :=
  match r with
  | Lit l => l
  | Cls c => cset_source c
  | Star c => cset_source c ++ "*"
  | Plus c => cset_source c ++ "+"
  | Rep c lo hi => cset_source c ++ "{" ++ pretty lo ++ "," ++ pretty hi ++ "}"
  | Opt r' => re_source r' ++ "?"
  | Grp capture alts => (if capture then "(" else "(?:") ++ join "|" alts ++ ")"
  | Cap r' => "(" ++ re_source r' ++ ")"
  | Seq r1 r2 => re_source r1 ++ re_source r2
  | Eol => "$"
  end.

(** [pattern.source] *)
Definition source (p : regex) : string :=
  (if rx_bol p then "^" else EmptyString) ++ re_source (rx_body p).

(** *** Matching *)

Definition in_cset (icase : bool) (cs : cset) (c : ascii) : bool :=
  match cs with
  | CDigit => is_digit c
  | CSpace => is_space c
  | CAny => negb ((nat_of_ascii c =? 10)%nat || (nat_of_ascii c =? 13)%nat)
  | CNotQuote => negb (nat_of_ascii c =? 34)%nat
  | CAlpha => is_alpha c
  | CNotAlpha => negb (is_alpha c)
  | CUpper => if icase then is_alpha c else is_upper c
  | CNameChar =>
      is_alpha c || is_space c || (nat_of_ascii c =? 39)%nat || (nat_of_ascii c =? 45)%nat
  end.

(** [strip_lit icase l s] removes the literal [l] from the front of [s],
    comparing characters up to case when the [i] flag is set. *)
Fixpoint strip_lit (icase : bool) (l s : string) : option string :=
  match l with
  | EmptyString => Some s
  | String a l' =>
      match s with
      | String b s' =>
          if (if icase then Ascii.eqb (lower_char a) (lower_char b) else Ascii.eqb a b)
          then strip_lit icase l' s' else None
      | EmptyString => None
      end
  end.

(** The text consumed between a position [s] and a later position [s']. *)
Definition consumed (s s' : string) : string :=
  substring0 (String.length s - String.length s') s.

Section Matcher.
(** The answer type of the continuations. *)
Context {R : Type}.

(** Greedy [c*]: the longest run first, shorter ones on backtracking. *)
Fixpoint star (p : ascii -> bool) (s : string) (k : string -> option R) : option R :=
  match s with
  | String c s' =>
      if p c then
        match star p s' k with
        | Some x => Some x
        | None => k s
        end
      else k s
  | EmptyString => k s
  end.

(** Greedy [c{lo,hi}]. *)
Fixpoint rep (p : ascii -> bool) (lo hi : nat) (s : string)
    (k : string -> option R) : option R :=
  let stop := if (lo =? 0)%nat then k s else None in
  match hi with
  | O => stop
  | S hi' =>
      match s with
      | String c s' =>
          if p c then
            match rep p (Nat.pred lo) hi' s' k with
            | Some x => Some x
            | None => stop
            end
          else stop
      | EmptyString => stop
      end
  end.

(** Ordered alternatives of literal texts. *)
Fixpoint alts (icase : bool) (l : list string) (s : string)
    (k : string -> string -> option R) : option R :=
  match l with
  | [] => None
  | a :: l' =>
      match (match strip_lit icase a s with
             | Some s' => k a s'
             | None => None
             end) with
      | Some x => Some x
      | None => alts icase l' s k
      end
  end.

(** [run icase r s cap k]: match [r] at the front of [s], with capture
    group 1 currently [cap], and pass the rest of the input and the
    capture to [k]; when [k] fails the next way to match [r] is tried. *)
Fixpoint run (icase : bool) (r : re) (s : string) (cap : option string)
    (k : string -> option string -> option R) : option R :=
  match r with
  | Lit l =>
      match strip_lit icase l s with
      | Some s' => k s' cap
      | None => None
      end
  | Cls c =>
      match s with
      | String a s' => if in_cset icase c a then k s' cap else None
      | EmptyString => None
      end
  | Star c => star (in_cset icase c) s (fun s' => k s' cap)
  | Plus c =>
      match s with
      | String a s' =>
          if in_cset icase c a then star (in_cset icase c) s' (fun s' => k s' cap)
          else None
      | EmptyString => None
      end
  | Rep c lo hi => rep (in_cset icase c) lo hi s (fun s' => k s' cap)
  | Opt r' =>
      match run icase r' s cap k with
      | Some x => Some x
      | None => k s cap
      end
  | Grp capture l =>
      alts icase l s (fun a s' => k s' (if capture then Some (consumed s s') else cap))
  | Cap r' => run icase r' s cap (fun s' _ => k s' (Some (consumed s s')))
  | Seq r1 r2 => run icase r1 s cap (fun s' cap' => run icase r2 s' cap' k)
  | Eol =>
      match s with
      | EmptyString => k s cap
      | String _ _ => None
      end
  end.
End Matcher.

(** A match: [m[0]], the matched text, and [m[1]], capture group 1
    ([None] is [undefined]). *)
Record Match := { m0 : string; m1 : option string }.

(** The match of [p] starting exactly at the front of [s], with the input
    that follows it. *)
Definition match_here (p : regex) (s : string) : option (Match * string) :=
  match run (rx_icase p) (rx_body p) s None (fun s' cap => Some (s', cap)) with
  | Some (s', cap) => Some ({| m0 := consumed s s'; m1 := cap |}, s')
  | None => None
  end.

Fixpoint search (p : regex) (s : string) : option Match :=
  match match_here p s with
  | Some (m, _) => Some m
  | None =>
      match s with
      | String _ s' => search p s'
      | EmptyString => None
      end
  end.

(** [s.match(p)] for a pattern without the [g] flag: the leftmost match. *)
Definition exec (p : regex) (s : string) : option Match :=
  if rx_bol p then fst <$> match_here p s else search p s.

(** [p.test(s)] *)
Definition test (p : regex) (s : string) : bool := bool_decide (is_Some (exec p s)).

(** [[...s.matchAll(p)]] and [s.match(p)] for a pattern with the [g] flag:
    the successive non-overlapping matches, left to right. [skip] counts the
    characters of the previous match still to be stepped over; after an
    empty match the scan moves on by one character. *)
Fixpoint matchAll_from (p : regex) (skip : nat) (s : string) : list Match :=
  match skip with
  | S n =>
      match s with
      | String _ s' => matchAll_from p n s'
      | EmptyString => []
      end
  | O =>
      match match_here p s with
      | Some (m, _) =>
          m :: match s with
               | String _ s' => matchAll_from p (Nat.pred (String.length (m0 m))) s'
               | EmptyString => []
               end
      | None =>
          match s with
          | String _ s' => matchAll_from p 0 s'
          | EmptyString => []
          end
      end
  end.

Definition matchAll (p : regex) (s : string) : list Match := matchAll_from p 0 s.

End Regex.

Import Js Regex.
Local Open Scope re_scope.

(** ** Recency Classifier: relative-time phrases *)

Inductive TimeUnit := Minutes | Hours | Days.

Record RecentPattern := { pattern : regex; maxValue : Z; rp_unit : TimeUnit }.

(** What the two parsers return: [{ isRecent, timeStr }]. *)
Record TimeResult := { isRecent : bool; timeStr : string }.

Definition digits : re := Cap (Plus CDigit).
Definition ws : re := Star CSpace.

(** The table [recentPatterns] of [parseTimeFromText], in its order. *)
Definition recentPatterns : list RecentPattern :=
  [ {| pattern := rx (digits ⋅ ws ⋅ Lit "m" ⋅ Opt (Grp false ["in"; "inute"]) ⋅ Opt (Lit "s") ⋅ ws ⋅ Lit "ago");
       maxValue := 1440; rp_unit := Minutes |};
    {| pattern := rx (digits ⋅ ws ⋅ Lit "h" ⋅ Opt (Grp false ["our"; "r"]) ⋅ Opt (Lit "s") ⋅ ws ⋅ Lit "ago");
       maxValue := 24; rp_unit := Hours |};
    {| pattern := rx (Lit "1" ⋅ ws ⋅ Lit "d" ⋅ Opt (Grp false ["ay"]) ⋅ ws ⋅ Lit "ago");
       maxValue := 1; rp_unit := Days |};
    {| pattern := rxi (Lit "yesterday"); maxValue := 1; rp_unit := Days |};
    {| pattern := rx (digits ⋅ Lit "h" ⋅ ws ⋅ Lit "ago"); maxValue := 24; rp_unit := Hours |};
    {| pattern := rx (digits ⋅ Lit "m" ⋅ ws ⋅ Lit "ago"); maxValue := 1440; rp_unit := Minutes |};
    {| pattern := rx (digits ⋅ ws ⋅ Lit "hr" ⋅ Opt (Lit "s") ⋅ ws ⋅ Lit "ago");
       maxValue := 24; rp_unit := Hours |};
    {| pattern := rx (digits ⋅ ws ⋅ Lit "min" ⋅ Opt (Lit "s") ⋅ ws ⋅ Lit "ago");
       maxValue := 1440; rp_unit := Minutes |};
    {| pattern := rx (Lit "about" ⋅ ws ⋅ digits ⋅ ws ⋅ Lit "hour" ⋅ Opt (Lit "s") ⋅ ws ⋅ Lit "ago");
       maxValue := 24; rp_unit := Hours |};
    {| pattern := rx (Lit "about" ⋅ ws ⋅ digits ⋅ ws ⋅ Lit "minute" ⋅ Opt (Lit "s") ⋅ ws ⋅ Lit "ago");
       maxValue := 1440; rp_unit := Minutes |};
    {| pattern := rx (digits ⋅ ws ⋅ Lit "h" ⋅ Eol); maxValue := 24; rp_unit := Hours |};
    {| pattern := rx (digits ⋅ ws ⋅ Lit "m" ⋅ Eol); maxValue := 1440; rp_unit := Minutes |} ].

Definition is_days (u : TimeUnit) : bool :=
  match u with Days => true | _ => false end.

(** One turn of the loop of [parseTimeFromText] over the patterns: a match
    of a day pattern is recent as it is; a match of another pattern is
    recent when its number is within the pattern's bound, and otherwise the
    loop goes on to the next pattern. *)
Fixpoint parseTimeLoop (ps : list RecentPattern) (text : string) : option TimeResult :=
  match ps with
  | [] => None
  | p :: ps' =>
      match exec (pattern p) text with
      | Some m =>
          if is_days (rp_unit p) || includes "yesterday" (source (pattern p)) then
            Some {| isRecent := true; timeStr := "Text: " ++ m0 m |}
          else
            let value := parseIntOr1 (m1 m) in
            if value <=? maxValue p then
              Some {| isRecent := true; timeStr := "Text: " ++ m0 m |}
            else parseTimeLoop ps' text
      | None => parseTimeLoop ps' text
      end
  end.

(** [parseTimeFromText(content)]; [None] is [null]. *)
Definition parseTimeFromText (content : string) : option TimeResult :=
  let text := toLowerCase content in
  parseTimeLoop recentPatterns text.

(** ** Name validation *)

Definition stopTerms : list string :=
  [ "linkedin"; "profile"; "activity"; "recent"; "connection"; "view"; "show";
    "edit"; "update"; "see all"; "see more"; "follow"; "connect"; "message" ].

Definition uiWords : list string :=
  [ "show"; "view"; "see"; "all"; "more"; "less"; "edit"; "update"; "follow";
    "connect"; "message"; "home"; "about"; "contact" ].

Definition rxAllDigits : regex := Rx true false (Plus CDigit ⋅ Eol).
Definition rxNoLetter : regex := Rx true false (Star CNotAlpha ⋅ Eol).
Definition rxUiWord : regex := Rx true true (Grp true uiWords ⋅ Eol).
Definition rxLetter : regex := rx (Cls CAlpha).
Definition rxBlank : regex := Rx true false (Star CSpace ⋅ Eol).

(** [isValidProfileName(name)]. [name] is a string here, so of the guard
    [!name || typeof name !== 'string'] only the empty string is left. The
    conjuncts are those of the source, in its order. *)
Definition isValidProfileName (name : string) : bool :=
  if String.eqb name EmptyString then false else
  let cleanName := trim name in
  let lower := toLowerCase cleanName in
  (2 <=? String.length cleanName)%nat &&
  (String.length cleanName <=? 100)%nat &&
  negb (includes "linkedin" lower) &&
  negb (includes "profile" lower) &&
  negb (includes "activity" lower) &&
  negb (includes "recent" lower) &&
  negb (includes "connection" lower) &&
  negb (includes "view" lower) &&
  negb (includes "show" lower) &&
  negb (includes "edit" lower) &&
  negb (includes "update" lower) &&
  negb (includes "see all" lower) &&
  negb (includes "see more" lower) &&
  negb (includes "follow" lower) &&
  negb (includes "connect" lower) &&
  negb (includes "message" lower) &&
  negb (includes "(" cleanName) &&
  negb (includes ")" cleanName) &&
  negb (includes "[" cleanName) &&
  negb (includes "]" cleanName) &&
  negb (test rxAllDigits cleanName) &&
  negb (test rxNoLetter cleanName) &&
  negb (includes "@" cleanName) &&
  negb (includes "www." cleanName) &&
  negb (includes "http" cleanName) &&
  negb (test rxUiWord cleanName) &&
  test rxLetter cleanName &&
  negb (test rxBlank cleanName).

(** ** Exceptions *)

(** The outcome of a computation that may throw: a value, or an exception
    with its [message]. *)
Inductive Res (A : Type) : Type :=
| Ok (a : A)
| Throw (message : string).
Arguments Ok {A} a.
Arguments Throw {A} message.

#[global] Instance Res_ret : MRet Res := fun A a => Ok a.
#[global] Instance Res_bind : MBind Res := fun A B f m =>
  match m with
  | Ok a => f a
  | Throw e => Throw e
  end.

(** [try { body } catch (e) { handler }] *)
Definition try_catch {A : Type} (body : Res A) (handler : string -> Res A) : Res A :=
  match body with
  | Ok a => Ok a
  | Throw e => handler e
  end.

(** ** The document *)

(** An element, by the observations the script makes on it. Absent
    attributes and failed queries are [None] ([null]). Reading an element
    does not throw, so the handlers inside [parseTimeElement] and
    [extractPostFromElement] have nothing to catch. *)
#[local] Unset Elimination Schemes.
Inductive Element : Type := mkElement {
  textContent : string;
  innerHTML : string;
  getAttribute : string -> option string;
  querySelector : string -> option Element;
  closest : string -> option Element
}.
#[local] Set Elimination Schemes.

(** The page: [window.location.href], [document.title], [document.body]
    ([None] when the page has no body yet, in which case reading a property
    of it throws a [TypeError]), [document.querySelectorAll], which throws
    on a selector the engine rejects, and [document.querySelector]. *)
Record Document := {
  href : string;
  title : string;
  body : option Element;
  querySelectorAll : string -> Res (list Element);
  docQuerySelector : string -> option Element
}.

(** [document.body.<property>]: without a body the read throws a
    [TypeError], whose message names the property. *)
Definition bodyProp {A : Type} (doc : Document) (name : string) (prop : Element -> A)
    : Res A :=
  match body doc with
  | Some b => Ok (prop b)
  | None => Throw ("Cannot read properties of null (reading '" ++ name ++ "')")
  end.

(** A double-quoted attribute value inside a selector. *)
Definition q (v : string) : string := dq ++ v ++ dq.

(** ** Recency Classifier: explicit timestamps *)

Definition timeSelectors : list string :=
  [ "time[datetime]";
    ".update-components-actor__sub-description time";
    ".feed-shared-update-v2__description time";
    ".update-components-text time";
    "[data-view-name*=" ++ q "time" ++ "] time";
    ".artdeco-card time";
    ".pvs-list__item time";
    ".pv-entity__summary-info time";
    "[class*=" ++ q "time" ++ "] time";
    "[class*=" ++ q "timestamp" ++ "] time";
    ".pv-shared-text-with-see-more time";
    ".feed-shared-actor__sub-description time";
    ".update-components-actor time";
    "[aria-label*=" ++ q "ago" ++ "] time";
    "[title*=" ++ q "ago" ++ "] time";
    ".feed-shared-update-v2__description-wrapper time";
    ".update-components-text__text-view time" ].

Definition parentSelectors : list string :=
  [ ".pvs-list__item"; ".pv-list-item"; ".feed-shared-update-v2"; ".artdeco-card";
    ".pv-recent-activity-detail-v2"; ".pv-entity__summary-info";
    ".pv-profile-section__card-item"; ".artdeco-entity-lockup";
    ".update-components-text"; ".feed-shared-text" ].

(** The first selector of the list that finds something under [el]. *)
Fixpoint queryFirst (el : Element) (selectors : list string) : option Element :=
  match selectors with
  | [] => None
  | selector :: rest =>
      match querySelector el selector with
      | Some timeEl => Some timeEl
      | None => queryFirst el rest
      end
  end.

Fixpoint queryParents (el : Element) (parents : list string) : option Element :=
  match parents with
  | [] => None
  | parentSelector :: rest =>
      match closest el parentSelector with
      | Some parent =>
          match queryFirst parent timeSelectors with
          | Some timeEl => Some timeEl
          | None => queryParents el rest
          end
      | None => queryParents el rest
      end
  end.

(** [findTimeElement(element)]: within the element first, then in its
    nearest known containers. *)
Definition findTimeElement (element : Element) : option Element :=
  match queryFirst element timeSelectors with
  | Some timeEl => Some timeEl
  | None => queryParents element parentSelectors
  end.

(** A JavaScript string used as a condition: the empty string is falsy. *)
Definition truthy (s : option string) : option string :=
  match s with
  | Some v => if String.eqb v EmptyString then None else Some v
  | None => None
  end.

(** ** Numbers *)

(** A JavaScript number is an IEEE 754 binary64 value: a [spec_float], with
    the operations of the standard library at precision 53 and maximal
    exponent 1024. *)
(** The type of JavaScript numbers. *)
Definition number : Type := spec_float.

Module Double.

Definition prec : Z := 53.
Definition emax : Z := 1024.

Definition add : number -> number -> number := SFadd prec emax.
Definition mul : number -> number -> number := SFmul prec emax.
Definition div : number -> number -> number := SFdiv prec emax.

(** The number of an integer: the integer itself below [2^53], the nearest
    double above. *)
Definition ofZ (n : Z) : number := binary_normalize prec emax n 0 false.
Definition ofNat (n : nat) : number := ofZ (Z.of_nat n).

(** A decimal literal, given as a fraction: [0.8] is [lit 8 10], the double
    nearest to 8/10. *)
Definition lit (num den : Z) : number := div (ofZ num) (ofZ den).

(** [Math.floor(x)] as an integer; [NaN] and the infinities have none. *)
Definition floor (x : number) : option Z :=
  match x with
  | S754_zero _ => Some 0
  | S754_finite s m e => Some (Z.shiftl (cond_Zopp s (Zpos m)) e)
  | _ => None
  end.

End Double.

(** ** Records *)

Inductive PostType :=
| type_text | type_image | type_video | type_article | type_poll
| type_fallback_detection | type_emergency_detection.

(** The [details] of the fallback estimator: its scores, or the message of
    the exception it caught. *)
Inductive FallbackDetails :=
| Scores (timePatternScore contextualActivity structuralActivity totalScore : number)
    (foundMatches : list string) (uniqueMatches : nat)
| DetailsError (error : string).

(** A post as the scanner and the orchestrator build it. *)
Record Post := {
  post_text : string;
  post_time : string;
  post_type : PostType;
  post_details : option FallbackDetails
}.

Definition imageSelector : string :=
  "img, .feed-shared-image, [data-view-name=" ++ q "feed-shared-image" ++ "], [class*=" ++ q "image" ++ "]".
Definition videoSelector : string :=
  "video, .feed-shared-video, [data-view-name=" ++ q "feed-shared-video" ++ "], [class*=" ++ q "video" ++ "]".
Definition articleSelector : string :=
  ".feed-shared-article, .feed-shared-link, [data-view-name=" ++ q "feed-shared-article" ++ "], [class*=" ++ q "article" ++ "]".
Definition pollSelector : string :=
  "[class*=" ++ q "poll" ++ "], [data-view-name*=" ++ q "poll" ++ "]".

(** [element.querySelector(selector)] used as a condition. *)
Definition has (element : Element) (selector : string) : bool :=
  bool_decide (is_Some (querySelector element selector)).

Section Clock.
(** [new Date(text).getTime()], [None] when the date is invalid. *)
Variable parseDate : string -> option Z.
(** The reading of the wall clock, [new Date()], while fragments are
    classified; one analysis is a single synchronous pass. *)
Variable now : Z.

(** The [datetime] branch of [parseTimeElement]. *)
Definition datetimeInRange (datetime : string) (cutoffTime : Z) : bool :=
  match parseDate datetime with
  | Some postDate => (cutoffTime <=? postDate) && (postDate <=? now)
  | None => false
  end.

(** The [aria-label] and [title] branches of [parseTimeElement]. *)
Definition parseTimeAttribute (timeElement : Element) (name : string) : option TimeResult :=
  match truthy (getAttribute timeElement name) with
  | Some label => if includes "ago" label then parseTimeFromText label else None
  | None => None
  end.

(** The tail of [parseTimeElement]: the [aria-label], then the [title]. *)
Definition parseTimeLabels (timeElement : Element) : option TimeResult :=
  match parseTimeAttribute timeElement "aria-label" with
  | Some textResult => Some textResult
  | None => parseTimeAttribute timeElement "title"
  end.

(** [parseTimeElement(timeElement, cutoffTime)]; [None] is [null]. A
    [datetime] that is invalid or out of range is logged and the
    attributes are tried next. *)
Definition parseTimeElement (timeElement : Element) (cutoffTime : Z) : option TimeResult :=
  match truthy (getAttribute timeElement "datetime") with
  | Some datetime =>
      if datetimeInRange datetime cutoffTime
      then Some {| isRecent := true; timeStr := datetime |}
      else parseTimeLabels timeElement
  | None => parseTimeLabels timeElement
  end.

(** ** Content Scanner *)

(** [extractPostFromElement(element, cutoffTime, processedContent)]:
    the record, or [None] for [null], and the de-duplication set as the
    call leaves it. *)
Definition extractPostFromElement (element : Element) (cutoffTime : Z)
    (processedContent : gset string) : option Post * gset string :=
  let content := trim (textContent element) in
  let contentKey := substring0 100 content in
  if bool_decide (contentKey ∈ processedContent) || (String.length content <? 15)%nat
  then (None, processedContent)
  else
    let isRecent0 := false in
    let timeStr0 := EmptyString in
    let timeElement := findTimeElement element in
    let '(isRecent1, timeStr1) :=
      match timeElement with
      | Some te =>
          match parseTimeElement te cutoffTime with
          | Some result => (isRecent result, timeStr result)
          | None => (isRecent0, timeStr0)
          end
      | None => (isRecent0, timeStr0)
      end in
    let '(isRecent2, timeStr2) :=
      if negb isRecent1 then
        match parseTimeFromText content with
        | Some textResult => (isRecent textResult, timeStr textResult)
        | None => (isRecent1, timeStr1)
        end
      else (isRecent1, timeStr1) in
    if negb isRecent2 then (None, processedContent)
    else
      let processedContent' := {[contentKey]} ∪ processedContent in
      let postType :=
        if has element imageSelector then type_image
        else if has element videoSelector then type_video
        else if has element articleSelector then type_article
        else if has element pollSelector then type_poll
        else type_text in
      (Some {| post_text := content; post_time := timeStr2; post_type := postType;
               post_details := None |},
       processedContent').

Variable doc : Document.

(** The scan's own state: the posts found so far and the set
    [processedContent], shared by every selector of the scan. *)
Record Scan := { sc_posts : list Post; sc_processed : gset string }.

(** The body of [elements.forEach]: [extractPostFromElement] catches its
    own failures, so the handler around the call has nothing to catch. *)
Definition scanElement (cutoffTime : Z) (st : Scan) (element : Element) : Scan :=
  match extractPostFromElement element cutoffTime (sc_processed st) with
  | (Some post, processedContent) =>
      {| sc_posts := sc_posts st ++ [post]; sc_processed := processedContent |}
  | (None, processedContent) =>
      {| sc_posts := sc_posts st; sc_processed := processedContent |}
  end.

Definition scanElements (cutoffTime : Z) (st : Scan) (elements : list Element) : Scan :=
  fold_left (scanElement cutoffTime) elements st.

Definition activitySelectors : list string :=
  [ ".pv-recent-activity-detail-v2";
    ".pvs-list__item--with-top-padding";
    "[data-view-name=" ++ q "profile-component-entity" ++ "]";
    ".pv-entity__summary-info";
    ".feed-shared-update-v2";
    ".update-components-text";
    ".feed-shared-text";
    ".scaffold-finite-scroll__content .feed-shared-update-v2";
    "[data-view-name=" ++ q "profile-recent-activity" ++ "] .pvs-list__item";
    ".pv-profile-section .pvs-list__item";
    ".artdeco-card .update-components-text";
    ".pvs-entity";
    ".pvs-list__item";
    "[data-view-name*=" ++ q "activity" ++ "] [class*=" ++ q "entity" ++ "]";
    "[data-view-name*=" ++ q "activity" ++ "] .pvs-list__item";
    ".pv-recent-activity-section-v2 [class*=" ++ q "entity" ++ "]";
    ".artdeco-card [class*=" ++ q "update" ++ "]";
    ".scaffold-layout [class*=" ++ q "activity" ++ "]";
    "[class*=" ++ q "recent-activity" ++ "] [class*=" ++ q "item" ++ "]";
    "[class*=" ++ q "feed" ++ "] [class*=" ++ q "update" ++ "]";
    "[class*=" ++ q "post" ++ "] [class*=" ++ q "content" ++ "]";
    "[class*=" ++ q "activity" ++ "] [class*=" ++ q "summary" ++ "]";
    ".pv-profile-section__card-item";
    ".pv-entity-lockup";
    ".artdeco-entity-lockup";
    "[data-control-name*=" ++ q "activity" ++ "]";
    "[data-control-name*=" ++ q "post" ++ "]";
    ".feed-shared-update-v2__description-wrapper";
    ".update-components-text__text-view";
    ".pv-shared-text-with-see-more";
    ".artdeco-card .pv-shared-text-with-see-more";
    "[data-view-name*=" ++ q "recent-activity" ++ "] .artdeco-card" ].

Definition feedSelectors : list string :=
  [ ".scaffold-finite-scroll__content > div";
    ".feed-shared-update-v2";
    ".update-components-text";
    ".pv-recent-activity-detail-v2";
    ".artdeco-card";
    "[data-view-name*=" ++ q "feed" ++ "] [class*=" ++ q "item" ++ "]";
    ".feed-container .feed-shared-update-v2" ].

(** What the selector loop of [findRecentPostsEnhanced] carries: the scan,
    [totalElementsScanned] and [debugInfo.errors]. *)
Record SelectorLoop := {
  sl_scan : Scan;
  sl_scanned : nat;
  sl_errors : list string
}.

(** One turn of [activitySelectors.forEach]. *)
Definition scanSelector (cutoffTime : Z) (st : SelectorLoop) (selector : string)
    : Res SelectorLoop :=
  try_catch
    (elements ← querySelectorAll doc selector;
     mret {| sl_scan := scanElements cutoffTime (sl_scan st) elements;
             sl_scanned := (sl_scanned st + List.length elements)%nat;
             sl_errors := sl_errors st |})
    (fun selectorError =>
       mret {| sl_scan := sl_scan st;
               sl_scanned := sl_scanned st;
               sl_errors := sl_errors st ++ ["Selector " ++ q selector ++ ": " ++ selectorError] |}).

(** [list.forEach] with a body that may throw. *)
Fixpoint forEach {S A : Type} (body : S -> A -> Res S) (l : list A) (st : S) : Res S :=
  match l with
  | [] => mret st
  | a :: l' => st' ← body st a; forEach body l' st'
  end.

(** One turn of [feedSelectors.forEach] in [findActivityFeedPosts]. *)
Definition scanFeedSelector (cutoffTime : Z) (st : Scan) (selector : string) : Res Scan :=
  try_catch
    (elements ← querySelectorAll doc selector;
     mret (scanElements cutoffTime st elements))
    (fun _ => mret st).

(** [findActivityFeedPosts(cutoffTime, posts, processedContent)] *)
Definition findActivityFeedPosts (cutoffTime : Z) (st : Scan) : Res Scan :=
  forEach (scanFeedSelector cutoffTime) feedSelectors st.

(** [findRecentPostsEnhanced(cutoffTime, debugInfo)]: the posts, and what
    it writes into [debugInfo]: [selectorsAttempted], [elementsScanned] and
    the new [errors]. *)
Record ScanReport := {
  sr_posts : list Post;
  sr_selectorsAttempted : nat;
  sr_elementsScanned : nat;
  sr_errors : list string
}.

Definition findRecentPostsEnhanced (cutoffTime : Z) (errors : list string) : Res ScanReport :=
  let posts := [] in
  let processedContent : gset string := ∅ in
  st ← forEach (scanSelector cutoffTime) activitySelectors
         {| sl_scan := {| sc_posts := posts; sc_processed := processedContent |};
            sl_scanned := 0; sl_errors := errors |};
  scan ← (if includes "/recent-activity/" (href doc) || includes "/detail/recent-activity/" (href doc)
          then findActivityFeedPosts cutoffTime (sl_scan st)
          else mret (sl_scan st));
  mret {| sr_posts := sc_posts scan;
          sr_selectorsAttempted := List.length activitySelectors;
          sr_elementsScanned := sl_scanned st;
          sr_errors := sl_errors st |}.
End Clock.

(** ** Fallback Estimator *)

Local Open Scope Q_scope.

Record ActivityPattern := { ap_pattern : regex; weight : number; maxHours : Q }.

(** The weights 2, 1.5 and 1. *)
Definition two : number := Double.ofZ 2.
Definition oneAndHalf : number := Double.lit 15 10.
Definition one : number := Double.ofZ 1.

(** The table [activityPatterns]; every pattern carries the [g] flag. *)
Definition activityPatterns : list ActivityPattern :=
  [ {| ap_pattern := rx (digits ⋅ ws ⋅ Lit "hou" ⋅ Opt (Lit "r") ⋅ Opt (Lit "s") ⋅ ws ⋅ Lit "ago");
       weight := two; maxHours := 24 |};
    {| ap_pattern := rx (digits ⋅ ws ⋅ Lit "minut" ⋅ Opt (Lit "e") ⋅ Opt (Lit "s") ⋅ ws ⋅ Lit "ago");
       weight := one; maxHours := 24 |};
    {| ap_pattern := rx (Lit "1" ⋅ ws ⋅ Lit "da" ⋅ Opt (Lit "y") ⋅ ws ⋅ Lit "ago");
       weight := two; maxHours := 24 |};
    {| ap_pattern := rx (Lit "yesterday"); weight := two; maxHours := 24 |};
    {| ap_pattern := rx (digits ⋅ Lit "h" ⋅ ws ⋅ Opt (Grp false ["ago"]));
       weight := oneAndHalf; maxHours := 24 |};
    {| ap_pattern := rx (digits ⋅ Lit "m" ⋅ ws ⋅ Opt (Grp false ["ago"]));
       weight := one; maxHours := 24 |};
    {| ap_pattern := rx (digits ⋅ ws ⋅ Lit "hr" ⋅ Opt (Lit "s") ⋅ ws ⋅ Lit "ago");
       weight := oneAndHalf; maxHours := 24 |};
    {| ap_pattern := rx (digits ⋅ ws ⋅ Lit "min" ⋅ Opt (Lit "s") ⋅ ws ⋅ Lit "ago");
       weight := one; maxHours := 24 |};
    {| ap_pattern := rx (Lit "about" ⋅ ws ⋅ digits ⋅ ws ⋅ Lit "hour" ⋅ Opt (Lit "s") ⋅ ws ⋅ Lit "ago");
       weight := oneAndHalf; maxHours := 24 |};
    {| ap_pattern := rx (Lit "about" ⋅ ws ⋅ digits ⋅ ws ⋅ Lit "minute" ⋅ Opt (Lit "s") ⋅ ws ⋅ Lit "ago");
       weight := one; maxHours := 24 |} ].

(** [timeInHours] of a match, chosen by the text of the pattern. *)
Definition timeInHours (p : regex) (m : Match) : Q :=
  let value := parseIntOr1 (m1 m) in
  if includes "hour" (source p) || includes "hr" (source p) then inject_Z value
  else if includes "minute" (source p) || includes "min" (source p) then inject_Z value / 60
  else if includes "day" (source p) || includes "yesterday" (source p) then 24
  else 0.

(** A match counts when its time is within [maxHours]. *)
Definition qualifies (p : ActivityPattern) (m : Match) : bool :=
  Qle_bool (timeInHours (ap_pattern p) m) (maxHours p).

(** The matches of one pattern that count. *)
Definition qualifyingMatches (p : ActivityPattern) (pageText : string) : list Match :=
  filter (fun m => qualifies p m = true) (matchAll (ap_pattern p) pageText).

(** What the loop over [activityPatterns] accumulates: [timePatternScore]
    and [foundMatches]. *)
Definition scorePattern (pageText : string) (acc : number * list string) (p : ActivityPattern)
    : number * list string :=
  fold_left
    (fun '(timePatternScore, foundMatches) m =>
       if qualifies p m
       then (Double.add timePatternScore (weight p), (foundMatches ++ [m0 m])%list)
       else (timePatternScore, foundMatches))
    (matchAll (ap_pattern p) pageText) acc.

Definition timePatterns (pageText : string) : number * list string :=
  fold_left (scorePattern pageText) activityPatterns (Double.ofZ 0, []).

Definition activityKeywords : list string :=
  [ "posted"; "shared"; "commented"; "liked"; "reacted"; "updated";
    "published"; "wrote"; "added"; "created"; "uploaded"; "celebrated";
    "congratulated"; "started"; "joined"; "connected"; "recommended" ].

Definition timeWords : re := Grp false ["hour"; "minute"; "day"; "yesterday"].

(** The two patterns built around a keyword, flags [gi]. *)
Definition contextPattern (keyword : string) : regex :=
  rxi (Lit keyword ⋅ Rep CAny 0 150 ⋅ timeWords ⋅ Rep CAny 0 50 ⋅ Lit "ago").
Definition reversePattern (keyword : string) : regex :=
  rxi (timeWords ⋅ Rep CAny 0 50 ⋅ Lit "ago" ⋅ Rep CAny 0 150 ⋅ Lit keyword).

(** [matches.length] of [s.match(p)] with the [g] flag: [null] counts 0. *)
Definition countMatches (p : regex) (s : string) : nat := List.length (matchAll p s).

(** [if (matches) { score += matches.length * factor; }], with [n] the
    number of matches: [s.match(p)] is [null] when there is none. *)
Definition addMatches (score : number) (n : nat) (factor : number) : number :=
  match n with
  | O => score
  | S _ => Double.add score (Double.mul (Double.ofNat n) factor)
  end.

Definition contextualScore (pageText : string) : number :=
  fold_left
    (fun contextualActivity keyword =>
       let c1 := addMatches contextualActivity
                   (countMatches (contextPattern keyword) pageText) (Double.lit 8 10) in
       addMatches c1 (countMatches (reversePattern keyword) pageText) (Double.lit 8 10))
    activityKeywords (Double.ofZ 0).

Definition attrPattern (attr word : string) : regex :=
  rx (Lit (attr ++ "=" ++ dq) ⋅ Star CNotQuote ⋅ Lit word ⋅ Star CNotQuote ⋅ Lit dq).

Definition linkedinPatterns : list regex :=
  [ attrPattern "data-view-name" "activity";
    attrPattern "data-view-name" "feed";
    attrPattern "data-control-name" "activity";
    attrPattern "data-control-name" "feed";
    attrPattern "class" "activity";
    attrPattern "class" "recent";
    attrPattern "class" "update" ].

Definition structuralScore (pageHTML : string) : number :=
  fold_left
    (fun structuralActivity p =>
       addMatches structuralActivity (countMatches p pageHTML) (Double.lit 3 10))
    linkedinPatterns (Double.ofZ 0).

(** [timePatternScore + contextualActivity + structuralActivity] *)
Definition totalOf (timePatternScore contextualActivity structuralActivity : number) : number :=
  Double.add (Double.add timePatternScore contextualActivity) structuralActivity.

(** [Math.max(0, Math.min(Math.floor(totalScore / 2.5), 12))], as an
    integer. Of the quotients without a floor, [Infinity] gives 12 and
    [-Infinity] gives 0. [NaN], which the minimum and the maximum pass on,
    is given as 0: the quotient of a total of the three scores is never
    [NaN]. *)
Definition flooredCount (quotient : number) : Z :=
  match Double.floor quotient with
  | Some n => Z.max 0 (Z.min n 12)
  | None =>
      match quotient with
      | S754_infinity false => 12%Z
      | _ => 0%Z
      end
  end.

Definition estimatedPosts (totalScore : number) : Z :=
  flooredCount (Double.div totalScore (Double.lit 25 10)).

(** [[...new Set(foundMatches)].length] *)
Definition uniqueCount (l : list string) : nat := size (list_to_set l : gset string).

Record FallbackResult := { count : Z; details : FallbackDetails }.

(** [performAdvancedFallbackDetection()] *)
Definition performAdvancedFallbackDetection (doc : Document) : Res FallbackResult :=
  try_catch
    (bodyText ← bodyProp doc "textContent" textContent;
     let pageText := toLowerCase bodyText in
     bodyHTML ← bodyProp doc "innerHTML" innerHTML;
     let pageHTML := toLowerCase bodyHTML in
     let '(timePatternScore, foundMatches) := timePatterns pageText in
     let contextualActivity := contextualScore pageText in
     let structuralActivity := structuralScore pageHTML in
     let totalScore := totalOf timePatternScore contextualActivity structuralActivity in
     mret {| count := estimatedPosts totalScore;
             details := Scores timePatternScore contextualActivity structuralActivity
                          totalScore (take 10 foundMatches) (uniqueCount foundMatches) |})
    (fun e => mret {| count := 0; details := DetailsError e |}).

(** ** Emergency pass *)

Local Open Scope Z_scope.

(** What [performEmergencyAnalysis] returns. *)
Record EmergencyResult := {
  em_profileName : string;
  activityScore : Z;
  rawActivityScore : option Z;
  em_error : option string
}.

(** The test a heading-like element's trimmed text passes to become the
    name, in [performEmergencyAnalysis]. *)
Definition emergencyNameCheck (text : string) : bool :=
  (3 <? String.length text)%nat && (String.length text <? 60)%nat && isValidProfileName text.

(** The loop over [allTextElements], with its [break]. *)
Fixpoint emergencyName (elements : list Element) : string :=
  match elements with
  | [] => "Unknown"
  | element :: rest =>
      match truthy (Some (textContent element)) with
      | Some content =>
          let text := trim content in
          if emergencyNameCheck text then text else emergencyName rest
      | None => emergencyName rest
      end
  end.

Definition activityWords : list string :=
  [ "ago"; "hour"; "minute"; "yesterday"; "posted"; "shared"; "activity"; "recent" ].

Definition keywordHits (bodyText : string) : Z :=
  fold_left
    (fun activityScore word =>
       activityScore + Z.of_nat (countMatches (rxi (Lit word)) bodyText))
    activityWords 0.

(** [performEmergencyAnalysis()] *)
Definition performEmergencyAnalysis (doc : Document) : Res EmergencyResult :=
  try_catch
    (allTextElements ← querySelectorAll doc "h1, h2, h3, span, div";
     let profileName := emergencyName allTextElements in
     content ← bodyProp doc "textContent" textContent;
     let bodyText := toLowerCase content in
     let activityScore := keywordHits bodyText in
     let finalScore := Z.min (activityScore / 20) 3 in
     mret {| em_profileName := profileName; activityScore := finalScore;
             rawActivityScore := Some activityScore; em_error := None |})
    (fun e =>
       mret {| em_profileName := "Unknown"; activityScore := 0;
               rawActivityScore := None; em_error := Some e |}).

(** ** Name Extractor *)

Definition nameSelectors : list string :=
  [ "h1[data-anonymize=" ++ q "person-name" ++ "]";
    ".text-heading-xlarge";
    ".pv-text-details__left-panel h1";
    ".pv-text-details h1";
    ".pv-top-card h1";
    "[data-view-name=" ++ q "profile-top-card" ++ "] h1";
    ".pv-top-card--list h1";
    ".ph5 h1";
    "main h1";
    ".scaffold-layout__main h1";
    ".scaffold-layout h1";
    ".pv-profile-section h1";
    "[class*=" ++ q "profile" ++ "] h1";
    ".text-heading-large";
    ".artdeco-entity-lockup__title";
    ".pv-entity__summary-info h1";
    ".pv-top-card-v2__name";
    ".pv-top-card__name";
    "[data-test-id*=" ++ q "name" ++ "] h1";
    "[aria-label*=" ++ q "name" ++ "] h1";
    "h1[class*=" ++ q "heading" ++ "]";
    ".profile-rail h1";
    ".profile-info h1";
    "[data-field=" ++ q "headline" ++ "] + div h1";
    ".pv-top-card .text-heading-xlarge";
    ".pv-text-details .text-heading-xlarge";
    ".profile-header h1";
    ".member-profile h1" ].

(** The first element of the list whose trimmed text is a valid name. *)
Fixpoint firstValidText (elements : list Element) : option string :=
  match elements with
  | [] => None
  | element :: rest =>
      match truthy (Some (textContent element)) with
      | Some content =>
          let name := trim content in
          if isValidProfileName name then Some name else firstValidText rest
      | None => firstValidText rest
      end
  end.

(** The first candidate of the list that is a valid name once trimmed. *)
Fixpoint firstValidTrimmed (candidates : list string) : option string :=
  match candidates with
  | [] => None
  | candidate :: rest =>
      let cleanName := trim candidate in
      if isValidProfileName cleanName then Some cleanName else firstValidTrimmed rest
  end.

Definition titleSeparators : list string :=
  [ " | LinkedIn"; " | "; " - LinkedIn"; " - "; " · "; " on LinkedIn"; " — "; " • "; " – " ].

(** [cleanNameFromTitle(title)] *)
Definition cleanNameFromTitle (title : string) : string :=
  if String.eqb title EmptyString then EmptyString else
  let patterns := map (fun sep => splitHead sep title) (titleSeparators ++ [" @ "])%list in
  match firstValidTrimmed patterns with
  | Some cleanName => cleanName
  | None => EmptyString
  end.

Definition metaSelectors : list string :=
  [ "meta[property=" ++ q "og:title" ++ "]";
    "meta[property=" ++ q "twitter:title" ++ "]";
    "meta[name=" ++ q "title" ++ "]";
    "meta[property=" ++ q "profile:first_name" ++ "]";
    "meta[name=" ++ q "author" ++ "]" ].

(** A parsed structured-data block: its [name] when that is a string, and
    its [@graph] as the [@type] and [name] of each item. *)
Record GraphItem := { item_type : option string; item_name : option string }.
Record JsonLd := { ld_name : option string; ld_graph : option (list GraphItem) }.

Definition rxViewProfile : regex :=
  rxi (Lit "View" ⋅ Plus CSpace ⋅ Cap (Cls CUpper ⋅ Rep CNameChar 1 50) ⋅ Lit "'s"
       ⋅ Plus CSpace ⋅ Lit "profile").
Definition rxIsOnLinkedIn : regex :=
  rxi (Cap (Cls CUpper ⋅ Rep CNameChar 1 50) ⋅ Plus CSpace ⋅ Lit "is" ⋅ Plus CSpace
       ⋅ Lit "on" ⋅ Plus CSpace ⋅ Lit "LinkedIn").

Section NameExtractor.
(** [JSON.parse] of a structured-data script, read as a [JsonLd]; it throws
    on malformed text. *)
Variable jsonParse : string -> Res JsonLd.
Variable doc : Document.

(** [extractNameFromSelectors()] *)
Fixpoint nameFromSelectors (selectors : list string) : Res (option string) :=
  match selectors with
  | [] => mret None
  | selector :: rest =>
      found ← try_catch
                (elements ← querySelectorAll doc selector;
                 mret (firstValidText elements))
                (fun _ => mret None);
      match found with
      | Some name => mret (Some name)
      | None => nameFromSelectors rest
      end
  end.

Definition extractNameFromSelectors : Res (option string) :=
  nameFromSelectors nameSelectors.

(** [extractNameFromTitle()] *)
Definition extractNameFromTitle : Res (option string) :=
  try_catch
    (let title := title doc in
     if String.eqb title EmptyString then mret None
     else mret (firstValidTrimmed (map (fun sep => splitHead sep title) titleSeparators)))
    (fun _ => mret None).

Fixpoint nameFromMeta (selectors : list string) : option string :=
  match selectors with
  | [] => None
  | selector :: rest =>
      match docQuerySelector doc selector with
      | Some meta =>
          match truthy (getAttribute meta "content") with
          | Some content =>
              let name := cleanNameFromTitle content in
              if isValidProfileName name then Some name else nameFromMeta rest
          | None => nameFromMeta rest
          end
      | None => nameFromMeta rest
      end
  end.

(** [extractNameFromMetaTags()] *)
Definition extractNameFromMetaTags : Res (option string) :=
  try_catch (mret (nameFromMeta metaSelectors)) (fun _ => mret None).

(** The name a parsed block gives: its own, else that of the first
    [Person] of its graph. *)
Definition nameFromJsonLd (data : JsonLd) : option string :=
  match (match truthy (ld_name data) with
         | Some name => if isValidProfileName name then Some name else None
         | None => None
         end) with
  | Some name => Some name
  | None =>
      match ld_graph data with
      | Some graph =>
          match List.find (fun item => bool_decide (item_type item = Some "Person")) graph with
          | Some person =>
              match truthy (item_name person) with
              | Some name => if isValidProfileName name then Some name else None
              | None => None
              end
          | None => None
          end
      | None => None
      end
  end.

Fixpoint nameFromScripts (scripts : list Element) : Res (option string) :=
  match scripts with
  | [] => mret None
  | script :: rest =>
      found ← try_catch
                (data ← jsonParse (textContent script);
                 mret (nameFromJsonLd data))
                (fun _ => mret None);
      match found with
      | Some name => mret (Some name)
      | None => nameFromScripts rest
      end
  end.

(** [extractNameFromStructuredData()] *)
Definition extractNameFromStructuredData : Res (option string) :=
  try_catch
    (jsonLdScripts ← querySelectorAll doc ("script[type=" ++ q "application/ld+json" ++ "]");
     nameFromScripts jsonLdScripts)
    (fun _ => mret None).

(** The name a sentence pattern captures in the page text, when valid. *)
Definition nameFromPattern (p : regex) (pageText : string) : option string :=
  match exec p pageText with
  | Some m =>
      match truthy (m1 m) with
      | Some captured =>
          let name := trim captured in
          if isValidProfileName name then Some name else None
      | None => None
      end
  | None => None
  end.

(** [extractNameFromPageText()] *)
Definition extractNameFromPageText : Res (option string) :=
  try_catch
    (pageText ← bodyProp doc "textContent" textContent;
     match nameFromPattern rxViewProfile pageText with
     | Some name => mret (Some name)
     | None => mret (nameFromPattern rxIsOnLinkedIn pageText)
     end)
    (fun _ => mret None).

(** The loop of [extractProfileNameEnhanced] over its strategies. *)
Fixpoint tryStrategies (strategies : list (Res (option string))) : Res string :=
  match strategies with
  | [] => mret "Unknown"
  | strategy :: rest =>
      found ← try_catch
                (name ← strategy;
                 match truthy name with
                 | Some name => if isValidProfileName name then mret (Some name) else mret None
                 | None => mret None
                 end)
                (fun _ => mret None);
      match found with
      | Some name => mret name
      | None => tryStrategies rest
      end
  end.

(** [extractProfileNameEnhanced()] *)
Definition extractProfileNameEnhanced : Res string :=
  tryStrategies
    [ extractNameFromSelectors; extractNameFromTitle; extractNameFromMetaTags;
      extractNameFromStructuredData; extractNameFromPageText ].
End NameExtractor.

(** ** Analysis Orchestrator *)

(** [debugInfo], without the copies of the page's address, title, time and
    ready state. Fields not yet assigned are [None] or [false]. *)
Record DebugInfo := {
  bodyLength : nat;
  errors : list string;
  profileNameFound : option bool;
  selectorsAttempted : option nat;
  elementsScanned : option nat;
  usedFallback : bool;
  fallbackDetails : option FallbackDetails;
  usedEmergencyAnalysis : bool;
  emergencyResult : option EmergencyResult
}.

(** The variables of [extractProfileData] that its [try] block assigns. *)
Record Locals := {
  l_postCount : Z;
  l_profileName : string;
  l_posts : list Post;
  l_debug : DebugInfo
}.

(** A statement over the variables that may throw: the variables keep what
    was assigned before the exception. *)
Definition Run (A : Type) : Type := Locals -> Locals * Res A.

#[global] Instance Run_ret : MRet Run := fun A a l => (l, Ok a).
#[global] Instance Run_bind : MBind Run := fun A B f m l =>
  match m l with
  | (l', Ok a) => f a l'
  | (l', Throw e) => (l', Throw e)
  end.

Definition get : Run Locals := fun l => (l, Ok l).
Definition modify (f : Locals -> Locals) : Run unit := fun l => (f l, Ok tt).
Definition call {A : Type} (r : Res A) : Run A := fun l => (l, r).

(** [try { body } catch (error) { handler }] over the variables. *)
Definition try_catch_run (body : Run unit) (handler : string -> Run unit) : Run unit :=
  fun l =>
    match body l with
    | (l', Ok a) => (l', Ok a)
    | (l', Throw e) => handler e l'
    end.

Definition set_postCount (n : Z) (l : Locals) : Locals :=
  {| l_postCount := n; l_profileName := l_profileName l; l_posts := l_posts l;
     l_debug := l_debug l |}.
Definition set_profileName (name : string) (l : Locals) : Locals :=
  {| l_postCount := l_postCount l; l_profileName := name; l_posts := l_posts l;
     l_debug := l_debug l |}.
Definition set_posts (posts : list Post) (l : Locals) : Locals :=
  {| l_postCount := l_postCount l; l_profileName := l_profileName l; l_posts := posts;
     l_debug := l_debug l |}.
Definition set_debug (f : DebugInfo -> DebugInfo) (l : Locals) : Locals :=
  {| l_postCount := l_postCount l; l_profileName := l_profileName l; l_posts := l_posts l;
     l_debug := f (l_debug l) |}.

Definition push_error (e : string) (d : DebugInfo) : DebugInfo :=
  {| bodyLength := bodyLength d; errors := errors d ++ [e];
     profileNameFound := profileNameFound d;
     selectorsAttempted := selectorsAttempted d; elementsScanned := elementsScanned d;
     usedFallback := usedFallback d; fallbackDetails := fallbackDetails d;
     usedEmergencyAnalysis := usedEmergencyAnalysis d;
     emergencyResult := emergencyResult d |}.
Definition note_name (found : bool) (d : DebugInfo) : DebugInfo :=
  {| bodyLength := bodyLength d; errors := errors d;
     profileNameFound := Some found;
     selectorsAttempted := selectorsAttempted d; elementsScanned := elementsScanned d;
     usedFallback := usedFallback d; fallbackDetails := fallbackDetails d;
     usedEmergencyAnalysis := usedEmergencyAnalysis d;
     emergencyResult := emergencyResult d |}.
Definition note_scan (report : ScanReport) (d : DebugInfo) : DebugInfo :=
  {| bodyLength := bodyLength d; errors := sr_errors report;
     profileNameFound := profileNameFound d;
     selectorsAttempted := Some (sr_selectorsAttempted report);
     elementsScanned := Some (sr_elementsScanned report);
     usedFallback := usedFallback d; fallbackDetails := fallbackDetails d;
     usedEmergencyAnalysis := usedEmergencyAnalysis d;
     emergencyResult := emergencyResult d |}.
Definition note_fallback (fd : FallbackDetails) (d : DebugInfo) : DebugInfo :=
  {| bodyLength := bodyLength d; errors := errors d;
     profileNameFound := profileNameFound d;
     selectorsAttempted := selectorsAttempted d; elementsScanned := elementsScanned d;
     usedFallback := true; fallbackDetails := Some fd;
     usedEmergencyAnalysis := usedEmergencyAnalysis d;
     emergencyResult := emergencyResult d |}.
Definition note_emergency (r : EmergencyResult) (d : DebugInfo) : DebugInfo :=
  {| bodyLength := bodyLength d; errors := errors d;
     profileNameFound := profileNameFound d;
     selectorsAttempted := selectorsAttempted d; elementsScanned := elementsScanned d;
     usedFallback := usedFallback d; fallbackDetails := fallbackDetails d;
     usedEmergencyAnalysis := true;
     emergencyResult := Some r |}.

(** A post as returned: the text cut to 150 characters. *)
Record PostRecord := {
  text : string;
  time : string;
  type : PostType;
  pr_details : option FallbackDetails
}.

(** The [debug] member: [debugInfo], or [{ error }] in the record built
    at the boundary. *)
Inductive DebugRecord :=
| Debug (debugInfo : DebugInfo)
| DebugError (error : string).

(** The record [analyzeCurrentProfile] resolves with. [posts] and [error]
    are [None] where the record has no such member. *)
Record AnalysisResult := {
  postCount : Z;
  profileName : string;
  analyzedAt : Z;
  url : string;
  posts : option (list PostRecord);
  error : option string;
  debug : DebugRecord
}.

(** The function passed to [posts.map]. *)
Definition displayPost (post : Post) : PostRecord :=
  {| text := substring0 150 (post_text post)
             ++ (if (150 <? String.length (post_text post))%nat then "..." else EmptyString);
     time := post_time post;
     type := post_type post;
     pr_details := post_details post |}.

Section Orchestrator.
Variable parseDate : string -> option Z.
Variable jsonParse : string -> Res JsonLd.
(** The clock read while fragments are classified. *)
Variable clock : Z.
Variable doc : Document.

Definition when (b : bool) (body : Run unit) : Run unit :=
  if b then body else mret tt.

(** The [try] block of [extractProfileData]. *)
Definition extractSteps (twentyFourHoursAgo : Z) : Run unit :=
  name ← call (extractProfileNameEnhanced jsonParse doc);
  modify (set_profileName name);;
  modify (set_debug (note_name (negb (String.eqb name "Unknown"))));;
  l ← get;
  report ← call (findRecentPostsEnhanced parseDate clock doc twentyFourHoursAgo
                   (errors (l_debug l)));
  modify (set_debug (note_scan report));;
  modify (set_posts (sr_posts report));;
  modify (set_postCount (Z.of_nat (List.length (sr_posts report))));;
  l ← get;
  when (l_postCount l =? 0)
    (fallbackResult ← call (performAdvancedFallbackDetection doc);
     when (0 <? count fallbackResult)
       (modify (set_postCount (count fallbackResult));;
        modify (fun l => set_posts
                  (l_posts l ++
                   [{| post_text := "Recent activity detected via enhanced text analysis";
                       post_time := "Estimated from page content";
                       post_type := type_fallback_detection;
                       post_details := Some (details fallbackResult) |}]) l);;
        modify (set_debug (note_fallback (details fallbackResult)))));;
  l ← get;
  when (String.eqb (l_profileName l) "Unknown" && (l_postCount l =? 0))
    (emergency ← call (performEmergencyAnalysis doc);
     when (negb (String.eqb (em_profileName emergency) "Unknown"))
       (modify (set_profileName (em_profileName emergency)));;
     when (0 <? activityScore emergency)
       (modify (set_postCount (Z.min (activityScore emergency) 5));;
        modify (fun l => set_posts
                  (l_posts l ++
                   [{| post_text := "Activity detected through emergency analysis";
                       post_time := "Estimated";
                       post_type := type_emergency_detection;
                       post_details := None |}]) l));;
     modify (set_debug (note_emergency emergency))).

(** [extractProfileData()], with [now] the clock at its start. *)
Definition extractProfileData (now : Z) : Res AnalysisResult :=
  let twentyFourHoursAgo := now - 24 * 60 * 60 * 1000 in
  let debugInfo :=
    {| bodyLength := match body doc with
                     | Some b => String.length (textContent b)
                     | None => 0%nat
                     end;
       errors := []; profileNameFound := None; selectorsAttempted := None;
       elementsScanned := None; usedFallback := false; fallbackDetails := None;
       usedEmergencyAnalysis := false; emergencyResult := None |} in
  let locals :=
    {| l_postCount := 0; l_profileName := "Unknown"; l_posts := []; l_debug := debugInfo |} in
  let '(l, _) :=
    try_catch_run (extractSteps twentyFourHoursAgo)
      (fun e => modify (set_debug (push_error e))) locals in
  mret {| postCount := l_postCount l;
          profileName := l_profileName l;
          analyzedAt := now;
          url := href doc;
          posts := Some (map displayPost (l_posts l));
          error := None;
          debug := Debug (l_debug l) |}.

(** The boundary of [analyzeCurrentProfile]: the [try]/[catch] around a
    run of the extraction, whose outcome settles the promise. [later] is the
    clock when the handler runs. *)
Definition settle (later : Z) (extraction : Res AnalysisResult) : Res AnalysisResult :=
  try_catch extraction
    (fun e =>
       mret {| postCount := 0;
               profileName := "Error";
               analyzedAt := later;
               url := href doc;
               posts := None;
               error := Some e;
               debug := DebugError e |}).

(** [analyzeCurrentProfile()]: what the promise resolves with. The wait
    before the extraction is not modelled. *)
Definition analyzeCurrentProfile (now later : Z) : Res AnalysisResult :=
  settle later (extractProfileData now).
End Orchestrator.

(** ** The content script's page test and message listener *)

(** [isLinkedInProfile()], on [window.location.hostname] and
    [window.location.pathname]. *)
Definition isLinkedInProfile (hostname pathname : string) : bool :=
  let isLinkedIn := includes "linkedin.com" hostname || includes "www.linkedin.com" hostname in
  let isProfile := includes "/in/" pathname || includes "/profile/" pathname in
  isLinkedIn && isProfile.

(** What the listener passes to [sendResponse]. *)
Record Response := {
  success : bool;
  data : option AnalysisResult;
  response_error : option string
}.

(** The listener of [setupMessageListener], given the outcome of the
    analysis it starts: a reply for the action [analyzeProfile], none for
    any other action. *)
Definition onMessage (action : string) (analysis : Res AnalysisResult) : option Response :=
  if String.eqb action "analyzeProfile" then
    match analysis with
    | Ok result => Some {| success := true; data := Some result; response_error := None |}
    | Throw message => Some {| success := false; data := None; response_error := Some message |}
    end
  else None.

(** The content script as a tab sees it: [init] installs the listener on a
    profile page only, so elsewhere a message gets no reply. *)
Definition contentScript (parseDate : string -> option Z) (jsonParse : string -> Res JsonLd)
    (clock : Z) (doc : Document) (hostname pathname : string) (now later : Z)
    (action : string) : option Response :=
  if isLinkedInProfile hostname pathname
  then onMessage action (analyzeCurrentProfile parseDate jsonParse clock doc now later)
  else None.

(** ** The background service *)

Module Background.

(** [isLinkedInProfileUrl(url)] *)
Definition isLinkedInProfileUrl (url : string) : bool :=
  if String.eqb url EmptyString then false
  else includes "linkedin.com/in/" url || includes "linkedin.com/profile/" url.

(** [isValidNameDirect(name)], the validation of the injected analysis. *)
Definition isValidNameDirect (name : string) : bool :=
  if String.eqb name EmptyString then false else
  let cleanName := trim name in
  (2 <=? String.length cleanName)%nat &&
  (String.length cleanName <=? 100)%nat &&
  negb (includes "linkedin" (toLowerCase cleanName)) &&
  negb (includes "profile" (toLowerCase cleanName)) &&
  negb (test rxAllDigits cleanName) &&
  test rxLetter cleanName.

(** *** The rate limiter *)

Definition maxRequests : nat := 20.
Definition timeWindow : Z := 60000.

(** [this.requests.filter(time => now - time < this.timeWindow)] *)
Definition prune (now : Z) (requests : list Z) : list Z :=
  List.filter (fun time => now - time <? timeWindow) requests.

(** [canMakeRequest()], with [now] the reading of [Date.now()]: the answer
    and the list [requests] as the call leaves it. *)
Definition canMakeRequest (now : Z) (requests : list Z) : bool * list Z :=
  let requests := prune now requests in
  if (List.length requests <? maxRequests)%nat
  then (true, (requests ++ [now])%list)
  else (false, requests).

(** [Math.min(...requests)] of a list that is not empty. *)
Definition oldest (requests : list Z) : Z :=
  match requests with
  | [] => 0
  | time :: rest => fold_left Z.min rest time
  end.

(** [getTimeUntilNextRequest()] *)
Definition getTimeUntilNextRequest (now : Z) (requests : list Z) : Z :=
  if (List.length requests <? maxRequests)%nat then 0
  else
    let oldestRequest := oldest requests in
    let timeUntilExpiry := timeWindow - (now - oldestRequest) in
    Z.max 0 timeUntilExpiry.

(** [getRemainingRequests()] *)
Definition getRemainingRequests (now : Z) (requests : list Z) : Z * list Z :=
  let requests := prune now requests in
  (Z.of_nat maxRequests - Z.of_nat (List.length requests), requests).

(** [Math.ceil(waitTime / 1000)] for a wait that is not negative. *)
Definition ceilSeconds (waitTime : Z) : Z := (waitTime + 999) / 1000.

(** *** The store *)

(** The two keys of [chrome.storage.local] the service writes: the last
    analysis with its timestamp, and the history. A key never written is
    [None]. *)
Record Storage := {
  lastAnalysis : option (AnalysisResult * Z);
  analysisHistory : option (list AnalysisResult)
}.

Section Store.
(** Whether [chrome.storage.local.set] takes a new content; when it does
    not, the call throws. *)
Variable accepts : Storage -> bool.

Definition storageSet (s : Storage) : Res Storage :=
  if accepts s then Ok s else Throw "QUOTA_BYTES quota exceeded".

(** The history as [storeAnalysisResult] rewrites it. *)
Definition pushHistory (data : AnalysisResult) (stored : option (list AnalysisResult))
    : list AnalysisResult :=
  let history := data :: default [] stored in
  if (10 <? List.length history)%nat then take 10 history else history.

(** [storeAnalysisResult(data)], with [timestamp] the reading of
    [Date.now()]: the store as the call leaves it, and whether it threw. *)
Definition storeAnalysisResult (data : AnalysisResult) (timestamp : Z) (s : Storage)
    : Storage * Res unit :=
  match storageSet {| lastAnalysis := Some (data, timestamp);
                      analysisHistory := analysisHistory s |} with
  | Throw e => (s, Throw e)
  | Ok s1 =>
      match storageSet {| lastAnalysis := lastAnalysis s1;
                          analysisHistory := Some (pushHistory data (analysisHistory s1)) |} with
      | Throw e => (s1, Throw e)
      | Ok s2 => (s2, Ok tt)
      end
  end.

(** *** The analysis request *)

(** A result the service accepts: a known name, or a positive count. *)
Definition usable (r : AnalysisResult) : bool :=
  negb (String.eqb (profileName r) "Unknown") || (0 <? postCount r).

(** The condition under which the next strategy is tried. *)
Definition lacking (analysisResult : option AnalysisResult) : bool :=
  match analysisResult with
  | None => true
  | Some r => String.eqb (profileName r) "Unknown" && (postCount r =? 0)
  end.

(** What the service passes to [sendResponse]. *)
Inductive Reply :=
| ReplyData (data : AnalysisResult)
| ReplyError (error : string).

(** What the request meets in the browser: whether the content script could
    be injected, what the tab answers to the message ([None] within [Ok] is
    an empty answer, [Throw] a failed delivery), and what the two injected
    analyses return ([None] within [Ok] is a missing result). *)
Record Tab := {
  inject : Res unit;
  answer : Res (option Response);
  direct : Res (option AnalysisResult);
  ultimate : Res (option AnalysisResult)
}.

(** The state of the service: the limiter's [requests] and the store. *)
Record Service := { requests : list Z; storage : Storage }.

(** The [try] block of strategy 1: the data of the content script's
    answer. *)
Definition messageAnalysis (tab : Tab) : Res AnalysisResult :=
  response ← answer tab;
  match response with
  | Some r =>
      if success r then
        match data r with
        | Some d => mret d
        | None => Throw "Content script returned no data or failed"
        end
      else Throw "Content script returned no data or failed"
  | None => Throw "Content script returned no data or failed"
  end.

(** Strategy 1: [analysisResult] and [lastError] after it. *)
Definition strategyMessage (tab : Tab) : option AnalysisResult * option string :=
  match messageAnalysis tab with
  | Ok d => (Some d, None)
  | Throw e => (None, Some e)
  end.

(** Strategy 2: the injected analysis, used when it is better than what
    strategy 1 gave. *)
Definition strategyDirect (tab : Tab) (st : option AnalysisResult * option string)
    : option AnalysisResult * option string :=
  let '(analysisResult, lastError) := st in
  if lacking analysisResult then
    match direct tab with
    | Ok (Some directResult) =>
        match analysisResult with
        | None => (Some directResult, lastError)
        | Some current =>
            if negb (String.eqb (profileName directResult) "Unknown")
               || (postCount current <? postCount directResult)
            then (Some directResult, lastError)
            else (analysisResult, lastError)
        end
    | Ok None => (analysisResult, lastError)
    | Throw e => (analysisResult, Some e)
    end
  else st.

(** Strategy 3: the last resort, used whatever it returns. *)
Definition strategyUltimate (tab : Tab) (st : option AnalysisResult * option string)
    : option AnalysisResult * option string :=
  let '(analysisResult, lastError) := st in
  if lacking analysisResult then
    match ultimate tab with
    | Ok (Some r) => (Some r, lastError)
    | Ok None => (analysisResult, lastError)
    | Throw e => (analysisResult, Some e)
    end
  else st.

(** [handleAnalyzeProfile(request, sender, sendResponse)]: [tabId] is
    [sender.tab?.id], which [!tabId] refuses when it is missing or 0, [now]
    the clock of the limiter's test, [later] the clock when the wait is
    computed, [timestamp] the clock of the store. The reply, and the service
    as the call leaves it. *)
Definition handleAnalyzeProfile (tabId : option nat) (now later timestamp : Z) (tab : Tab)
    (sv : Service) : Reply * Service :=
  match tabId with
  | None | Some O => (ReplyError "No tab ID available", sv)
  | Some (S _) =>
      let '(granted, requests') := canMakeRequest now (requests sv) in
      let sv1 := {| requests := requests'; storage := storage sv |} in
      if negb granted then
        let waitTime := getTimeUntilNextRequest later requests' in
        (ReplyError ("Rate limit exceeded. Please wait " ++ pretty (ceilSeconds waitTime)
                     ++ " seconds before trying again."), sv1)
      else
        match inject tab with
        | Throw e => (ReplyError e, sv1)
        | Ok _ =>
            let '(analysisResult, lastError) :=
              strategyUltimate tab (strategyDirect tab (strategyMessage tab)) in
            match analysisResult with
            | Some r =>
                if usable r then
                  match storeAnalysisResult r timestamp (storage sv1) with
                  | (s', Ok _) => (ReplyData r, {| requests := requests'; storage := s' |})
                  | (s', Throw e) => (ReplyError e, {| requests := requests'; storage := s' |})
                  end
                else
                  (ReplyError (default "All analysis methods failed to produce results" lastError),
                   sv1)
            | None =>
                (ReplyError (default "All analysis methods failed to produce results" lastError),
                 sv1)
            end
        end
  end.
End Store.

(** [performFallbackDetectionDirect()], the estimate of the injected
    analysis. *)
Definition directTimePatterns : list regex :=
  [ rx (digits ⋅ ws ⋅ Lit "hou" ⋅ Opt (Lit "r") ⋅ Opt (Lit "s") ⋅ ws ⋅ Lit "ago");
    rx (digits ⋅ ws ⋅ Lit "minut" ⋅ Opt (Lit "e") ⋅ Opt (Lit "s") ⋅ ws ⋅ Lit "ago");
    rx (Lit "yesterday");
    rx (Lit "1" ⋅ ws ⋅ Lit "day" ⋅ ws ⋅ Lit "ago") ].

Definition totalMatches (pageText : string) : Z :=
  fold_left (fun total p => total + Z.of_nat (countMatches p pageText)) directTimePatterns 0.

Definition performFallbackDetectionDirect (doc : Document) : Res Z :=
  try_catch
    (content ← bodyProp doc "textContent" textContent;
     let pageText := toLowerCase content in
     mret (Z.min (Z.max 0 (totalMatches pageText / 3)) 8))
    (fun _ => mret 0).

End Background.

(** ** Vocabulary of the properties *)

(** The de-duplication key of an emitted post: the first 100 characters of
    its text. *)
Definition postKey (post : Post) : string := substring0 100 (post_text post).

(** The de-duplication key of a fragment. *)
Definition fragmentKey (element : Element) : string :=
  substring0 100 (trim (textContent element)).

(** [clamp x lo hi]: [x] brought into the interval from [lo] to [hi]. *)
Definition clamp (x lo hi : Z) : Z :=
  if x <? lo then lo else if hi <? x then hi else x.

(** How many matches of a time pattern count, in a page text. *)
Definition qualifyingCount (p : ActivityPattern) (pageText : string) : nat :=
  List.length (qualifyingMatches p pageText).

(** The invariant of a scan: the posts found so far have pairwise distinct
    keys, all of them recorded in the de-duplication set. *)
Definition scan_inv (st : Scan) : Prop :=
  NoDup (map postKey (sc_posts st)) /\
  forall post, post ∈ sc_posts st -> postKey post ∈ sc_processed st.

(** The two records the orchestrator synthesizes. *)
Definition fallbackPost (fd : FallbackDetails) : Post :=
  {| post_text := "Recent activity detected via enhanced text analysis";
     post_time := "Estimated from page content";
     post_type := type_fallback_detection;
     post_details := Some fd |}.

Definition emergencyPost : Post :=
  {| post_text := "Activity detected through emergency analysis";
     post_time := "Estimated";
     post_type := type_emergency_detection;
     post_details := None |}.

(** A name as the pipeline may report it: the sentinel, or a candidate that
    passed the validation. *)
Definition reportedName (name : string) : Prop :=
  name = "Unknown" \/ isValidProfileName name = true.

(** The entries a list of selectors adds to [debugInfo.errors]: one for each
    selector the page rejects, in the order of the list. *)
Definition selectorErrors (doc : Document) (selectors : list string) : list string :=
  flat_map
    (fun selector =>
       match querySelectorAll doc selector with
       | Ok _ => []
       | Throw e => ["Selector " ++ q selector ++ ": " ++ e]
       end)
    selectors.

(** The elements a list of selectors finds, selector after selector; a
    rejected selector finds none. *)
Definition matchedElements (doc : Document) (selectors : list string) : list Element :=
  flat_map
    (fun selector =>
       match querySelectorAll doc selector with
       | Ok elements => elements
       | Throw _ => []
       end)
    selectors.

(** Whether the scan goes on to the activity feed. *)
Definition onActivityFeed (doc : Document) : bool :=
  includes "/recent-activity/" (href doc) || includes "/detail/recent-activity/" (href doc).

(** A scan that starts. *)
Definition freshScan : Scan := {| sc_posts := []; sc_processed := ∅ |}.

(** The page on which a rejected selector finds nothing instead. *)
Definition quiet (doc : Document) : Document :=
  {| href := href doc;
     title := title doc;
     body := body doc;
     querySelectorAll := fun selector =>
       match querySelectorAll doc selector with
       | Ok elements => Ok elements
       | Throw _ => Ok []
       end;
     docQuerySelector := docQuerySelector doc |}.

(** The first name of a list of optional names. *)
Fixpoint firstOf (candidates : list (option string)) : option string :=
  match candidates with
  | [] => None
  | Some name :: _ => Some name
  | None :: rest => firstOf rest
  end.

(** The shape of a post the scanner emits. *)
Definition scannedPost (post : Post) : Prop :=
  (15 <= String.length (post_text post))%nat /\
  post_text post = trim (post_text post) /\
  post_time post <> EmptyString /\
  post_details post = None /\
  post_type post <> type_fallback_detection /\
  post_type post <> type_emergency_detection.

(** A run of the rate limiter: the readings it granted so far, oldest
    first, and its list [requests]. A step is one call of [canMakeRequest]
    at the reading [now]. *)
Definition limiterStep (st : list Z * list Z) (now : Z) : list Z * list Z :=
  let '(granted, requests) := st in
  let '(ok, requests') := Background.canMakeRequest now requests in
  ((if ok then granted ++ [now] else granted)%list, requests').

Definition limiterRun (clock : list Z) : list Z * list Z :=
  fold_left limiterStep clock ([], []).

(** The store after the results [items], each with the clock of its call,
    were stored in this order by a store that takes every content. *)
Definition storeAll (items : list (AnalysisResult * Z)) (s : Background.Storage)
    : Background.Storage :=
  fold_left
    (fun s item => (Background.storeAnalysisResult (fun _ => true) item.1 item.2 s).1)
    items s.

(** The results a request can meet, in the order of its strategies: the
    data of the tab's answer, the result of the injected analysis, the
    result of the last resort. *)
Definition candidates (tab : Background.Tab) : list AnalysisResult :=
  (match Background.messageAnalysis tab with Ok d => [d] | Throw _ => [] end ++
   match Background.direct tab with Ok (Some r) => [r] | _ => [] end ++
   match Background.ultimate tab with Ok (Some r) => [r] | _ => [] end)%list.

Definition firstUsable (tab : Background.Tab) : option AnalysisResult :=
  List.find Background.usable (candidates tab).

(** The store after a successful [storeAnalysisResult]. *)
Definition stored (data : AnalysisResult) (timestamp : Z) (s : Background.Storage)
    : Background.Storage :=
  {| Background.lastAnalysis := Some (data, timestamp);
     Background.analysisHistory :=
       Some (Background.pushHistory data (Background.analysisHistory s)) |}.

(** *** The text parser

    What the properties of [parseTimeFromText] are stated with. *)

(** A text of decimal digits. *)
Fixpoint all_digits (s : string) : bool :=
  match s with
  | EmptyString => true
  | String c s' => is_digit c && all_digits s'
  end.

(** The last character of a text. *)
Fixpoint last_char (s : string) : option ascii :=
  match s with
  | EmptyString => None
  | String c EmptyString => Some c
  | String _ s' => last_char s'
  end.

(** A match of a pattern of the table is accepted: of a day pattern as it
    is, of another pattern when its number is within the bound. *)
Definition accepted (p : RecentPattern) (m : Match) : bool :=
  is_days (rp_unit p) || includes "yesterday" (source (pattern p))
  || (parseIntOr1 (m1 m) <=? maxValue p).

(** The outcome of a pattern on a text: its leftmost match, if accepted. *)
Definition outcome (p : RecentPattern) (text : string) : option Match :=
  match exec (pattern p) text with
  | Some m => if accepted p m then Some m else None
  | None => None
  end.

(** Where a run of digits ends: the text that follows does not start with
    a digit. *)
Definition after_digits (t : string) : Prop :=
  match t with
  | String c _ => is_digit c = false
  | EmptyString => True
  end.

(** The continuation of [match_here]. *)
Definition here : string -> option string -> option (string * option string) :=
  fun s' cap => Some (s', cap).

(** What follows the number in a pattern fails when a digit comes first. *)
Definition rejects_digit (rest : re) : Prop :=
  forall c s cap, is_digit c = true -> run false rest (String c s) cap here = None.

(** The pattern of one day, [1\s*d(?:ay)?\s*ago]. *)
Definition oneDay : regex :=
  rx (Lit "1" ⋅ ws ⋅ Lit "d" ⋅ Opt (Grp false ["ay"]) ⋅ ws ⋅ Lit "ago").

(** *** The real numbers of doubles

    What the properties of the scores are stated and proved with: the real
    number a double stands for, the order of doubles, and what it is for a
    double to be a real rounded to nearest, ties to even. *)

Module Exact.
Import Reals.
Local Open Scope R_scope.

Definition p2 (e : Z) : R := powerRZ 2 e.

(** The real number a double that is not negative stands for. *)
Definition value (x : number) : R :=
  match x with
  | S754_finite false m e => IZR (Zpos m) * p2 e
  | _ => 0
  end.

(** The order of these doubles. *)
Definition le (x y : number) : Prop :=
  match x, y with
  | _, S754_infinity false => True
  | S754_infinity _, _ => False
  | _, _ => value x <= value y
  end.

(** Where a real [x] lies between the integers [m] and [m + 1]. *)
Definition located (x : R) (m : Z) (l : location) : Prop :=
  match l with
  | loc_Exact => x = IZR m
  | loc_Inexact Lt => IZR m < x < IZR m + / 2
  | loc_Inexact Eq => x = IZR m + / 2
  | loc_Inexact Gt => IZR m + / 2 < x < IZR m + 1
  end.

(** [m] is the integer nearest to [x], the even one of two. *)
Definition nearest (x : R) (m : Z) : Prop :=
  IZR m - / 2 <= x <= IZR m + / 2 /\
  (x = IZR m - / 2 \/ x = IZR m + / 2 -> Z.even m = true).

(** The same for a mantissa with its round and sticky bits. *)
Definition locatedS (x : R) (mrs : shr_record) : Prop :=
  (0 <= shr_m mrs)%Z /\ located x (shr_m mrs) (loc_of_shr_record mrs).

Section Format.
Variables prec emax : Z.

(** [e] is the exponent at which the format holds the numbers around the
    positive real [v]. *)
Definition canonical (v : R) (e : Z) : Prop :=
  (emin prec emax <= e)%Z /\
  v < p2 (e + prec) /\
  ((emin prec emax < e)%Z -> p2 (e + prec - 1) <= v).

(** [m * 2^e] is [v] rounded to nearest, ties to even, overflow apart. *)
Definition rounded (v : R) (m : Z) (e : Z) : Prop :=
  canonical v e /\ nearest (v * p2 (- e)) m.

(** The double [r] stands for the rounded real [w], which overflows from
    [2^emax] on. *)
Definition denotes (w : R) (r : number) : Prop :=
  match r with
  | S754_zero false => w = 0
  | S754_finite false m e => w = IZR (Zpos m) * p2 e /\ w < p2 emax
  | S754_infinity false => p2 emax <= w
  | _ => False
  end.

(** The double [r] is the positive real [v] rounded. *)
Definition rounds (v : R) (r : number) : Prop :=
  exists m e, rounded v m e /\ denotes (IZR m * p2 e) r.

(** The doubles that the scores range over: zero, the positive numbers of
    the format, and infinity. *)
Definition fits (x : number) : Prop :=
  match x with
  | S754_zero false => True
  | S754_infinity false => True
  | S754_finite false m e => (Zpos (digits2_pos m) <= prec)%Z /\ (emin prec emax <= e)%Z
  | _ => False
  end.
End Format.

Definition good : number -> Prop := fits Double.prec Double.emax.

End Exact.

(** The doubles just before 2.5 and 30. *)
Definition below25 : number := S754_finite false 5629499534213119 (-51).
Definition below30 : number := S754_finite false 8444249301319679 (-48).

(** ** Fixtures *)

Module Fixtures.

Definition noAttribute : string -> option string := fun _ => None.
Definition noElement : string -> option Element := fun _ => None.

(** An element with a text and nothing else. *)
Definition textElement (content : string) : Element :=
  mkElement content EmptyString noAttribute noElement noElement.

(** A date parser that knows two instants: the epoch, and noon of the day
    after it. *)
Definition fixtureDates (s : string) : option Z :=
  if String.eqb s "1970-01-01T00:00:00.000Z" then Some 0
  else if String.eqb s "1970-01-02T12:00:00.000Z" then Some 129600000
  else None.

(** A [time] element whose [datetime] is the epoch. *)
Definition epochStamp : Element :=
  mkElement EmptyString EmptyString
    (fun name => if String.eqb name "datetime" then Some "1970-01-01T00:00:00.000Z" else None)
    noElement noElement.

(** A fragment that carries [epochStamp] and whose text has a relative-time
    phrase. *)
Definition stampedFragment : Element :=
  mkElement "Jane posted this 2 hours ago" EmptyString noAttribute
    (fun selector => if String.eqb selector "time[datetime]" then Some epochStamp else None)
    noElement.

(** A [time] element whose [datetime] is noon of the day after the epoch. *)
Definition noonStamp : Element :=
  mkElement EmptyString EmptyString
    (fun name => if String.eqb name "datetime" then Some "1970-01-02T12:00:00.000Z" else None)
    noElement noElement.

(** A fragment that carries [noonStamp] and whose text has no relative-time
    phrase. *)
Definition datedFragment : Element :=
  mkElement "Jane wrote a long article" EmptyString noAttribute
    (fun selector => if String.eqb selector "time[datetime]" then Some noonStamp else None)
    noElement.

(** The clock of the fixtures, 2 days after the epoch, and the cutoff one
    day before it. *)
Definition clockNow : Z := 172800000.
Definition cutoff : Z := clockNow - 24 * 60 * 60 * 1000.

(** A page with a body text and markup, on which no selector finds
    anything. *)
Definition plainPage (bodyText bodyHTML : string) : Document :=
  {| href := "https://www.linkedin.com/in/jane-doe/";
     title := "Jane Doe | LinkedIn";
     body := Some (mkElement bodyText bodyHTML noAttribute noElement noElement);
     querySelectorAll := fun _ => Ok [];
     docQuerySelector := noElement |}.

Definition noJson (s : string) : Res JsonLd := Throw "Unexpected token".

(** A fragment with an image in it, and a page titled after its owner on
    which one selector finds that fragment. *)
Definition imageFragment : Element :=
  mkElement "posted 2 hours ago" EmptyString noAttribute
    (fun selector =>
       if String.eqb selector imageSelector then Some (textElement EmptyString) else None)
    noElement.

Definition imagePage : Document :=
  {| href := "https://www.linkedin.com/in/jane-doe/";
     title := "Jane Doe | LinkedIn";
     body := Some (textElement "posted 2 hours ago");
     querySelectorAll := fun selector =>
       if String.eqb selector ".feed-shared-update-v2" then Ok [imageFragment] else Ok [];
     docQuerySelector := noElement |}.

(** A page on which two overlapping selectors find the same fragment. *)
Definition overlapPage : Document :=
  {| href := "https://www.linkedin.com/in/jane-doe/";
     title := "Jane Doe | LinkedIn";
     body := Some (textElement "Jane posted this 2 hours ago");
     querySelectorAll := fun selector =>
       if String.eqb selector ".feed-shared-update-v2" || String.eqb selector ".pvs-list__item"
       then Ok [stampedFragment] else Ok [];
     docQuerySelector := noElement |}.

(** A page with a title only, on which no selector finds anything. *)
Definition titledPage (pageTitle : string) : Document :=
  {| href := "https://www.linkedin.com/in/jane-doe/";
     title := pageTitle;
     body := Some (textElement EmptyString);
     querySelectorAll := fun _ => Ok [];
     docQuerySelector := noElement |}.

(** A record as an analysis returns it, with a name and a count. *)
Definition sampleResult (name : string) (count : Z) : AnalysisResult :=
  {| postCount := count;
     profileName := name;
     analyzedAt := clockNow;
     url := "https://www.linkedin.com/in/jane-doe/";
     posts := Some [];
     error := None;
     debug := Debug {| bodyLength := 0; errors := []; profileNameFound := Some true;
                       selectorsAttempted := Some 32%nat; elementsScanned := Some 0%nat;
                       usedFallback := false; fallbackDetails := None;
                       usedEmergencyAnalysis := false; emergencyResult := None |} |}.

(** A service that has granted nothing and stored nothing. *)
Definition idleService : Background.Service :=
  {| Background.requests := [];
     Background.storage := {| Background.lastAnalysis := None;
                              Background.analysisHistory := None |} |}.

(** A tab that gives [reply] to the message, and in which no analysis can
    be injected. *)
Definition relayTab (reply : option Response) : Background.Tab :=
  {| Background.inject := Ok tt;
     Background.answer := Ok reply;
     Background.direct := Throw "Cannot access contents of the page";
     Background.ultimate := Throw "Cannot access contents of the page" |}.

(** A tab without a listener, in which the injected analysis finds nothing
    and the last resort finds a name and two posts. *)
Definition silentTab : Background.Tab :=
  {| Background.inject := Ok tt;
     Background.answer := Throw "Could not establish connection";
     Background.direct := Ok (Some (sampleResult "Unknown" 0));
     Background.ultimate := Ok (Some (sampleResult "Jane Doe" 2)) |}.

(** Markup with nine structural matches: nine of one pattern, and nine
    spread over four patterns as 3, 4, 1 and 1. *)
Fixpoint times (n : nat) (s : string) : string :=
  match n with
  | O => EmptyString
  | S n' => s ++ times n' s
  end.

Definition attribute (name value : string) : string := name ++ "=" ++ q value ++ " ".

Definition nineInOne : string := times 9 (attribute "class" "activity").

Definition nineSpread : string :=
  times 3 (attribute "data-view-name" "activity")
  ++ times 4 (attribute "data-view-name" "feed")
  ++ attribute "data-control-name" "activity"
  ++ attribute "data-control-name" "feed".

End Fixtures.

(** * Properties *)

(** The parsers and scores are run on concrete inputs only; in the proofs
    about arbitrary pages they stay folded. *)
#[local] Arguments parseTimeFromText : simpl never.
#[local] Arguments isValidProfileName : simpl never.
#[local] Arguments timePatterns : simpl never.
#[local] Arguments contextualScore : simpl never.
#[local] Arguments structuralScore : simpl never.
#[local] Arguments keywordHits : simpl never.
#[local] Arguments estimatedPosts : simpl never.
#[local] Arguments toLowerCase : simpl never.
#[local] Arguments trim : simpl never.
#[local] Arguments findTimeElement : simpl never.

(** Steps of a computation in [Res]. *)
Ltac res_step := cbn [mbind mret Res_bind Res_ret try_catch].

(** ** Name validation *)

(** C6. The name validation predicate rejects the candidates LinkedIn,
    (Premium), 123, View and the empty string, and accepts Jane Doe and
    Dr. A. Smith. *)
Theorem isValidProfileName_fixtures :
  isValidProfileName "LinkedIn" = false /\
  isValidProfileName "(Premium)" = false /\
  isValidProfileName "123" = false /\
  isValidProfileName "View" = false /\
  isValidProfileName EmptyString = false /\
  isValidProfileName "Jane Doe" = true /\
  isValidProfileName "Dr. A. Smith" = true.
Proof. repeat split; vm_compute; reflexivity. Qed.

(** The patterns of the validation and of the page-text strategy are those
    of the source, text for text. *)
Lemma name_patterns_source :
  map source [rxAllDigits; rxNoLetter; rxUiWord; rxLetter; rxBlank;
              rxViewProfile; rxIsOnLinkedIn] =
  [ "^\d+$"; "^[^a-zA-Z]*$";
    "^(show|view|see|all|more|less|edit|update|follow|connect|message|home|about|contact)$";
    "[a-zA-Z]"; "^\s*$";
    "View\s+([A-Z][a-zA-Z\s'-]{1,50})'s\s+profile";
    "([A-Z][a-zA-Z\s'-]{1,50})\s+is\s+on\s+LinkedIn" ].
Proof. reflexivity. Qed.

(** ** Relative-time phrases *)

(** The parser only ever answers with a recent result. *)
Lemma parseTimeLoop_recent ps content r :
  parseTimeLoop ps content = Some r -> isRecent r = true.
Proof.
  induction ps as [|p ps IH]; simpl; [discriminate|].
  destruct (exec (pattern p) content) as [m|]; [|exact IH].
  destruct (is_days (rp_unit p) || includes "yesterday" (source (pattern p))).
  - intros [= <-]. reflexivity.
  - destruct (parseIntOr1 (m1 m) <=? maxValue p).
    + intros [= <-]. reflexivity.
    + exact IH.
Qed.

Lemma parseTimeFromText_recent content r :
  parseTimeFromText content = Some r -> isRecent r = true.
Proof. apply parseTimeLoop_recent. Qed.

(** The pattern table is the one of the source, text for text. *)
Lemma recentPatterns_source :
  map (fun p => source (pattern p)) recentPatterns =
  [ "(\d+)\s*m(?:in|inute)?s?\s*ago"; "(\d+)\s*h(?:our|r)?s?\s*ago";
    "1\s*d(?:ay)?\s*ago"; "yesterday"; "(\d+)h\s*ago"; "(\d+)m\s*ago";
    "(\d+)\s*hrs?\s*ago"; "(\d+)\s*mins?\s*ago";
    "about\s*(\d+)\s*hours?\s*ago"; "about\s*(\d+)\s*minutes?\s*ago";
    "(\d+)\s*h$"; "(\d+)\s*m$" ].
Proof. reflexivity. Qed.

(** ** Explicit timestamps *)

Section Classifier.
Variable parseDate : string -> option Z.
Variable now : Z.

Lemma datetimeInRange_spec d C T :
  parseDate d = Some T ->
  (datetimeInRange parseDate now d C = true <-> C <= T <= now).
Proof.
  intros HT. unfold datetimeInRange. rewrite HT.
  rewrite andb_true_iff, !Z.leb_le. tauto.
Qed.

Lemma parseTimeAttribute_recent te name r :
  parseTimeAttribute te name = Some r -> isRecent r = true.
Proof.
  unfold parseTimeAttribute.
  destruct (truthy (getAttribute te name)) as [label|]; [|discriminate].
  destruct (includes "ago" label); [|discriminate].
  apply parseTimeFromText_recent.
Qed.

Lemma parseTimeLabels_recent te r :
  parseTimeLabels te = Some r -> isRecent r = true.
Proof.
  unfold parseTimeLabels.
  destruct (parseTimeAttribute te "aria-label") as [r'|] eqn:Haria.
  - intros [= <-]. eapply parseTimeAttribute_recent, Haria.
  - apply parseTimeAttribute_recent.
Qed.

Lemma parseTimeElement_recent te C r :
  parseTimeElement parseDate now te C = Some r -> isRecent r = true.
Proof.
  unfold parseTimeElement.
  destruct (truthy (getAttribute te "datetime")) as [d|].
  - destruct (datetimeInRange parseDate now d C).
    + intros [= <-]. reflexivity.
    + apply parseTimeLabels_recent.
  - apply parseTimeLabels_recent.
Qed.

(** A fragment that passes the two gates of the scanner is not skipped. *)
Lemma gates_open el (processed : gset string) :
  substring0 100 (trim (textContent el)) ∉ processed ->
  (15 <= String.length (trim (textContent el)))%nat ->
  bool_decide (substring0 100 (trim (textContent el)) ∈ processed)
    || (String.length (trim (textContent el)) <? 15)%nat = false.
Proof.
  intros Hkey Hlen. rewrite bool_decide_eq_false_2 by exact Hkey.
  simpl. apply Nat.ltb_ge. exact Hlen.
Qed.

(** What [extractPostFromElement] does with a fragment that passes the
    gates, by the outcome of the two parsers. *)
Lemma extractPost_marker el C (processed : gset string) te r :
  substring0 100 (trim (textContent el)) ∉ processed ->
  (15 <= String.length (trim (textContent el)))%nat ->
  findTimeElement el = Some te ->
  parseTimeElement parseDate now te C = Some r ->
  exists post,
    (extractPostFromElement parseDate now el C processed).1 = Some post /\
    post_text post = trim (textContent el) /\ post_time post = timeStr r.
Proof.
  intros Hkey Hlen Hte Hr. unfold extractPostFromElement.
  rewrite gates_open by assumption. rewrite Hte, Hr.
  rewrite (parseTimeElement_recent _ _ _ Hr). simpl.
  eexists. split; [reflexivity|]. split; reflexivity.
Qed.

Lemma extractPost_text el C (processed : gset string) r :
  substring0 100 (trim (textContent el)) ∉ processed ->
  (15 <= String.length (trim (textContent el)))%nat ->
  match findTimeElement el with
  | Some te => parseTimeElement parseDate now te C
  | None => None
  end = None ->
  parseTimeFromText (trim (textContent el)) = Some r ->
  exists post,
    (extractPostFromElement parseDate now el C processed).1 = Some post /\
    post_text post = trim (textContent el) /\ post_time post = timeStr r.
Proof.
  intros Hkey Hlen Hnone Hr. unfold extractPostFromElement.
  rewrite gates_open by assumption.
  assert (Hfirst :
    match findTimeElement el with
    | Some te =>
        match parseTimeElement parseDate now te C with
        | Some result => (isRecent result, timeStr result)
        | None => (false, EmptyString)
        end
    | None => (false, EmptyString)
    end = (false, EmptyString)).
  { destruct (findTimeElement el) as [te|]; [|reflexivity]. rewrite Hnone. reflexivity. }
  rewrite Hfirst. simpl. rewrite Hr, (parseTimeFromText_recent _ _ Hr). simpl.
  eexists. split; [reflexivity|]. split; reflexivity.
Qed.

Lemma extractPost_none el C (processed : gset string) :
  match findTimeElement el with
  | Some te => parseTimeElement parseDate now te C
  | None => None
  end = None ->
  parseTimeFromText (trim (textContent el)) = None ->
  (extractPostFromElement parseDate now el C processed).1 = None.
Proof.
  intros Hnone Htext. unfold extractPostFromElement.
  destruct (bool_decide _ || _); [reflexivity|].
  assert (Hfirst :
    match findTimeElement el with
    | Some te =>
        match parseTimeElement parseDate now te C with
        | Some result => (isRecent result, timeStr result)
        | None => (false, EmptyString)
        end
    | None => (false, EmptyString)
    end = (false, EmptyString)).
  { destruct (findTimeElement el) as [te|]; [|reflexivity]. rewrite Hnone. reflexivity. }
  rewrite Hfirst. simpl. rewrite Htext. reflexivity.
Qed.

(** C1, as the code has it. For a fragment that passes the scanner's gates
    and carries a marker whose [datetime] parses to the instant [T]: the
    [datetime] test succeeds exactly when [C <= T <= now]; when it does the
    fragment is recent, with the timestamp as its time; when it does not the
    fragment is recent exactly when a relative-time phrase within bounds is
    found in the marker's [aria-label] or [title], or in the fragment's
    text. *)
Theorem explicit_timestamp_recency C el (processed : gset string) te d T :
  findTimeElement el = Some te ->
  truthy (getAttribute te "datetime") = Some d ->
  parseDate d = Some T ->
  substring0 100 (trim (textContent el)) ∉ processed ->
  (15 <= String.length (trim (textContent el)))%nat ->
  (datetimeInRange parseDate now d C = true <-> C <= T <= now) /\
  (C <= T <= now ->
     exists post,
       (extractPostFromElement parseDate now el C processed).1 = Some post /\
       post_time post = d) /\
  (~ (C <= T <= now) ->
     (is_Some (extractPostFromElement parseDate now el C processed).1 <->
      is_Some (parseTimeLabels te) \/
      is_Some (parseTimeFromText (trim (textContent el))))).
Proof.
  intros Hte Hd HT Hkey Hlen.
  pose proof (datetimeInRange_spec d C T HT) as Hrange.
  split; [exact Hrange|]. split.
  - intros Hin. apply Hrange in Hin.
    destruct (extractPost_marker el C processed te
                {| isRecent := true; timeStr := d |} Hkey Hlen Hte) as (post & Hp & _ & Htime).
    { unfold parseTimeElement. rewrite Hd, Hin. reflexivity. }
    exists post. split; assumption.
  - intros Hout.
    assert (Hfalse : datetimeInRange parseDate now d C = false).
    { destruct (datetimeInRange parseDate now d C) eqn:E; [|reflexivity].
      exfalso. apply Hout, Hrange. reflexivity. }
    assert (Hel : parseTimeElement parseDate now te C = parseTimeLabels te).
    { unfold parseTimeElement. rewrite Hd, Hfalse. reflexivity. }
    destruct (parseTimeLabels te) as [r|] eqn:Hlabels.
    + destruct (extractPost_marker el C processed te r Hkey Hlen Hte Hel) as (post & Hp & _).
      rewrite Hp. split; [intros _; left; eexists; reflexivity | intros _; eexists; reflexivity].
    + destruct (parseTimeFromText (trim (textContent el))) as [r|] eqn:Htext.
      * destruct (extractPost_text el C processed r Hkey Hlen) as (post & Hp & _).
        { rewrite Hte. exact Hel. }
        { exact Htext. }
        rewrite Hp. split; [intros _; right; eexists; reflexivity | intros _; eexists; reflexivity].
      * rewrite (extractPost_none el C processed).
        -- split; [intros [? [=]] | intros [[? [=]] | [? [=]]]].
        -- rewrite Hte. exact Hel.
        -- exact Htext.
Qed.

End Classifier.

Import Fixtures.

(** The theorem at [datedFragment], whose timestamp is within the window. *)
Lemma explicit_timestamp_recency_witness :
  exists post,
    (extractPostFromElement fixtureDates clockNow datedFragment cutoff ∅).1 = Some post /\
    post_time post = "1970-01-02T12:00:00.000Z".
Proof.
  refine (proj1 (proj2 (explicit_timestamp_recency fixtureDates clockNow cutoff
            datedFragment ∅ noonStamp "1970-01-02T12:00:00.000Z" 129600000 _ _ _ _ _)) _).
  - reflexivity.
  - reflexivity.
  - reflexivity.
  - apply not_elem_of_empty.
  - vm_compute. lia.
  - unfold cutoff, clockNow. lia.
Defined.

(** C1 as stated fails: the fragment [stampedFragment] carries the explicit
    timestamp 0, which lies outside [[cutoff, clockNow]], and is classified
    recent all the same, through the phrase in its text. *)
Lemma explicit_timestamp_recency_counterexample :
  findTimeElement stampedFragment = Some epochStamp /\
  truthy (getAttribute epochStamp "datetime") = Some "1970-01-01T00:00:00.000Z" /\
  fixtureDates "1970-01-01T00:00:00.000Z" = Some 0 /\
  ~ (cutoff <= 0 <= clockNow) /\
  (extractPostFromElement fixtureDates clockNow stampedFragment cutoff ∅).1 =
    Some {| post_text := "Jane posted this 2 hours ago"; post_time := "Text: 2 hours ago";
            post_type := type_text; post_details := None |}.
Proof.
  split; [reflexivity|]. split; [reflexivity|]. split; [reflexivity|]. split.
  - unfold cutoff, clockNow. lia.
  - vm_compute. reflexivity.
Qed.


(** ** De-duplication *)

Section Scanner.
Variable parseDate : string -> option Z.
Variable now : Z.

(** An emitted post has the fragment's key, which was not in the set and is
    added to it; a skipped fragment leaves the set as it was. *)
Lemma extractPost_emitted el C (processed processed' : gset string) post :
  extractPostFromElement parseDate now el C processed = (Some post, processed') ->
  postKey post = fragmentKey el /\
  (fragmentKey el ∉ processed) /\
  processed' = {[fragmentKey el]} ∪ processed.
Proof.
  unfold extractPostFromElement, fragmentKey, postKey.
  destruct (bool_decide (_ ∈ processed)) eqn:Hin; simpl; [intros [=]|].
  apply bool_decide_eq_false in Hin.
  destruct (_ <? 15)%nat; [intros [=]|].
  destruct (match findTimeElement el with Some _ => _ | None => _ end) as [r1 t1].
  destruct (if negb r1 then _ else _) as [r2 t2].
  destruct (negb r2); [intros [=]|].
  intros [= <- <-]. simpl. auto.
Qed.

Lemma extractPost_skipped el C (processed processed' : gset string) :
  extractPostFromElement parseDate now el C processed = (None, processed') ->
  processed' = processed.
Proof.
  unfold extractPostFromElement.
  destruct (_ || _); [intros [= <-]; reflexivity|].
  destruct (match findTimeElement el with Some _ => _ | None => _ end) as [r1 t1].
  destruct (if negb r1 then _ else _) as [r2 t2].
  destruct (negb r2); [intros [= <-]; reflexivity | intros [=]].
Qed.

(** A fragment whose key is in the set is skipped. *)
Lemma extractPost_seen el C (processed : gset string) :
  fragmentKey el ∈ processed ->
  extractPostFromElement parseDate now el C processed = (None, processed).
Proof.
  intros Hin. unfold extractPostFromElement, fragmentKey in *.
  rewrite bool_decide_eq_true_2 by exact Hin. reflexivity.
Qed.

Lemma scanElement_inv C st el :
  scan_inv st -> scan_inv (scanElement parseDate now C st el).
Proof.
  intros [Hnd Hsub]. unfold scanElement.
  destruct (extractPostFromElement parseDate now el C (sc_processed st))
    as [[post|] processed'] eqn:Hx.
  - apply extractPost_emitted in Hx as (Hkey & Hfresh & ->).
    split; simpl.
    + rewrite map_app. simpl. apply NoDup_app. split; [exact Hnd|]. split.
      * intros k Hk Hk'. apply list_elem_of_singleton in Hk'. subst k.
        apply list_elem_of_fmap in Hk as (p & Hp & Hin).
        apply Hfresh. rewrite <- Hkey, Hp. apply Hsub, Hin.
      * apply NoDup_singleton.
    + intros p Hp. apply elem_of_app in Hp as [Hp|Hp].
      * apply elem_of_union_r, Hsub, Hp.
      * apply list_elem_of_singleton in Hp. subst p.
        rewrite Hkey. apply elem_of_union_l, elem_of_singleton. reflexivity.
  - apply extractPost_skipped in Hx as ->. split; simpl; assumption.
Qed.

Lemma scanElements_inv C elements st :
  scan_inv st -> scan_inv (scanElements parseDate now C st elements).
Proof.
  unfold scanElements. revert st.
  induction elements as [|el elements IH]; intros st Hst; simpl; [exact Hst|].
  apply IH, scanElement_inv, Hst.
Qed.

(** [forEach] with a body that returns normally and keeps an invariant. *)
Lemma forEach_inv {S A : Type} (P : S -> Prop) (body : S -> A -> Res S) l st :
  (forall st a, P st -> exists st', body st a = Ok st' /\ P st') ->
  P st -> exists st', forEach body l st = Ok st' /\ P st'.
Proof.
  intros Hbody. revert st.
  induction l as [|a l IH]; intros st Hst; simpl.
  - exists st. split; [reflexivity | exact Hst].
  - destruct (Hbody st a Hst) as (st1 & Hrun & Hst1).
    rewrite Hrun. simpl. apply IH, Hst1.
Qed.

Variable doc : Document.

Lemma scanSelector_inv C st selector :
  scan_inv (sl_scan st) ->
  exists st', scanSelector parseDate now doc C st selector = Ok st' /\ scan_inv (sl_scan st').
Proof.
  intros Hst. unfold scanSelector.
  destruct (querySelectorAll doc selector) as [elements|e]; simpl.
  - eexists. split; [reflexivity|]. simpl. apply scanElements_inv, Hst.
  - eexists. split; [reflexivity|]. exact Hst.
Qed.

Lemma scanFeedSelector_inv C st selector :
  scan_inv st ->
  exists st', scanFeedSelector parseDate now doc C st selector = Ok st' /\ scan_inv st'.
Proof.
  intros Hst. unfold scanFeedSelector.
  destruct (querySelectorAll doc selector) as [elements|e]; simpl.
  - eexists. split; [reflexivity|]. apply scanElements_inv, Hst.
  - eexists. split; [reflexivity|]. exact Hst.
Qed.

(** The scan returns normally, with posts of pairwise distinct keys. *)
Lemma findRecentPostsEnhanced_returns C errors :
  exists report,
    findRecentPostsEnhanced parseDate now doc C errors = Ok report /\
    NoDup (map postKey (sr_posts report)).
Proof.
  unfold findRecentPostsEnhanced.
  destruct (forEach_inv (fun st => scan_inv (sl_scan st))
              (scanSelector parseDate now doc C) activitySelectors
              {| sl_scan := {| sc_posts := []; sc_processed := ∅ |};
                 sl_scanned := 0; sl_errors := errors |})
    as (st & Hrun & Hinv).
  { intros st a. apply scanSelector_inv. }
  { split; simpl; [apply NoDup_nil_2 | intros p Hp; inversion Hp]. }
  rewrite Hrun. simpl.
  destruct (includes "/recent-activity/" (href doc)
            || includes "/detail/recent-activity/" (href doc)).
  - destruct (forEach_inv scan_inv (scanFeedSelector parseDate now doc C)
                feedSelectors (sl_scan st)) as (scan & Hfeed & Hscan).
    { intros s a. apply scanFeedSelector_inv. }
    { exact Hinv. }
    unfold findActivityFeedPosts. rewrite Hfeed. simpl.
    eexists. split; [reflexivity|]. apply Hscan.
  - simpl. eexists. split; [reflexivity|]. apply Hinv.
Qed.

(** C5. Once a fragment has yielded a record, a further match with the
    same first-100-character key, from whichever selector, yields none; and
    the records of a whole scan have pairwise distinct de-duplication keys,
    so a fragment contributes at most one of them. *)
Theorem scan_deduplicates C errors st e1 e2 :
  fragmentKey e1 = fragmentKey e2 ->
  is_Some (extractPostFromElement parseDate now e1 C (sc_processed st)).1 ->
  sc_posts (scanElement parseDate now C (scanElement parseDate now C st e1) e2) =
    sc_posts (scanElement parseDate now C st e1) /\
  (length (sc_posts (scanElements parseDate now C st [e1; e2])) = S (length (sc_posts st))) /\
  exists report,
    findRecentPostsEnhanced parseDate now doc C errors = Ok report /\
    NoDup (map postKey (sr_posts report)).
Proof.
  intros Hkey [post Hpost].
  assert (Hfirst : exists processed',
             scanElement parseDate now C st e1 =
               {| sc_posts := sc_posts st ++ [post]; sc_processed := processed' |} /\
             fragmentKey e2 ∈ processed').
  { unfold scanElement.
    destruct (extractPostFromElement parseDate now e1 C (sc_processed st))
      as [o processed'] eqn:Hx. simpl in Hpost. subst o.
    exists processed'. split; [reflexivity|].
    apply extractPost_emitted in Hx as (_ & _ & ->).
    rewrite <- Hkey. apply elem_of_union_l, elem_of_singleton. reflexivity. }
  destruct Hfirst as (processed' & Hst1 & Hin).
  assert (Hsecond : scanElement parseDate now C (scanElement parseDate now C st e1) e2
                    = scanElement parseDate now C st e1).
  { rewrite Hst1. unfold scanElement at 1. simpl.
    rewrite (extractPost_seen e2 C processed' Hin). reflexivity. }
  split; [rewrite Hsecond; reflexivity|]. split.
  - unfold scanElements. simpl. rewrite Hsecond, Hst1. simpl.
    rewrite length_app. simpl. lia.
  - apply findRecentPostsEnhanced_returns.
Qed.
End Scanner.

(** The theorem at [stampedFragment] matched twice in a fresh scan. *)
Lemma scan_deduplicates_witness :
  sc_posts (scanElements fixtureDates clockNow cutoff
              {| sc_posts := []; sc_processed := ∅ |} [stampedFragment; stampedFragment]) =
  [ {| post_text := "Jane posted this 2 hours ago"; post_time := "Text: 2 hours ago";
       post_type := type_text; post_details := None |} ].
Proof.
  pose proof (scan_deduplicates fixtureDates clockNow overlapPage cutoff []
                {| sc_posts := []; sc_processed := ∅ |} stampedFragment stampedFragment
                eq_refl) as H.
  assert (Hsome : is_Some (extractPostFromElement fixtureDates clockNow stampedFragment cutoff
                             (sc_processed {| sc_posts := []; sc_processed := ∅ |})).1).
  { vm_compute. eexists. reflexivity. }
  destruct (H Hsome) as (Hsame & _ & _).
  unfold scanElements. simpl. rewrite Hsame. vm_compute. reflexivity.
Defined.

(** Two selectors of the scan find the same fragment on [overlapPage]; the
    scan returns one record. *)
Example overlapPage_one_record :
  sr_posts <$> (match findRecentPostsEnhanced fixtureDates clockNow overlapPage cutoff [] with
                | Ok report => Some report
                | Throw _ => None
                end) =
  Some [ {| post_text := "Jane posted this 2 hours ago"; post_time := "Text: 2 hours ago";
            post_type := type_text; post_details := None |} ].
Proof. vm_compute. reflexivity. Qed.

(** ** Fallback Estimator *)

Lemma activityPatterns_source :
  map (fun p => source (ap_pattern p)) activityPatterns =
  [ "(\d+)\s*hour?s?\s*ago"; "(\d+)\s*minute?s?\s*ago"; "1\s*day?\s*ago";
    "yesterday"; "(\d+)h\s*(?:ago)?"; "(\d+)m\s*(?:ago)?";
    "(\d+)\s*hrs?\s*ago"; "(\d+)\s*mins?\s*ago";
    "about\s*(\d+)\s*hours?\s*ago"; "about\s*(\d+)\s*minutes?\s*ago" ].
Proof. reflexivity. Qed.

Lemma context_patterns_source :
  map source [contextPattern "posted"; reversePattern "posted"] =
  [ "posted.{0,150}(?:hour|minute|day|yesterday).{0,50}ago";
    "(?:hour|minute|day|yesterday).{0,50}ago.{0,150}posted" ] /\
  map source linkedinPatterns =
  [ "data-view-name=" ++ dq ++ "[^" ++ dq ++ "]*activity[^" ++ dq ++ "]*" ++ dq;
    "data-view-name=" ++ dq ++ "[^" ++ dq ++ "]*feed[^" ++ dq ++ "]*" ++ dq;
    "data-control-name=" ++ dq ++ "[^" ++ dq ++ "]*activity[^" ++ dq ++ "]*" ++ dq;
    "data-control-name=" ++ dq ++ "[^" ++ dq ++ "]*feed[^" ++ dq ++ "]*" ++ dq;
    "class=" ++ dq ++ "[^" ++ dq ++ "]*activity[^" ++ dq ++ "]*" ++ dq;
    "class=" ++ dq ++ "[^" ++ dq ++ "]*recent[^" ++ dq ++ "]*" ++ dq;
    "class=" ++ dq ++ "[^" ++ dq ++ "]*update[^" ++ dq ++ "]*" ++ dq ].
Proof. split; reflexivity. Qed.

(** *** Doubles: powers of two and digits *)

(** The doubles that fit, by cases: zero, infinity, a positive number. *)
Tactic Notation "fits_cases" ident(x) ident(Hx) ident(m) ident(e) :=
  destruct x as [[]|[]| |[] m e]; cbn [Exact.fits] in Hx; try contradiction.

Section Powers.
Import Reals Lra Exact.
Local Open Scope R_scope.

Lemma p2_pos e : 0 < p2 e.
Proof. apply powerRZ_lt. lra. Qed.

Lemma p2_add a b : p2 (a + b) = p2 a * p2 b.
Proof. apply powerRZ_add. lra. Qed.

Lemma p2_0 : p2 0 = 1.
Proof. reflexivity. Qed.

Lemma p2_succ e : p2 (e + 1) = 2 * p2 e.
Proof. rewrite p2_add. unfold p2 at 2. simpl. lra. Qed.

Lemma p2_opp e : p2 (- e) * p2 e = 1.
Proof. rewrite <- p2_add. replace (- e + e)%Z with 0%Z by lia. reflexivity. Qed.

Lemma p2_IZR k : (0 <= k)%Z -> p2 k = IZR (2 ^ k).
Proof.
  intros Hk. destruct k as [|p|p]; [reflexivity| |lia].
  unfold p2. cbn [powerRZ]. rewrite pow_IZR, positive_nat_Z. reflexivity.
Qed.

Lemma p2_ge_1 k : (0 <= k)%Z -> 1 <= p2 k.
Proof.
  intros Hk. rewrite (p2_IZR k Hk). apply IZR_le.
  pose proof (Z.pow_pos_nonneg 2 k ltac:(lia) Hk). lia.
Qed.

Lemma p2_le a b : (a <= b)%Z -> p2 a <= p2 b.
Proof.
  intros Hab. replace b with (a + (b - a))%Z by lia. rewrite p2_add.
  pose proof (p2_pos a). pose proof (p2_ge_1 (b - a) ltac:(lia)). nra.
Qed.

Lemma p2_lt a b : (a < b)%Z -> p2 a < p2 b.
Proof.
  intros Hab. pose proof (p2_le (a + 1) b ltac:(lia)) as H.
  rewrite p2_succ in H. pose proof (p2_pos a). lra.
Qed.

Lemma p2_lt_inv a b : p2 a < p2 b -> (a < b)%Z.
Proof.
  intros H. destruct (Z_lt_le_dec a b) as [Hlt|Hge]; [exact Hlt|].
  pose proof (p2_le b a Hge). lra.
Qed.

(** An integer below an integer and a half is at most that integer. *)
Lemma IZR_lt_half a b : IZR a < IZR b + 1 -> (a <= b)%Z.
Proof.
  intros H. rewrite <- plus_IZR in H. apply lt_IZR in H. lia.
Qed.
End Powers.

Section Digits.

Lemma digits2_pos_bounds p :
  2 ^ (Zpos (digits2_pos p) - 1) <= Zpos p < 2 ^ Zpos (digits2_pos p).
Proof.
  induction p as [p IH|p IH|]; cbn [digits2_pos]; rewrite ?Pos2Z.inj_succ.
  - replace (Z.succ (Z.pos (digits2_pos p)) - 1) with (Z.succ (Z.pos (digits2_pos p) - 1)) by lia.
    rewrite !Z.pow_succ_r by lia. lia.
  - replace (Z.succ (Z.pos (digits2_pos p)) - 1) with (Z.succ (Z.pos (digits2_pos p) - 1)) by lia.
    rewrite !Z.pow_succ_r by lia. lia.
  - cbn. lia.
Qed.

Lemma Zdigits2_bounds m :
  0 < m -> 2 ^ (Zdigits2 m - 1) <= m < 2 ^ Zdigits2 m.
Proof.
  intros Hm. destruct m as [|p|p]; [lia| |lia]. apply digits2_pos_bounds.
Qed.

Lemma Zdigits2_pos m : 0 < m -> 0 < Zdigits2 m.
Proof. intros Hm. destruct m; cbn; lia. Qed.

Lemma Zdigits2_unique m d :
  2 ^ (d - 1) <= m < 2 ^ d -> 0 < m -> Zdigits2 m = d.
Proof.
  intros [Hlo Hhi] Hm. pose proof (Zdigits2_bounds m Hm) as [Hlo' Hhi'].
  pose proof (Zdigits2_pos m Hm) as Hd.
  assert (0 < d).
  { destruct (Z_lt_le_dec 0 d) as [H|H]; [exact H|].
    assert (2 ^ d <= 1).
    { destruct (Z.eq_dec d 0) as [->|Hne]; [cbn; lia|].
      rewrite Z.pow_neg_r by lia. lia. }
    lia. }
  assert (Zdigits2 m - 1 < d).
  { apply (Z.pow_lt_mono_r_iff 2); lia. }
  assert (d - 1 < Zdigits2 m).
  { apply (Z.pow_lt_mono_r_iff 2); lia. }
  lia.
Qed.

Lemma Zdigits2_le m d : 0 < m -> m < 2 ^ d -> Zdigits2 m <= d.
Proof.
  intros Hm Hhi. pose proof (Zdigits2_bounds m Hm) as [Hlo _].
  pose proof (Zdigits2_pos m Hm).
  destruct (Z_lt_le_dec d 0) as [Hneg|Hd].
  { rewrite Z.pow_neg_r in Hhi by lia. lia. }
  assert (Zdigits2 m - 1 < d); [|lia].
  apply (Z.pow_lt_mono_r_iff 2); lia.
Qed.

Lemma Zdigits2_shift m k : 0 < m -> 0 <= k -> Zdigits2 (m * 2 ^ k) = Zdigits2 m + k.
Proof.
  intros Hm Hk. pose proof (Zdigits2_bounds m Hm) as [Hlo Hhi].
  pose proof (Zdigits2_pos m Hm).
  pose proof (Z.pow_pos_nonneg 2 k ltac:(lia) Hk) as Hpow.
  apply Zdigits2_unique; [|nia].
  replace (Zdigits2 m + k - 1) with ((Zdigits2 m - 1) + k) by lia.
  rewrite !Z.pow_add_r by lia. nia.
Qed.
End Digits.

Section Shifts.
Import Reals Lra Exact.
Local Open Scope R_scope.

Lemma shr_1_nonneg mrs :
  (0 <= shr_m mrs)%Z ->
  shr_1 mrs =
  {| shr_m := Z.div2 (shr_m mrs); shr_r := Z.odd (shr_m mrs);
     shr_s := shr_r mrs || shr_s mrs |}.
Proof.
  destruct mrs as [m r s]. cbn [shr_m shr_r shr_s]. intros Hm.
  destruct m as [|[p|p|]|p]; try lia; reflexivity.
Qed.

Lemma locatedS_shr_1 x mrs : locatedS x mrs -> locatedS (x / 2) (shr_1 mrs).
Proof.
  intros [Hm Hloc]. rewrite (shr_1_nonneg mrs Hm).
  destruct mrs as [m r s]. cbn [shr_m shr_r shr_s] in *.
  pose proof (Zdiv2_odd_eqn m) as E.
  assert (ER : IZR m = 2 * IZR (Z.div2 m) + (if Z.odd m then 1 else 0)).
  { rewrite E at 1. rewrite plus_IZR, mult_IZR. destruct (Z.odd m); reflexivity. }
  split.
  - cbn [shr_m]. destruct (Z.odd m); lia.
  - unfold located, loc_of_shr_record in *. cbn [shr_m].
    destruct (Z.odd m), r, s; cbn [orb] in *; lra.
Qed.

Lemma shr_1_m mrs : (0 <= shr_m mrs)%Z -> shr_m (shr_1 mrs) = (shr_m mrs / 2)%Z.
Proof. intros Hm. rewrite (shr_1_nonneg mrs Hm). cbn [shr_m]. apply Z.div2_div. Qed.

Lemma locatedS_iter p : forall x mrs,
  locatedS x mrs ->
  locatedS (x * p2 (- Zpos p)) (SpecFloat.iter_pos shr_1 p mrs) /\
  shr_m (SpecFloat.iter_pos shr_1 p mrs) = (shr_m mrs / 2 ^ Zpos p)%Z.
Proof.
  assert (Hone : forall x mrs, locatedS x mrs ->
            locatedS (x * p2 (- 1)) (shr_1 mrs) /\ shr_m (shr_1 mrs) = (shr_m mrs / 2 ^ 1)%Z).
  { intros x mrs H. split.
    - replace (x * p2 (- 1)) with (x / 2) by (unfold p2; simpl; lra).
      apply locatedS_shr_1, H.
    - apply shr_1_m, H. }
  assert (Htwice : forall q : positive, p2 (- Zpos q) * p2 (- Zpos q) = p2 (- Zpos q~0)).
  { intros q. rewrite <- p2_add. f_equal. lia. }
  assert (Hdiv : forall (m : Z) (q : positive),
            (m / 2 ^ Zpos q / 2 ^ Zpos q = m / 2 ^ Zpos q~0)%Z).
  { intros m q. rewrite Z.div_div by lia.
    rewrite <- Z.pow_add_r by lia. f_equal; f_equal; lia. }
  induction p as [p IH|p IH|]; intros x mrs H; cbn [SpecFloat.iter_pos].
  - destruct (Hone x mrs H) as [H1 E1].
    destruct (IH _ _ H1) as [H2 E2]. destruct (IH _ _ H2) as [H3 E3].
    split.
    + replace (x * p2 (- Z.pos p~1)) with (x * p2 (- 1) * p2 (- Z.pos p) * p2 (- Z.pos p)); [exact H3|].
      rewrite !Rmult_assoc, Htwice, <- p2_add. do 2 f_equal; lia.
    + rewrite E3, E2, E1, Hdiv. rewrite Z.div_div by lia.
      rewrite <- Z.pow_add_r by lia. f_equal; f_equal; lia.
  - destruct (IH _ _ H) as [H2 E2]. destruct (IH _ _ H2) as [H3 E3].
    split.
    + replace (x * p2 (- Z.pos p~0)) with (x * p2 (- Z.pos p) * p2 (- Z.pos p)); [exact H3|].
      rewrite !Rmult_assoc, Htwice. reflexivity.
    + rewrite E3, E2, Hdiv. reflexivity.
  - apply Hone, H.
Qed.

Lemma loc_of_shr_record_of_loc m l :
  loc_of_shr_record (shr_record_of_loc m l) = l /\ shr_m (shr_record_of_loc m l) = m.
Proof. destruct l as [|[]]; split; reflexivity. Qed.

Section Fexp.
Variables prec emax : Z.

(** A shift to the exponent of the format keeps the location of the
    value. *)
Lemma shr_fexp_spec m e l v :
  (0 <= m)%Z ->
  located (v * p2 (- e)) m l ->
  let e' := Z.max e (fexp prec emax (Zdigits2 m + e)) in
  exists mrs,
    shr_fexp prec emax m e l = (mrs, e') /\
    locatedS (v * p2 (- e')) mrs /\
    shr_m mrs = (m / 2 ^ (e' - e))%Z.
Proof.
  intros Hm Hloc e'. unfold shr_fexp, shr.
  destruct (loc_of_shr_record_of_loc m l) as [El Em].
  assert (H0 : locatedS (v * p2 (- e)) (shr_record_of_loc m l)).
  { split; rewrite ?Em, ?El; assumption. }
  destruct (fexp prec emax (Zdigits2 m + e) - e)%Z as [|p|p] eqn:En.
  - exists (shr_record_of_loc m l).
    assert (e' = e) by (unfold e'; lia). rewrite H.
    split; [reflexivity|]. split; [exact H0|].
    rewrite Em, Z.sub_diag. cbn. rewrite Z.div_1_r. reflexivity.
  - exists (SpecFloat.iter_pos shr_1 p (shr_record_of_loc m l)).
    assert (e' = (e + Zpos p)%Z) by (unfold e'; lia). rewrite H.
    destruct (locatedS_iter p _ _ H0) as [H1 E1].
    split; [reflexivity|]. split.
    + replace (v * p2 (- (e + Z.pos p))) with (v * p2 (- e) * p2 (- Z.pos p)); [exact H1|].
      rewrite Rmult_assoc, <- p2_add. do 2 f_equal; lia.
    + rewrite E1, Em. f_equal; f_equal; lia.
  - exists (shr_record_of_loc m l).
    assert (e' = e) by (unfold e'; lia). rewrite H.
    split; [reflexivity|]. split; [exact H0|].
    rewrite Em, Z.sub_diag. cbn. rewrite Z.div_1_r. reflexivity.
Qed.

Lemma round_nearest_even_nearest x m l :
  (0 <= m)%Z -> located x m l ->
  nearest x (round_nearest_even m l) /\ (m <= round_nearest_even m l <= m + 1)%Z.
Proof.
  intros Hm Hloc. unfold nearest, round_nearest_even.
  destruct l as [|[]]; cbn [located] in Hloc.
  - split; [|lia]. split; [lra|]. intros [H|H]; lra.
  - destruct (Z.even m) eqn:Heven.
    + split; [|lia]. split; [lra|]. intros _. exact Heven.
    + split; [|lia]. rewrite plus_IZR. split; [lra|]. intros _.
      rewrite Z.even_add, Heven. reflexivity.
  - split; [|lia]. split; [lra|]. intros [H|H]; lra.
  - split; [|lia]. rewrite plus_IZR. split; [lra|]. intros [H|H]; lra.
Qed.
End Fexp.
End Shifts.

Section Rounding.
Import Reals Lra Exact.
Local Open Scope R_scope.
Variables prec emax : Z.
Hypothesis Hprec : (0 < prec)%Z.
Hypothesis Hemax : (prec < emax)%Z.

Lemma located_exists m l : exists x, located x m l.
Proof.
  destruct l as [|[]]; cbn [located].
  - exists (IZR m). reflexivity.
  - exists (IZR m + / 2). reflexivity.
  - exists (IZR m + / 4). lra.
  - exists (IZR m + 3 / 4). lra.
Qed.

Lemma scaled_back x e : x * p2 e * p2 (- e) = x.
Proof. rewrite Rmult_assoc, (Rmult_comm (p2 e)), p2_opp. lra. Qed.

(** The last step of a rounding: the mantissa is brought to the exponent of
    the format, and what comes out fits the format. *)
Lemma final_shift_fits m2 e1 :
  (0 <= m2)%Z ->
  exists mrs e3,
    shr_fexp prec emax m2 e1 loc_Exact = (mrs, e3) /\
    (0 <= shr_m mrs)%Z /\
    (emin prec emax <= e3)%Z /\
    (0 < shr_m mrs -> Zdigits2 (shr_m mrs) <= prec)%Z.
Proof.
  intros Hm2.
  destruct (shr_fexp_spec prec emax m2 e1 loc_Exact (IZR m2 * p2 e1) Hm2) as (mrs & E & [Hm3 _] & Em3).
  { cbn [located]. apply scaled_back. }
  exists mrs, (Z.max e1 (fexp prec emax (Zdigits2 m2 + e1))).
  split; [exact E|]. split; [exact Hm3|]. split; [unfold fexp; lia|].
  intros Hpos. rewrite Em3 in *.
  set (k := (Z.max e1 (fexp prec emax (Zdigits2 m2 + e1)) - e1)%Z) in *.
  assert (Hk : (0 <= k)%Z) by (unfold k; lia).
  assert (Hm2pos : (0 < m2)%Z).
  { destruct (Z.eq_dec m2 0%Z) as [->|Hne]; [|lia]. rewrite Z.div_0_l in Hpos; lia. }
  pose proof (Zdigits2_bounds m2 Hm2pos) as [_ Hhi].
  pose proof (Zdigits2_pos m2 Hm2pos) as Hd.
  apply Zdigits2_le; [exact Hpos|].
  apply Z.div_lt_upper_bound; [apply Z.pow_pos_nonneg; lia|].
  rewrite <- Z.pow_add_r by lia.
  apply Z.lt_le_trans with (1 := Hhi).
  apply Z.pow_le_mono_r; [lia|]. unfold k, fexp. lia.
Qed.

Lemma binary_round_aux_fits mx ex lx :
  (0 <= mx)%Z -> fits prec emax (binary_round_aux prec emax false mx ex lx).
Proof.
  intros Hmx. unfold binary_round_aux.
  destruct (located_exists mx lx) as [x Hx].
  destruct (shr_fexp_spec prec emax mx ex lx (x * p2 ex) Hmx) as (mrs1 & E1 & [Hm1 Hl1] & _).
  { rewrite scaled_back. exact Hx. }
  rewrite E1.
  destruct (round_nearest_even_nearest _ _ _ Hm1 Hl1) as [_ Hm2].
  destruct (final_shift_fits (round_nearest_even (shr_m mrs1) (loc_of_shr_record mrs1))
              (Z.max ex (fexp prec emax (Zdigits2 mx + ex))) ltac:(lia))
    as (mrs3 & e3 & E3 & Hm3 & He3 & Hd3).
  rewrite E3.
  destruct (shr_m mrs3) as [|m3|m3] eqn:Em3; [exact I| |lia].
  destruct (e3 <=? emax - prec)%Z; [|exact I].
  cbn [fits]. split; [apply Hd3; lia | exact He3].
Qed.

(** The rounding of the library rounds: a mantissa that is not negative,
    with the place of the real [v] after it, at an exponent that the shift
    brings to the one of the format around [v]. *)
Lemma binary_round_aux_rounds mx ex lx v :
  (0 <= mx)%Z ->
  located (v * p2 (- ex)) mx lx ->
  canonical prec emax v (Z.max ex (fexp prec emax (Zdigits2 mx + ex))) ->
  rounds prec emax v (binary_round_aux prec emax false mx ex lx).
Proof.
  intros Hmx Hloc Hcanon. unfold binary_round_aux.
  destruct (shr_fexp_spec prec emax mx ex lx v Hmx Hloc) as (mrs1 & E1 & [Hm1 Hl1] & _).
  rewrite E1.
  set (e1 := Z.max ex (fexp prec emax (Zdigits2 mx + ex))) in *.
  destruct (round_nearest_even_nearest _ _ _ Hm1 Hl1) as [Hnear Hm2].
  set (m2 := round_nearest_even (shr_m mrs1) (loc_of_shr_record mrs1)) in *.
  assert (Hm2nn : (0 <= m2)%Z) by lia.
  clearbody m2 e1.
  destruct Hcanon as (Hemin & Hupper & Hlower).
  pose proof (p2_pos (- e1)) as Hpos1. pose proof (p2_pos e1) as Hpos1'.
  pose proof (p2_opp e1) as Hinv.
  set (x1 := v * p2 (- e1)) in *.
  assert (Hx1 : x1 < p2 prec).
  { unfold x1. rewrite p2_add in Hupper.
    assert (v * p2 (- e1) < p2 e1 * p2 prec * p2 (- e1)) by nra.
    replace (p2 e1 * p2 prec * p2 (- e1)) with (p2 prec * (p2 (- e1) * p2 e1)) in H by ring.
    rewrite Hinv in H. lra. }
  assert (Hm2le : (m2 <= 2 ^ prec)%Z).
  { apply IZR_lt_half. rewrite <- p2_IZR by lia. destruct Hnear as [[Hn1 Hn2] _]. lra. }
  assert (Hvw : forall m e, (m = m2 * 2 ^ (e1 - e) )%Z -> (e <= e1)%Z ->
            IZR m2 * p2 e1 = IZR m * p2 e).
  { intros m e -> He. rewrite mult_IZR, <- p2_IZR by lia.
    rewrite Rmult_assoc, <- p2_add. do 2 f_equal; lia. }
  exists m2, e1. split; [split; [split; [exact Hemin | split; [exact Hupper | exact Hlower]] | exact Hnear]|].
  destruct (shr_fexp_spec prec emax m2 e1 loc_Exact (IZR m2 * p2 e1) Hm2nn) as (mrs3 & E3 & [Hm3 _] & Em3).
  { cbn [located]. apply scaled_back. }
  rewrite E3.
  assert (Hge : (emin prec emax < e1)%Z -> (2 ^ (prec - 1) <= m2)%Z).
  { intros He. specialize (Hlower He).
    assert (Hx1' : p2 (prec - 1) <= x1).
    { unfold x1. replace (e1 + prec - 1)%Z with (e1 + (prec - 1))%Z in Hlower by lia.
      rewrite p2_add in Hlower.
      assert (p2 e1 * p2 (prec - 1) * p2 (- e1) <= v * p2 (- e1)) by nra.
      replace (p2 e1 * p2 (prec - 1) * p2 (- e1)) with (p2 (prec - 1) * (p2 (- e1) * p2 e1)) in H by ring.
      rewrite Hinv in H. lra. }
    rewrite p2_IZR in Hx1' by lia.
    destruct Hnear as [[Hn1 Hn2] _].
    assert (IZR (2 ^ (prec - 1)) < IZR m2 + 1) by lra.
    apply IZR_lt_half in H. exact H. }
  destruct (Z.eq_dec m2 0%Z) as [Hzero|Hnonzero].
  - (* rounded to zero *)
    rewrite Em3. subst m2. rewrite Z.div_0_l by (apply Z.pow_nonzero; lia).
    cbn [denotes]. lra.
  - destruct (Z.eq_dec m2 (2 ^ prec)%Z) as [Hcarry|Hnocarry].
    + (* the mantissa was rounded up to a power of two *)
      assert (Hd2 : Zdigits2 m2 = (prec + 1)%Z).
      { apply Zdigits2_unique; [|lia]. rewrite Hcarry.
        replace (prec + 1 - 1)%Z with prec by lia.
        split; [lia|]. apply Z.pow_lt_mono_r; lia. }
      assert (He3 : Z.max e1 (fexp prec emax (Zdigits2 m2 + e1)) = (e1 + 1)%Z).
      { rewrite Hd2. unfold fexp. lia. }
      rewrite He3 in *.
      replace (e1 + 1 - e1)%Z with 1%Z in Em3 by lia.
      assert (Hm3v : shr_m mrs3 = (2 ^ (prec - 1))%Z).
      { rewrite Em3, Hcarry. replace prec with ((prec - 1) + 1)%Z at 1 by lia.
        rewrite Z.pow_add_r by lia. apply Z.div_mul. discriminate. }
      rewrite Hm3v.
      pose proof (Z.pow_pos_nonneg 2 (prec - 1) ltac:(lia) ltac:(lia)) as Hpow.
      destruct (2 ^ (prec - 1))%Z as [|m3|m3] eqn:Epow; [lia| |lia].
      assert (Hw : IZR m2 * p2 e1 = p2 (prec + e1)).
      { rewrite Hcarry, <- p2_IZR by lia. rewrite p2_add. reflexivity. }
      destruct (Z.leb_spec (e1 + 1) (emax - prec)) as [Hfin|Hinf].
      * cbn [denotes]. split.
        -- rewrite <- Epow, Hw, <- p2_IZR by lia. rewrite <- p2_add. f_equal. lia.
        -- rewrite Hw. apply p2_lt. lia.
      * cbn [denotes]. rewrite Hw. apply p2_le. lia.
    + (* the mantissa is within the precision *)
      assert (Hm2lt : (0 < m2 < 2 ^ prec)%Z) by lia.
      assert (Hd2 : (Zdigits2 m2 <= prec)%Z) by (apply Zdigits2_le; lia).
      assert (He3 : Z.max e1 (fexp prec emax (Zdigits2 m2 + e1)) = e1).
      { unfold fexp. lia. }
      rewrite He3 in *.
      rewrite Z.sub_diag in Em3. cbn in Em3. rewrite Z.div_1_r in Em3.
      rewrite Em3.
      destruct m2 as [|m3|m3] eqn:Em2; [lia| |lia].
      destruct (Z.leb_spec e1 (emax - prec)) as [Hfin|Hinf].
      * cbn [denotes]. split; [reflexivity|].
        apply Rlt_le_trans with (p2 prec * p2 e1).
        -- apply Rmult_lt_compat_r; [exact Hpos1'|].
           rewrite p2_IZR by lia. apply IZR_lt. lia.
        -- rewrite <- p2_add. apply p2_le. lia.
      * cbn [denotes].
        assert (Hnormal : (emin prec emax < e1)%Z) by (unfold emin; lia).
        specialize (Hge Hnormal).
        apply Rle_trans with (p2 (prec - 1) * p2 e1).
        -- rewrite <- p2_add. apply p2_le. lia.
        -- apply Rmult_le_compat_r; [lra|].
           rewrite p2_IZR by lia. apply IZR_le. exact Hge.
Qed.
End Rounding.

Section Operations.
Import Reals Lra Exact.
Local Open Scope R_scope.
Variables prec emax : Z.
Hypothesis Hprec : (0 < prec)%Z.
Hypothesis Hemax : (prec < emax)%Z.

Lemma located_between x m l : located x m l -> IZR m <= x < IZR m + 1.
Proof. destruct l as [|[]]; cbn [located]; lra. Qed.

Lemma scaled_forth v e : v * p2 (- e) * p2 e = v.
Proof. rewrite Rmult_assoc, p2_opp. lra. Qed.

(** A mantissa with enough digits for the format is at the exponent of the
    format after the shift. *)
Lemma canonical_of_digits mx ex lx v :
  (0 < mx)%Z ->
  located (v * p2 (- ex)) mx lx ->
  (ex <= fexp prec emax (Zdigits2 mx + ex))%Z ->
  canonical prec emax v (Z.max ex (fexp prec emax (Zdigits2 mx + ex))).
Proof.
  intros Hmx Hloc Hex.
  replace (Z.max ex (fexp prec emax (Zdigits2 mx + ex))) with (fexp prec emax (Zdigits2 mx + ex))
    by lia.
  pose proof (Zdigits2_bounds mx Hmx) as [Hlo Hhi].
  pose proof (Zdigits2_pos mx Hmx) as Hd.
  apply located_between in Hloc.
  pose proof (p2_pos ex) as Hpos.
  pose proof (scaled_forth v ex) as Hv.
  set (x := v * p2 (- ex)) in *.
  assert (Hxlo : p2 (Zdigits2 mx - 1) <= x).
  { rewrite p2_IZR by lia. apply Rle_trans with (IZR mx); [apply IZR_le; exact Hlo | lra]. }
  assert (Hxhi : x < p2 (Zdigits2 mx)).
  { rewrite p2_IZR by lia. apply Rlt_le_trans with (IZR mx + 1); [lra|].
    rewrite <- plus_IZR. apply IZR_le. lia. }
  assert (Hvlo : p2 (Zdigits2 mx - 1 + ex) <= v).
  { rewrite p2_add, <- Hv. apply Rmult_le_compat_r; lra. }
  assert (Hvhi : v < p2 (Zdigits2 mx + ex)).
  { rewrite p2_add, <- Hv. apply Rmult_lt_compat_r; lra. }
  unfold canonical. split; [unfold fexp; lia|]. split.
  - apply Rlt_le_trans with (1 := Hvhi). apply p2_le. unfold fexp. lia.
  - intros Hnormal. apply Rle_trans with (2 := Hvlo). apply p2_le. unfold fexp in *. lia.
Qed.

Lemma iter_xO m d : Zpos (Pos.iter xO m d) = (Zpos m * 2 ^ Zpos d)%Z.
Proof.
  apply (Pos.iter_ind _ xO m (fun p a => Zpos a = (Zpos m * 2 ^ Zpos p)%Z)).
  - cbn. lia.
  - intros p a IH. rewrite Pos2Z.inj_xO, IH, Pos2Z.inj_succ, Z.pow_succ_r by lia. lia.
Qed.

Lemma shl_align_fst m e e' :
  (e' <= e)%Z -> Zpos (shl_align m e e').1 = (Zpos m * 2 ^ (e - e'))%Z.
Proof.
  intros He. unfold shl_align.
  destruct (e' - e)%Z as [|d|d] eqn:Ed; cbn [fst].
  - replace (e - e')%Z with 0%Z by lia. cbn. lia.
  - lia.
  - rewrite iter_xO. f_equal. f_equal. lia.
Qed.

(** An integer times a power of two, rounded. *)
Lemma binary_round_rounds m e :
  rounds prec emax (IZR (Zpos m) * p2 e) (binary_round prec emax false m e).
Proof.
  unfold binary_round. change (Z.pos (digits2_pos m)) with (Zdigits2 (Zpos m)).
  set (ef := fexp prec emax (Zdigits2 (Zpos m) + e)).
  unfold shl_align. destruct (ef - e)%Z as [|d|d] eqn:Ed.
  - apply binary_round_aux_rounds; try assumption; [lia | cbn [located]; apply scaled_back |].
    apply (canonical_of_digits _ _ loc_Exact); [lia | cbn [located]; apply scaled_back |].
    fold ef. lia.
  - apply binary_round_aux_rounds; try assumption; [lia | cbn [located]; apply scaled_back |].
    apply (canonical_of_digits _ _ loc_Exact); [lia | cbn [located]; apply scaled_back |].
    fold ef. lia.
  - assert (Hshift : Zpos (Pos.iter xO m d) = (Zpos m * 2 ^ (e - ef))%Z).
    { rewrite iter_xO. f_equal. f_equal. lia. }
    assert (Hloc : located (IZR (Z.pos m) * p2 e * p2 (- ef)) (Z.pos (Pos.iter xO m d)) loc_Exact).
    { cbn [located]. rewrite Hshift, mult_IZR, <- p2_IZR by lia.
      rewrite Rmult_assoc, <- p2_add. do 2 f_equal; lia. }
    apply binary_round_aux_rounds; try assumption; [lia|].
    apply (canonical_of_digits _ _ loc_Exact); [lia | exact Hloc |].
    rewrite Hshift, Zdigits2_shift by lia.
    replace (Zdigits2 (Z.pos m) + (e - ef) + ef)%Z with (Zdigits2 (Z.pos m) + e)%Z by lia.
    fold ef. lia.
Qed.

Lemma binary_round_fits m e : fits prec emax (binary_round prec emax false m e).
Proof.
  unfold binary_round.
  destruct (shl_align m e (fexp prec emax (Z.pos (digits2_pos m) + e))) as [mz ez].
  apply binary_round_aux_fits; [assumption | lia].
Qed.

(** The sum of two positive doubles is the sum of their values, rounded. *)
Lemma SFadd_rounds mx ex my ey :
  rounds prec emax
    (value (S754_finite false mx ex) + value (S754_finite false my ey))
    (SFadd prec emax (S754_finite false mx ex) (S754_finite false my ey)).
Proof.
  unfold SFadd. cbn [cond_Zopp value]. cbv zeta.
  set (ez := Z.min ex ey).
  pose proof (shl_align_fst mx ex ez ltac:(lia)) as Hx.
  pose proof (shl_align_fst my ey ez ltac:(lia)) as Hy.
  set (mx' := (shl_align mx ex ez).1) in *. set (my' := (shl_align my ey ez).1) in *.
  change (Z.pos mx' + Z.pos my')%Z with (Z.pos (mx' + my')).
  cbn [binary_normalize].
  replace (IZR (Z.pos mx) * p2 ex + IZR (Z.pos my) * p2 ey)
    with (IZR (Z.pos (mx' + my')) * p2 ez); [apply binary_round_rounds|].
  rewrite Pos2Z.inj_add, plus_IZR, Hx, Hy, !mult_IZR, <- !p2_IZR by lia.
  rewrite Rmult_plus_distr_r, !Rmult_assoc, <- !p2_add.
  f_equal; do 2 f_equal; lia.
Qed.

Lemma SFadd_fits x y :
  fits prec emax x -> fits prec emax y -> fits prec emax (SFadd prec emax x y).
Proof.
  intros Hx Hy.
  destruct x as [[]|[]| |[] mx ex]; try destruct Hx;
    destruct y as [[]|[]| |[] my ey]; try destruct Hy; try exact I; try (split; assumption).
  unfold SFadd. cbn [cond_Zopp]. cbv zeta.
  change (Z.pos (shl_align mx ex (Z.min ex ey)).1 + Z.pos (shl_align my ey (Z.min ex ey)).1)%Z
    with (Z.pos ((shl_align mx ex (Z.min ex ey)).1 + (shl_align my ey (Z.min ex ey)).1)).
  cbn [binary_normalize]. apply binary_round_fits.
Qed.
End Operations.

Section Division.
Import Reals Lra Exact.
Local Open Scope R_scope.
Variables prec emax : Z.
Hypothesis Hprec : (0 < prec)%Z.
Hypothesis Hemax : (prec < emax)%Z.

(** The place of a quotient after its integer part. *)
Lemma new_location_located d r q :
  (0 < d)%Z -> (0 <= r < d)%Z ->
  located (IZR q + IZR r / IZR d) q (new_location d r).
Proof.
  intros Hd Hr.
  assert (HdR : 0 < IZR d) by (apply IZR_lt; lia).
  assert (HrR : 0 <= IZR r < IZR d) by (split; [apply IZR_le | apply IZR_lt]; lia).
  set (t := IZR r / IZR d).
  assert (Ht : t * IZR d = IZR r) by (unfold t; field; lra).
  assert (Hhalf : forall c, (2 * r ?= d)%Z = c ->
            match c with
            | Lt => 2 * t < 1
            | Eq => 2 * t = 1
            | Gt => 1 < 2 * t
            end).
  { intros c Hc. destruct c.
    - apply Z.compare_eq in Hc. apply (f_equal IZR) in Hc. rewrite mult_IZR in Hc. nra.
    - rewrite Z.compare_lt_iff in Hc. apply IZR_lt in Hc. rewrite mult_IZR in Hc. nra.
    - rewrite Z.compare_gt_iff in Hc. apply IZR_lt in Hc. rewrite mult_IZR in Hc. nra. }
  assert (Htlt : t < 1) by nra.
  assert (Hzero : r = 0%Z -> t = 0).
  { intros ->. unfold t. field. lra. }
  assert (Htpos : r <> 0%Z -> 0 < t).
  { intros Hne. assert (0 < IZR r) by (apply IZR_lt; lia). nra. }
  unfold new_location. change IntDef.Z.even with Z.even.
  destruct (Z.even d) eqn:Heven; unfold new_location_even, new_location_odd;
    change IntDef.Z.eqb with Z.eqb; change IntDef.Z.compare with Z.compare;
    change IntDef.Z.mul with Z.mul; change IntDef.Z.add with Z.add;
    destruct (Z.eqb_spec r 0%Z) as [Hr0|Hr0]; cbn [located];
    try (specialize (Hzero Hr0); lra); specialize (Htpos Hr0).
  - specialize (Hhalf _ eq_refl).
    destruct (2 * r ?= d)%Z; cbn [located]; lra.
  - assert (Hodd : (2 * r <> d)%Z).
    { intros E. rewrite <- E, Z.even_mul in Heven. discriminate Heven. }
    destruct (2 * r + 1 ?= d)%Z eqn:Hc; cbn [located].
    + apply Z.compare_eq in Hc.
      assert (Hlt : (2 * r < d)%Z) by lia. apply IZR_lt in Hlt. rewrite mult_IZR in Hlt. nra.
    + rewrite Z.compare_lt_iff in Hc.
      assert (Hlt : (2 * r < d)%Z) by lia. apply IZR_lt in Hlt. rewrite mult_IZR in Hlt. nra.
    + rewrite Z.compare_gt_iff in Hc.
      assert (Hgt : (d < 2 * r)%Z) by lia. apply IZR_lt in Hgt. rewrite mult_IZR in Hgt. nra.
Qed.

Lemma fexp_mono a b : (a <= b)%Z -> (fexp prec emax a <= fexp prec emax b)%Z.
Proof. unfold fexp. lia. Qed.

(** The quotient of two positive doubles is the quotient of their values,
    rounded. *)
Lemma SFdiv_rounds mx ex my ey :
  rounds prec emax
    (value (S754_finite false mx ex) / value (S754_finite false my ey))
    (SFdiv prec emax (S754_finite false mx ex) (S754_finite false my ey)).
Proof.
  unfold SFdiv, SFdiv_core_binary. cbn [xorb value]. cbv zeta.
  set (d1 := Zdigits2 (Z.pos mx)). set (d2 := Zdigits2 (Z.pos my)).
  set (D := (d1 + ex - (d2 + ey))%Z).
  set (e' := Z.min (fexp prec emax D) (ex - ey)).
  set (s := (ex - ey - e')%Z).
  assert (Hs : (0 <= s)%Z) by (unfold s, e'; lia).
  assert (Hm' : match s with
                | Z.pos _ => Z.shiftl (Z.pos mx) s
                | 0%Z => Z.pos mx
                | Z.neg _ => 0%Z
                end = (Z.pos mx * 2 ^ s)%Z).
  { destruct s as [|p|p] eqn:Es; [cbn; lia | apply Z.shiftl_mul_pow2; lia | lia]. }
  rewrite Hm'. clear Hm'.
  set (m' := (Z.pos mx * 2 ^ s)%Z).
  pose proof (Z_div_mod m' (Z.pos my) ltac:(lia)) as Hdiv.
  destruct (Z.div_eucl m' (Z.pos my)) as [q r]. destruct Hdiv as [Hm' Hr].
  set (v := IZR (Z.pos mx) * p2 ex / (IZR (Z.pos my) * p2 ey)).
  pose proof (p2_pos ex) as Pex. pose proof (p2_pos ey) as Pey.
  pose proof (p2_pos e') as Pe'. pose proof (p2_pos (- e')) as Pne'.
  assert (Pmx : 0 < IZR (Z.pos mx)) by (apply IZR_lt; lia).
  assert (Pmy : 0 < IZR (Z.pos my)) by (apply IZR_lt; lia).
  assert (Hx : v * p2 (- e') = IZR q + IZR r / IZR (Z.pos my)).
  { assert (E : IZR m' = IZR (Z.pos my) * IZR q + IZR r).
    { rewrite Hm', plus_IZR, mult_IZR. reflexivity. }
    unfold m' in E. rewrite mult_IZR, <- p2_IZR in E by lia.
    assert (Es : p2 s = p2 ex * p2 (- ey) * p2 (- e')).
    { rewrite <- !p2_add. f_equal; unfold s; lia. }
    pose proof (p2_opp ey) as Iey.
    apply Rmult_eq_reg_r with (IZR (Z.pos my) * p2 ey); [|nra].
    transitivity (IZR (Z.pos mx) * p2 ex * p2 (- e')).
    - unfold v. field. lra.
    - replace ((IZR q + IZR r / IZR (Z.pos my)) * (IZR (Z.pos my) * p2 ey))
        with ((IZR (Z.pos my) * IZR q + IZR r) * p2 ey) by (field; lra).
      rewrite <- E, Es.
      replace (IZR (Z.pos mx) * (p2 ex * p2 (- ey) * p2 (- e')) * p2 ey)
        with (IZR (Z.pos mx) * p2 ex * p2 (- e') * (p2 (- ey) * p2 ey)) by ring.
      rewrite Iey. ring. }
  assert (Hloc : located (v * p2 (- e')) q (new_location (Z.pos my) r)).
  { rewrite Hx. apply new_location_located; lia. }
  assert (Hq : (0 <= q)%Z).
  { assert (0 <= m')%Z by (unfold m'; apply Z.mul_nonneg_nonneg; [lia|apply Z.pow_nonneg; lia]).
    nia. }
  apply binary_round_aux_rounds; try assumption.
  (* the value is above the power of two that the digits promise *)
  assert (Hvlo : p2 (D - 1) < v).
  { pose proof (Zdigits2_bounds (Z.pos mx) ltac:(lia)) as [Hlo1 _].
    pose proof (Zdigits2_bounds (Z.pos my) ltac:(lia)) as [_ Hhi2].
    pose proof (Zdigits2_pos (Z.pos mx) ltac:(lia)). pose proof (Zdigits2_pos (Z.pos my) ltac:(lia)).
    fold d1 in Hlo1. fold d2 in Hhi2.
    apply IZR_le in Hlo1. apply IZR_lt in Hhi2.
    rewrite <- p2_IZR in Hlo1, Hhi2 by (fold d1 d2; lia).
    unfold v. apply Rmult_lt_reg_r with (IZR (Z.pos my) * p2 ey); [nra|].
    replace (IZR (Z.pos mx) * p2 ex / (IZR (Z.pos my) * p2 ey) * (IZR (Z.pos my) * p2 ey))
      with (IZR (Z.pos mx) * p2 ex) by (field; lra).
    apply Rlt_le_trans with (p2 (D - 1) * (p2 d2 * p2 ey)).
    - apply Rmult_lt_compat_l; [apply p2_pos|]. apply Rmult_lt_compat_r; lra.
    - rewrite <- !p2_add. replace (D - 1 + (d2 + ey))%Z with ((d1 - 1) + ex)%Z by (unfold D; lia).
      rewrite p2_add. apply Rmult_le_compat_r; lra. }
  pose proof (scaled_forth v e') as Hv.
  apply located_between in Hloc as Hbetween.
  destruct (Z.eq_dec q 0%Z) as [Hzero|Hnonzero].
  - (* the quotient is below the last place *)
    subst q. cbn [Zdigits2].
    assert (Hvhi : v < p2 e').
    { rewrite <- Hv at 1. rewrite <- (Rmult_1_l (p2 e')) at 2.
      apply Rmult_lt_compat_r; lra. }
    assert (HD : (D - 1 < e')%Z) by (apply p2_lt_inv; lra).
    assert (He' : (e' <= emin prec emax)%Z) by (unfold e', fexp in *; lia).
    replace (Z.max e' (fexp prec emax (0 + e'))) with (emin prec emax) by (unfold fexp; lia).
    unfold canonical. split; [lia|]. split; [|lia].
    apply Rlt_le_trans with (1 := Hvhi). apply p2_le. lia.
  - assert (Hqpos : (0 < q)%Z) by lia.
    apply (canonical_of_digits prec emax q e' (new_location (Z.pos my) r));
      [exact Hqpos | exact Hloc |].
    pose proof (Zdigits2_bounds q Hqpos) as [_ Hqhi].
    pose proof (Zdigits2_pos q Hqpos) as Hdq.
    assert (Hvhi : v < p2 (Zdigits2 q + e')).
    { rewrite <- Hv, p2_add. apply Rmult_lt_compat_r; [lra|].
      rewrite (p2_IZR (Zdigits2 q)) by lia. apply Rlt_le_trans with (IZR q + 1); [lra|].
      rewrite <- plus_IZR. apply IZR_le. lia. }
    assert (HD : (D - 1 < Zdigits2 q + e')%Z) by (apply p2_lt_inv; lra).
    apply Z.le_trans with (fexp prec emax D); [unfold e'; lia|].
    apply fexp_mono. lia.
Qed.

Lemma SFdiv_fits x mx ex :
  fits prec emax x ->
  fits prec emax (SFdiv prec emax x (S754_finite false mx ex)).
Proof.
  intros Hx. destruct x as [[]|[]| |[] m e]; try destruct Hx; try exact I.
  unfold SFdiv, SFdiv_core_binary. cbn [xorb]. cbv zeta.
  set (s := (e - ex - Z.min (fexp prec emax (Zdigits2 (Z.pos m) + e - (Zdigits2 (Z.pos mx) + ex))) (e - ex))%Z).
  set (m' := match s with
             | Z.pos _ => Z.shiftl (Z.pos m) s
             | 0%Z => Z.pos m
             | Z.neg _ => 0%Z
             end).
  assert (Hm' : (0 <= m')%Z).
  { unfold m'. destruct s; [lia | | lia]. apply Z.shiftl_nonneg. lia. }
  pose proof (Z_div_mod m' (Z.pos mx) ltac:(lia)) as Hdiv.
  destruct (Z.div_eucl m' (Z.pos mx)) as [q r]. destruct Hdiv as [Hq Hr].
  apply binary_round_aux_fits; [assumption|]. nia.
Qed.

Lemma SFmul_fits x mx ex :
  fits prec emax x ->
  fits prec emax (SFmul prec emax x (S754_finite false mx ex)).
Proof.
  intros Hx. destruct x as [[]|[]| |[] m e]; try destruct Hx; try exact I.
  unfold SFmul. cbn [xorb]. apply binary_round_aux_fits; [assumption | lia].
Qed.

Lemma binary_normalize_fits n :
  (0 <= n)%Z -> fits prec emax (binary_normalize prec emax n 0 false).
Proof.
  intros Hn. destruct n as [|p|p]; [exact I | | lia].
  cbn [binary_normalize]. apply binary_round_fits; assumption.
Qed.
End Division.

Section Order.
Import Reals Lra Exact.
Local Open Scope R_scope.
Variables prec emax : Z.
Hypothesis Hprec : (0 < prec)%Z.
Hypothesis Hemax : (prec < emax)%Z.

(** Rounding to the nearest integer is monotone. *)
Lemma nearest_mono x x' m m' :
  x <= x' -> nearest x m -> nearest x' m' -> (m <= m')%Z.
Proof.
  intros Hx [[Hlo Hhi] Htie] [[Hlo' Hhi'] Htie'].
  destruct (Z_le_gt_dec m m') as [Hle|Hgt]; [exact Hle|exfalso].
  assert (Hstep : (m' + 1 <= m)%Z) by lia.
  apply IZR_le in Hstep. rewrite plus_IZR in Hstep.
  assert (Em : m = (m' + 1)%Z).
  { apply eq_IZR. rewrite plus_IZR. lra. }
  assert (Heven : Z.even m = true) by (apply Htie; left; lra).
  assert (Heven' : Z.even m' = true) by (apply Htie'; right; rewrite Em, plus_IZR in *; lra).
  rewrite Em, Z.even_add, Heven' in Heven. discriminate Heven.
Qed.

Lemma nearest_ge x m k : IZR k <= x -> nearest x m -> (k <= m)%Z.
Proof.
  intros Hk [[Hlo Hhi] _]. apply IZR_lt_half. lra.
Qed.

Lemma nearest_le x m k : x <= IZR k -> nearest x m -> (m <= k)%Z.
Proof.
  intros Hk [[Hlo Hhi] _]. apply IZR_lt_half. lra.
Qed.

Lemma scale_down v e a : v < p2 (e + a) -> v * p2 (- e) < p2 a.
Proof.
  intros H. rewrite p2_add in H. pose proof (p2_pos (- e)). pose proof (p2_opp e).
  assert (v * p2 (- e) < p2 e * p2 a * p2 (- e)) by nra.
  replace (p2 e * p2 a * p2 (- e)) with (p2 a * (p2 (- e) * p2 e)) in H2 by ring.
  rewrite H1 in H2. lra.
Qed.

Lemma scale_down_le v e a : p2 (e + a) <= v -> p2 a <= v * p2 (- e).
Proof.
  intros H. rewrite p2_add in H. pose proof (p2_pos (- e)). pose proof (p2_opp e).
  assert (p2 e * p2 a * p2 (- e) <= v * p2 (- e)) by nra.
  replace (p2 e * p2 a * p2 (- e)) with (p2 a * (p2 (- e) * p2 e)) in H2 by ring.
  rewrite H1 in H2. lra.
Qed.

Lemma rounded_upper v m e : rounded prec emax v m e -> (m <= 2 ^ prec)%Z.
Proof.
  intros [(_ & Hupper & _) Hnear].
  apply (nearest_le _ _ _ ) with (2 := Hnear).
  rewrite <- p2_IZR by lia. apply Rlt_le, scale_down, Hupper.
Qed.

Lemma rounded_lower v m e :
  rounded prec emax v m e -> (emin prec emax < e)%Z -> (2 ^ (prec - 1) <= m)%Z.
Proof.
  intros [(_ & _ & Hlower) Hnear] He.
  apply (nearest_ge _ _ _) with (2 := Hnear).
  rewrite <- p2_IZR by lia. apply scale_down_le.
  replace (e + (prec - 1))%Z with (e + prec - 1)%Z by lia. apply Hlower, He.
Qed.

Lemma rounded_nonneg v m e : 0 < v -> rounded prec emax v m e -> (0 <= m)%Z.
Proof.
  intros Hv [_ Hnear]. apply (nearest_ge _ _ _) with (2 := Hnear).
  pose proof (p2_pos (- e)). nra.
Qed.

(** Rounding is monotone. *)
Lemma rounded_mono v v' m e m' e' :
  0 < v <= v' ->
  rounded prec emax v m e -> rounded prec emax v' m' e' ->
  IZR m * p2 e <= IZR m' * p2 e'.
Proof.
  intros [Hv Hvv'] Hr Hr'.
  pose proof (rounded_upper _ _ _ Hr) as Hup.
  pose proof (rounded_lower _ _ _ Hr) as Hlo.
  pose proof (rounded_upper _ _ _ Hr') as Hup'.
  pose proof (rounded_lower _ _ _ Hr') as Hlo'.
  destruct Hr as [(Hemin & Hupper & Hlower) Hnear].
  destruct Hr' as [(Hemin' & Hupper' & Hlower') Hnear'].
  pose proof (p2_pos e) as Pe. pose proof (p2_pos e') as Pe'.
  destruct (Z.compare_spec e e') as [Heq|Hlt|Hgt].
  - subst e'. apply Rmult_le_compat_r; [lra|]. apply IZR_le.
    apply (nearest_mono (v * p2 (- e)) (v' * p2 (- e))); try assumption.
    apply Rmult_le_compat_r; [apply Rlt_le, p2_pos | exact Hvv'].
  - apply Rle_trans with (p2 (prec + e)).
    + rewrite p2_add. apply Rmult_le_compat_r; [lra|].
      rewrite p2_IZR by lia. apply IZR_le. exact Hup.
    + apply Rle_trans with (p2 (prec - 1 + e')); [apply p2_le; lia|].
      rewrite p2_add. apply Rmult_le_compat_r; [lra|].
      rewrite p2_IZR by lia. apply IZR_le. apply Hlo'. lia.
  - exfalso.
    assert (p2 (e + prec - 1) <= v) by (apply Hlower; lia).
    assert (p2 (e' + prec) <= p2 (e + prec - 1)) by (apply p2_le; lia).
    lra.
Qed.

Lemma denotes_value w r :
  denotes emax w r ->
  match r with
  | S754_infinity _ => p2 emax <= w
  | _ => w = value r /\ w < p2 emax
  end.
Proof.
  destruct r as [[]|[]| |[] m e]; cbn [denotes value]; try tauto.
  intros ->. split; [reflexivity | apply p2_pos].
Qed.

Lemma denotes_fits_sign w r :
  denotes emax w r ->
  match r with
  | S754_zero false | S754_infinity false | S754_finite false _ _ => True
  | _ => False
  end.
Proof. destruct r as [[]|[]| |[] m e]; cbn [denotes]; tauto. Qed.

Lemma value_nonneg x : 0 <= value x.
Proof.
  destruct x as [s|s| |[] m e]; cbn [value]; try lra.
  pose proof (p2_pos e). assert (0 < IZR (Z.pos m)) by (apply IZR_lt; lia). nra.
Qed.

Lemma rounds_mono v v' r r' :
  0 < v <= v' ->
  rounds prec emax v r -> rounds prec emax v' r' -> le r r'.
Proof.
  intros Hv (m & e & Hr & Hd) (m' & e' & Hr' & Hd').
  pose proof (rounded_mono _ _ _ _ _ _ Hv Hr Hr') as Hw.
  pose proof (denotes_fits_sign _ _ Hd) as Hs. pose proof (denotes_fits_sign _ _ Hd') as Hs'.
  apply denotes_value in Hd, Hd'.
  destruct r' as [[]|[]| |[] m2' e2']; try destruct Hs';
    destruct r as [[]|[]| |[] m2 e2]; try destruct Hs; cbn [le]; try exact I;
    try (destruct Hd as [Hd1 Hd2]); try (destruct Hd' as [Hd1' Hd2']); lra.
Qed.

(** The rounding of a real is not below a number of the format that is not
    above the real. *)
Lemma rounds_above mx ex v r :
  fits prec emax (S754_finite false mx ex) ->
  value (S754_finite false mx ex) <= v ->
  rounds prec emax v r ->
  le (S754_finite false mx ex) r.
Proof.
  intros [Hdigits Hex] Hv (m & e & Hr & Hd).
  cbn [value] in Hv.
  assert (Pmx : 0 < IZR (Z.pos mx)) by (apply IZR_lt; lia).
  pose proof (p2_pos ex) as Pex. pose proof (p2_pos e) as Pe.
  assert (Hw : IZR (Z.pos mx) * p2 ex <= IZR m * p2 e).
  { destruct (Z_le_gt_dec e ex) as [Hle|Hgt].
    - assert (Hk : IZR (Z.pos mx * 2 ^ (ex - e)) = IZR (Z.pos mx) * p2 ex * p2 (- e)).
      { rewrite mult_IZR, <- p2_IZR by lia. rewrite Rmult_assoc, <- p2_add.
        do 2 f_equal; lia. }
      assert (Hm : (Z.pos mx * 2 ^ (ex - e) <= m)%Z).
      { destruct Hr as [_ Hnear]. apply (nearest_ge _ _ _) with (2 := Hnear).
        rewrite Hk. apply Rmult_le_compat_r; [apply Rlt_le, p2_pos | exact Hv]. }
      apply IZR_le in Hm. rewrite Hk in Hm.
      rewrite <- (scaled_forth (IZR (Z.pos mx) * p2 ex) e).
      apply Rmult_le_compat_r; lra.
    - pose proof (rounded_lower _ _ _ Hr ltac:(lia)) as Hlo.
      pose proof (digits2_pos_bounds mx) as [_ Hhi].
      assert (Hmx : (Z.pos mx < 2 ^ prec)%Z).
      { apply Z.lt_le_trans with (1 := Hhi). apply Z.pow_le_mono_r; lia. }
      apply Rle_trans with (p2 (prec + ex)).
      + rewrite p2_add. apply Rmult_le_compat_r; [lra|].
        rewrite p2_IZR by lia. apply IZR_le. lia.
      + apply Rle_trans with (p2 (prec - 1 + e)); [apply p2_le; lia|].
        rewrite p2_add. apply Rmult_le_compat_r; [lra|].
        rewrite p2_IZR by lia. apply IZR_le. exact Hlo. }
  pose proof (denotes_fits_sign _ _ Hd) as Hs.
  apply denotes_value in Hd.
  destruct r as [[]|[]| |[] m2 e2]; try destruct Hs; cbn [le value]; try exact I.
  - destruct Hd as [Hd _]. cbn [value] in Hd. nra.
  - destruct Hd as [Hd _]. cbn [value] in Hd. lra.
Qed.

Lemma rounds_nonneg v r : rounds prec emax v r -> le (S754_zero false) r.
Proof.
  intros (m & e & _ & Hd). pose proof (denotes_fits_sign _ _ Hd) as Hs.
  destruct r as [[]|[]| |[] m2 e2]; try destruct Hs; cbn [le]; try exact I.
  - cbn [value]. lra.
  - apply value_nonneg.
Qed.

Lemma le_refl x : fits prec emax x -> le x x.
Proof.
  destruct x as [[]|[]| |[] m e]; cbn [fits le]; try tauto; intros _; lra.
Qed.

Lemma le_trans x y z :
  fits prec emax x -> fits prec emax y -> fits prec emax z -> le x y -> le y z -> le x z.
Proof.
  destruct x as [[]|[]| |[] mx ex]; cbn [fits]; try tauto; intros _;
    destruct y as [[]|[]| |[] my ey]; cbn [fits]; try tauto; intros _;
    destruct z as [[]|[]| |[] mz ez]; cbn [fits]; try tauto; intros _;
    cbn [le]; try tauto; lra.
Qed.

Lemma value_pos m e : 0 < value (S754_finite false m e).
Proof.
  cbn [value]. pose proof (p2_pos e). assert (0 < IZR (Z.pos m)) by (apply IZR_lt; lia). nra.
Qed.

Lemma le_infinity x : le x (S754_infinity false).
Proof. destruct x as [[]|[]| |[] m e]; exact I. Qed.

(** Adding to a larger number gives a larger sum. *)
Lemma SFadd_mono x y c :
  fits prec emax x -> fits prec emax y -> fits prec emax c ->
  le x y -> le (SFadd prec emax x c) (SFadd prec emax y c).
Proof.
  intros Hx Hy Hc Hxy.
  fits_cases c Hc mc ec.
  - (* adding zero *)
    fits_cases x Hx mx ex; fits_cases y Hy my ey; exact Hxy.
  - (* adding infinity *)
    fits_cases x Hx mx ex; fits_cases y Hy my ey; apply le_infinity.
  - fits_cases x Hx mx ex.
    + fits_cases y Hy my ey.
      * apply le_refl. exact Hc.
      * apply le_infinity.
      * change (SFadd prec emax (S754_zero false) (S754_finite false mc ec))
          with (S754_finite false mc ec).
        apply rounds_above
          with (v := value (S754_finite false my ey) + value (S754_finite false mc ec));
          [exact Hc | | apply SFadd_rounds; assumption].
        pose proof (value_pos my ey). lra.
    + fits_cases y Hy my ey; try apply le_infinity; cbn [le] in Hxy; contradiction.
    + fits_cases y Hy my ey.
      * cbn [le] in Hxy. pose proof (value_pos mx ex). cbn [value] in *. lra.
      * apply le_infinity.
      * apply rounds_mono
          with (v := value (S754_finite false mx ex) + value (S754_finite false mc ec))
               (v' := value (S754_finite false my ey) + value (S754_finite false mc ec));
          [| apply SFadd_rounds; assumption | apply SFadd_rounds; assumption].
        cbn [le] in Hxy. pose proof (value_pos mx ex). pose proof (value_pos mc ec). lra.
Qed.

(** A sum is not below its first term. *)
Lemma SFadd_above x w :
  fits prec emax x -> fits prec emax w -> le x (SFadd prec emax x w).
Proof.
  intros Hx Hw.
  fits_cases w Hw mw ew.
  - fits_cases x Hx mx ex; cbn [SFadd le]; try apply le_infinity; lra.
  - fits_cases x Hx mx ex; apply le_infinity.
  - fits_cases x Hx mx ex.
    + cbn [SFadd le]. pose proof (value_pos mw ew). cbn [value] in *. lra.
    + apply le_infinity.
    + apply rounds_above
        with (v := value (S754_finite false mx ex) + value (S754_finite false mw ew));
        [exact Hx | | apply SFadd_rounds; assumption].
      pose proof (value_pos mw ew). lra.
Qed.

(** Dividing a larger number by the same positive number gives a larger
    quotient. *)
Lemma SFdiv_mono x y md ed :
  fits prec emax x -> fits prec emax y ->
  le x y ->
  le (SFdiv prec emax x (S754_finite false md ed)) (SFdiv prec emax y (S754_finite false md ed)).
Proof.
  intros Hx Hy Hxy.
  fits_cases x Hx mx ex.
  - fits_cases y Hy my ey.
    + cbn [SFdiv xorb le value]. lra.
    + apply le_infinity.
    + change (SFdiv prec emax (S754_zero false) (S754_finite false md ed)) with (S754_zero false).
      apply rounds_nonneg
        with (v := value (S754_finite false my ey) / value (S754_finite false md ed)).
      apply SFdiv_rounds; assumption.
  - fits_cases y Hy my ey; try apply le_infinity; cbn [le] in Hxy; contradiction.
  - fits_cases y Hy my ey.
    + cbn [le] in Hxy. pose proof (value_pos mx ex). cbn [value] in *. lra.
    + apply le_infinity.
    + pose proof (value_pos mx ex) as Px. pose proof (value_pos md ed) as Pd.
      apply rounds_mono
        with (v := value (S754_finite false mx ex) / value (S754_finite false md ed))
             (v' := value (S754_finite false my ey) / value (S754_finite false md ed));
        [| apply SFdiv_rounds; assumption | apply SFdiv_rounds; assumption].
      cbn [le] in Hxy. split.
      * apply Rdiv_lt_0_compat; assumption.
      * apply Rmult_le_compat_r; [apply Rlt_le, Rinv_0_lt_compat, Pd | exact Hxy].
Qed.
End Order.

Section Floor.
Import Reals Lra Exact.
Local Open Scope R_scope.

(** The floor of a positive double. *)
Lemma floor_bounds m e :
  IZR (Z.shiftl (Z.pos m) e) <= IZR (Z.pos m) * p2 e < IZR (Z.shiftl (Z.pos m) e) + 1.
Proof.
  destruct (Z_le_gt_dec 0 e) as [Hpos|Hneg].
  - rewrite Z.shiftl_mul_pow2 by lia. rewrite mult_IZR, <- p2_IZR by lia. lra.
  - rewrite Z.shiftl_div_pow2 by lia.
    pose proof (Z.pow_pos_nonneg 2 (- e) ltac:(lia) ltac:(lia)) as Hd.
    pose proof (Z_div_mod (Z.pos m) (2 ^ (- e)) ltac:(lia)) as Hdiv.
    unfold Z.div. destruct (Z.div_eucl (Z.pos m) (2 ^ (- e))) as [n r].
    destruct Hdiv as [Em Hr].
    assert (ER : IZR (Z.pos m) = p2 (- e) * IZR n + IZR r).
    { rewrite Em, plus_IZR, mult_IZR, <- p2_IZR by lia. reflexivity. }
    assert (Hr' : 0 <= IZR r < p2 (- e)).
    { rewrite p2_IZR by lia. split; [apply IZR_le | apply IZR_lt]; lia. }
    pose proof (p2_opp e) as Hinv. pose proof (p2_pos e) as Pe.
    rewrite ER.
    replace ((p2 (- e) * IZR n + IZR r) * p2 e)
      with (IZR n * (p2 (- e) * p2 e) + IZR r * p2 e) by ring.
    rewrite Hinv. nra.
Qed.

Lemma flooredCount_range quotient : (0 <= flooredCount quotient <= 12)%Z.
Proof.
  unfold flooredCount. destruct (Double.floor quotient) as [n|]; [lia|].
  destruct quotient as [s|[]| |s m e]; lia.
Qed.

Lemma flooredCount_mono q q' :
  good q -> good q' -> le q q' -> (flooredCount q <= flooredCount q')%Z.
Proof.
  intros Hq Hq' Hle. pose proof (flooredCount_range q) as Hrange.
  unfold good in *.
  fits_cases q' Hq' m' e'.
  - fits_cases q Hq m e; cbn [le] in Hle; try contradiction.
    + lia.
    + pose proof (value_pos m e). cbn [value] in *. lra.
  - cbn. lia.
  - fits_cases q Hq m e; cbn [le] in Hle; try contradiction.
    + unfold flooredCount. cbn [Double.floor cond_Zopp].
      pose proof (Z.shiftl_nonneg (Z.pos m') e'). lia.
    + unfold flooredCount. cbn [Double.floor cond_Zopp].
      pose proof (floor_bounds m' e') as [_ Hhi]. pose proof (floor_bounds m e) as [Hlo _].
      cbn [value] in Hle.
      assert (Hn : (Z.shiftl (Z.pos m) e <= Z.shiftl (Z.pos m') e')%Z)
        by (apply IZR_lt_half; lra).
      lia.
Qed.
End Floor.

(** *** The scores *)

Section Scores.
Import Reals Lra Exact.

Lemma prec_pos : 0 < Double.prec.
Proof. reflexivity. Qed.

Lemma prec_emax : Double.prec < Double.emax.
Proof. reflexivity. Qed.

Ltac format := first [exact prec_pos | exact prec_emax | assumption].

Lemma add_good x y : good x -> good y -> good (Double.add x y).
Proof. intros Hx Hy. apply SFadd_fits; format. Qed.

Lemma add_mono x y c :
  good x -> good y -> good c -> le x y -> le (Double.add x c) (Double.add y c).
Proof. intros Hx Hy Hc Hxy. apply (SFadd_mono Double.prec Double.emax); format. Qed.

Lemma add_above x w : good x -> good w -> le x (Double.add x w).
Proof. intros Hx Hw. apply (SFadd_above Double.prec Double.emax); format. Qed.

Lemma mul_good x m e : good x -> good (Double.mul x (S754_finite false m e)).
Proof. intros Hx. apply SFmul_fits; format. Qed.

Lemma div_good x m e : good x -> good (Double.div x (S754_finite false m e)).
Proof. intros Hx. apply SFdiv_fits; format. Qed.

Lemma div_mono x y m e :
  good x -> good y -> le x y ->
  le (Double.div x (S754_finite false m e)) (Double.div y (S754_finite false m e)).
Proof. intros Hx Hy Hxy. apply (SFdiv_mono Double.prec Double.emax); format. Qed.

Lemma ofZ_good n : 0 <= n -> good (Double.ofZ n).
Proof. intros Hn. apply binary_normalize_fits; format. Qed.

Lemma good_le_refl x : good x -> le x x.
Proof. apply le_refl. Qed.

Lemma good_le_trans x y z :
  good x -> good y -> good z -> le x y -> le y z -> le x z.
Proof. apply le_trans. Qed.

(** The literals of the estimator. *)
Lemma literals :
  Double.lit 8 10 = S754_finite false 7205759403792794 (-53) /\
  Double.lit 3 10 = S754_finite false 5404319552844595 (-54) /\
  Double.lit 25 10 = S754_finite false 5629499534213120 (-51) /\
  two = S754_finite false 4503599627370496 (-51) /\
  oneAndHalf = S754_finite false 6755399441055744 (-52) /\
  one = S754_finite false 4503599627370496 (-52).
Proof. repeat split; vm_compute; reflexivity. Qed.

Lemma weights_good p : In p activityPatterns -> good (weight p).
Proof.
  assert (Htwo : good two) by (apply ofZ_good; lia).
  assert (Hone : good one) by (apply ofZ_good; lia).
  assert (Hhalf : good oneAndHalf).
  { unfold oneAndHalf, Double.lit.
    replace (Double.ofZ 10) with (S754_finite false 5629499534213120 (-49))
      by (vm_compute; reflexivity).
    apply div_good, ofZ_good. lia. }
  unfold activityPatterns. cbn [In].
  intros H. repeat (destruct H as [<-|H]; [assumption|]). destruct H.
Qed.

(** The score one pattern adds: its weight, once for each match that
    counts. *)
Lemma scoreMatches_iter p (ms : list Match) (acc : number * list string) :
  (fold_left
     (fun '(timePatternScore, foundMatches) m =>
        if qualifies p m
        then (Double.add timePatternScore (weight p), (foundMatches ++ [m0 m])%list)
        else (timePatternScore, foundMatches))
     ms acc).1
  = Nat.iter (length (filter (fun m => qualifies p m = true) ms))
      (fun score => Double.add score (weight p)) acc.1.
Proof.
  revert acc. induction ms as [|m ms IH]; intros [score found]; [reflexivity|].
  cbn [fold_left]. rewrite filter_cons. destruct (qualifies p m) eqn:Hq.
  - rewrite IH, decide_True by reflexivity. cbn [length fst].
    rewrite Nat.iter_succ_r. reflexivity.
  - rewrite IH, decide_False by discriminate. reflexivity.
Qed.

Lemma scorePattern_iter pageText acc p :
  (scorePattern pageText acc p).1
  = Nat.iter (qualifyingCount p pageText) (fun score => Double.add score (weight p)) acc.1.
Proof. apply scoreMatches_iter. Qed.

Lemma iter_good w n x :
  good w -> good x -> good (Nat.iter n (fun score => Double.add score w) x).
Proof.
  intros Hw Hx. induction n as [|n IH]; [exact Hx|].
  cbn [Nat.iter nat_rect]. apply add_good; assumption.
Qed.

Lemma iter_above w n x :
  good w -> good x -> le x (Nat.iter n (fun score => Double.add score w) x).
Proof.
  intros Hw Hx. induction n as [|n IH]; [apply good_le_refl, Hx|].
  cbn [Nat.iter nat_rect].
  pose proof (iter_good w n x Hw Hx) as Hn.
  apply good_le_trans with (2 := Hn); [exact Hx | apply add_good; assumption | exact IH |].
  apply add_above; assumption.
Qed.

(** More additions of a weight, from a larger score, give a larger
    score. *)
Lemma iter_mono w a b x y :
  good w -> good x -> good y -> le x y -> (a <= b)%nat ->
  le (Nat.iter a (fun score => Double.add score w) x)
     (Nat.iter b (fun score => Double.add score w) y).
Proof.
  intros Hw Hx Hy Hxy. revert b. induction a as [|a IH]; intros b Hab.
  - cbn [Nat.iter nat_rect].
    apply good_le_trans with (2 := Hy); [exact Hx | apply iter_good; assumption | exact Hxy |].
    apply iter_above; assumption.
  - destruct b as [|b]; [lia|]. cbn [Nat.iter nat_rect].
    apply add_mono; [apply iter_good; assumption | apply iter_good; assumption | exact Hw |].
    apply IH. lia.
Qed.

(** More matches that count, pattern by pattern, give a larger time
    score. *)
Lemma timeScore_mono pageText pageText' ps acc acc' :
  (forall p, In p ps -> good (weight p)) ->
  (forall p, In p ps -> (qualifyingCount p pageText <= qualifyingCount p pageText')%nat) ->
  good acc.1 -> good acc'.1 -> le acc.1 acc'.1 ->
  good (fold_left (scorePattern pageText) ps acc).1 /\
  good (fold_left (scorePattern pageText') ps acc').1 /\
  le (fold_left (scorePattern pageText) ps acc).1
     (fold_left (scorePattern pageText') ps acc').1.
Proof.
  revert acc acc'. induction ps as [|p ps IH]; intros acc acc' Hw Hn Hacc Hacc' Hle.
  - cbn [fold_left]. auto.
  - cbn [fold_left]. apply IH.
    + intros p' Hp'. apply Hw. right. exact Hp'.
    + intros p' Hp'. apply Hn. right. exact Hp'.
    + rewrite scorePattern_iter. apply iter_good; [apply Hw; left; reflexivity | exact Hacc].
    + rewrite scorePattern_iter. apply iter_good; [apply Hw; left; reflexivity | exact Hacc'].
    + rewrite !scorePattern_iter.
      apply iter_mono; try assumption; [apply Hw | apply Hn]; left; reflexivity.
Qed.

Lemma timePatterns_good pageText : good (timePatterns pageText).1.
Proof.
  unfold timePatterns.
  apply (timeScore_mono pageText pageText activityPatterns (Double.ofZ 0, []) (Double.ofZ 0, [])).
  - exact weights_good.
  - intros p _. lia.
  - exact I.
  - exact I.
  - apply good_le_refl. exact I.
Qed.

Lemma addMatches_good score n m e :
  good score -> good (addMatches score n (S754_finite false m e)).
Proof.
  intros Hscore. destruct n as [|n]; [exact Hscore|].
  cbn [addMatches]. apply add_good; [exact Hscore|].
  apply mul_good, ofZ_good. lia.
Qed.

Lemma contextualScore_good pageText : good (contextualScore pageText).
Proof.
  unfold contextualScore. destruct literals as (E & _). rewrite E.
  generalize (Double.ofZ 0) (I : good (Double.ofZ 0)).
  induction activityKeywords as [|keyword keywords IH]; intros acc Hacc; [exact Hacc|].
  cbn [fold_left]. apply IH. cbv zeta. apply addMatches_good, addMatches_good, Hacc.
Qed.

Lemma structuralScore_good pageHTML : good (structuralScore pageHTML).
Proof.
  unfold structuralScore. destruct literals as (_ & E & _). rewrite E.
  generalize (Double.ofZ 0) (I : good (Double.ofZ 0)).
  induction linkedinPatterns as [|p ps IH]; intros acc Hacc; [exact Hacc|].
  cbn [fold_left]. apply IH. apply addMatches_good, Hacc.
Qed.

Lemma totalOf_good t c s : good t -> good c -> good s -> good (totalOf t c s).
Proof. intros Ht Hc Hs. apply add_good; [apply add_good|]; assumption. Qed.

Lemma totalOf_mono t t' c s :
  good t -> good t' -> good c -> good s -> le t t' -> le (totalOf t c s) (totalOf t' c s).
Proof.
  intros Ht Ht' Hc Hs Hle. unfold totalOf.
  apply add_mono; [apply add_good; assumption | apply add_good; assumption | exact Hs |].
  apply add_mono; assumption.
Qed.

Lemma quotient_good total : good total -> good (Double.div total (Double.lit 25 10)).
Proof.
  intros Htotal. destruct literals as (_ & _ & E & _). rewrite E. apply div_good, Htotal.
Qed.

Lemma estimatedPosts_range total : 0 <= estimatedPosts total <= 12.
Proof. apply flooredCount_range. Qed.

Lemma estimatedPosts_mono total total' :
  good total -> good total' -> le total total' ->
  estimatedPosts total <= estimatedPosts total'.
Proof.
  intros Ht Ht' Hle. unfold estimatedPosts.
  apply flooredCount_mono; [apply quotient_good, Ht | apply quotient_good, Ht' |].
  destruct literals as (_ & _ & E & _). rewrite E. apply div_mono; assumption.
Qed.

(** The count of a quotient that fits: its floor, clamped, or 12 at
    infinity. *)
Lemma flooredCount_good quotient :
  good quotient ->
  match Double.floor quotient with
  | Some n => 0 <= n /\ flooredCount quotient = clamp n 0 12
  | None => quotient = S754_infinity false /\ flooredCount quotient = 12
  end.
Proof.
  intros Hq. unfold good in Hq. fits_cases quotient Hq m e.
  - split; [lia | reflexivity].
  - split; reflexivity.
  - unfold flooredCount. cbn [Double.floor cond_Zopp].
    pose proof (Z.shiftl_nonneg (Z.pos m) e) as Hn.
    split; [lia|]. unfold clamp.
    destruct (Z.ltb_spec (Z.shiftl (Z.pos m) e) 0); destruct (Z.ltb_spec 12 (Z.shiftl (Z.pos m) e)); lia.
Qed.
End Scores.

Section Literals.
Import Reals Lra Exact.
Local Open Scope R_scope.

Lemma value_ofZ k m e :
  (0 <= e)%Z ->
  Double.ofZ k = S754_finite false m (- e) ->
  (Z.pos m = k * 2 ^ e)%Z ->
  value (Double.ofZ k) = IZR k.
Proof.
  intros He -> Hm. cbn [value]. rewrite Hm, mult_IZR, <- p2_IZR by exact He.
  rewrite Rmult_assoc, (Rmult_comm (p2 e)), p2_opp. ring.
Qed.

(** The decimal literals are the decimals they are written as, rounded to
    the nearest double. *)
Lemma literals_rounded :
  rounds Double.prec Double.emax (8 / 10) (Double.lit 8 10) /\
  rounds Double.prec Double.emax (3 / 10) (Double.lit 3 10) /\
  rounds Double.prec Double.emax (25 / 10) (Double.lit 25 10) /\
  rounds Double.prec Double.emax (15 / 10) oneAndHalf.
Proof.
  assert (H : forall k m e, (0 <= e)%Z ->
            Double.ofZ k = S754_finite false m (- e) -> (Z.pos m = k * 2 ^ e)%Z ->
            rounds Double.prec Double.emax (IZR k / 10) (Double.lit k 10)).
  { intros k m e He Hk Hm.
    rewrite <- (value_ofZ k m e He Hk Hm).
    rewrite <- (value_ofZ 10 5629499534213120 49 ltac:(lia) eq_refl eq_refl).
    unfold Double.lit, Double.div. rewrite Hk.
    change (Double.ofZ 10) with (S754_finite false 5629499534213120 (-49)).
    apply SFdiv_rounds; first [exact prec_pos | exact prec_emax]. }
  split; [exact (H 8%Z 4503599627370496%positive 49%Z ltac:(lia) eq_refl eq_refl)|].
  split; [exact (H 3%Z 6755399441055744%positive 51%Z ltac:(lia) eq_refl eq_refl)|].
  split; [exact (H 25%Z 7036874417766400%positive 48%Z ltac:(lia) eq_refl eq_refl)|].
  exact (H 15%Z 8444249301319680%positive 49%Z ltac:(lia) eq_refl eq_refl).
Qed.
End Literals.

(** The estimator returns on every page, with a count within 0..12. *)
Lemma performAdvancedFallbackDetection_returns doc :
  exists r, performAdvancedFallbackDetection doc = Ok r /\ 0 <= count r <= 12.
Proof.
  unfold performAdvancedFallbackDetection, bodyProp.
  destruct (body doc) as [b|]; res_step.
  - destruct (timePatterns (toLowerCase (textContent b))) as [timeScore found].
    eexists. split; [reflexivity|]. apply estimatedPosts_range.
  - eexists. split; [reflexivity|]. cbn [count]. lia.
Qed.

(** C7. The estimator returns normally on every document, with a count
    between 0 and 12. When the page has a body, the total is the sum of the
    three scores, added in this order as doubles, and the count is the floor
    of the quotient of the total by 2.5, clamped to 0..12: the quotient is
    never [NaN] and never negative, its floor is an integer that is not
    negative, and at the quotient infinity, which has no integer floor, the
    count is 12. When the page has no body the caught exception gives the
    count 0. *)
Theorem fallback_estimate_clamped doc :
  exists r,
    performAdvancedFallbackDetection doc = Ok r /\
    0 <= count r <= 12 /\
    match details r, body doc with
    | Scores timeScore contextual structural total _ _, Some b =>
        timeScore = (timePatterns (toLowerCase (textContent b))).1 /\
        contextual = contextualScore (toLowerCase (textContent b)) /\
        structural = structuralScore (toLowerCase (innerHTML b)) /\
        total = Double.add (Double.add timeScore contextual) structural /\
        let quotient := Double.div total (Double.lit 25 10) in
        match Double.floor quotient with
        | Some n => 0 <= n /\ count r = clamp n 0 12
        | None => quotient = S754_infinity false /\ count r = 12
        end
    | DetailsError _, None => count r = 0
    | _, _ => False
    end.
Proof.
  unfold performAdvancedFallbackDetection, bodyProp.
  destruct (body doc) as [b|]; res_step.
  - pose proof (timePatterns_good (toLowerCase (textContent b))) as Ht.
    pose proof (contextualScore_good (toLowerCase (textContent b))) as Hc.
    pose proof (structuralScore_good (toLowerCase (innerHTML b))) as Hs.
    destruct (timePatterns (toLowerCase (textContent b))) as [timeScore found] eqn:Htime.
    eexists. split; [reflexivity|]. cbn [count details fst] in *.
    split; [apply estimatedPosts_range|].
    repeat (split; [reflexivity|]).
    apply (flooredCount_good (Double.div _ (Double.lit 25 10))), quotient_good,
      totalOf_good; assumption.
  - eexists. split; [reflexivity|]. cbn [count details]. split; [lia | reflexivity].
Qed.

(** C8. The estimate is monotonic in the matches that count: between two
    pages with a body, when every time pattern has at least as many
    qualifying matches in the second page as in the first and the contextual
    and structural scores, as numbers, are the same, the estimate of the
    second page is not below that of the first. *)
Theorem fallback_estimate_monotone doc doc' b b' :
  body doc = Some b ->
  body doc' = Some b' ->
  (forall p, In p activityPatterns ->
     (qualifyingCount p (toLowerCase (textContent b))
      <= qualifyingCount p (toLowerCase (textContent b')))%nat) ->
  contextualScore (toLowerCase (textContent b)) = contextualScore (toLowerCase (textContent b')) ->
  structuralScore (toLowerCase (innerHTML b)) = structuralScore (toLowerCase (innerHTML b')) ->
  match performAdvancedFallbackDetection doc, performAdvancedFallbackDetection doc' with
  | Ok r, Ok r' => count r <= count r'
  | _, _ => False
  end.
Proof.
  intros Hb Hb' Hn Hc Hs.
  unfold performAdvancedFallbackDetection, bodyProp. rewrite Hb, Hb'. res_step.
  assert (H0 : Exact.good (Double.ofZ 0, @nil string).1) by exact I.
  destruct (timeScore_mono (toLowerCase (textContent b)) (toLowerCase (textContent b'))
              activityPatterns (Double.ofZ 0, []) (Double.ofZ 0, []) weights_good Hn H0 H0
              (good_le_refl _ H0)) as (Ht & Ht' & Hle).
  fold (timePatterns (toLowerCase (textContent b))) in Ht, Hle.
  fold (timePatterns (toLowerCase (textContent b'))) in Ht', Hle.
  pose proof (contextualScore_good (toLowerCase (textContent b'))) as Hcg.
  pose proof (structuralScore_good (toLowerCase (innerHTML b'))) as Hsg.
  destruct (timePatterns (toLowerCase (textContent b))) as [t f].
  destruct (timePatterns (toLowerCase (textContent b'))) as [t' f'].
  cbn [fst count] in *. rewrite Hc, Hs.
  apply estimatedPosts_mono;
    [apply totalOf_good; assumption | apply totalOf_good; assumption |].
  apply totalOf_mono; assumption.
Qed.

(** The theorem at a page and the same page with three abbreviated
    phrases added. *)
Lemma fallback_estimate_monotone_witness :
  match performAdvancedFallbackDetection (plainPage "Jane posted 3 hours ago" EmptyString),
        performAdvancedFallbackDetection (plainPage "Jane posted 3 hours ago 5m 7h 9h" EmptyString)
  with
  | Ok r, Ok r' => count r <= count r'
  | _, _ => False
  end.
Proof.
  refine (fallback_estimate_monotone
            (plainPage "Jane posted 3 hours ago" EmptyString)
            (plainPage "Jane posted 3 hours ago 5m 7h 9h" EmptyString)
            _ _ eq_refl eq_refl _ _ _).
  - intros p Hp. apply Nat.leb_le.
    repeat (destruct Hp as [<-|Hp]; [vm_compute; reflexivity|]). destruct Hp.
  - vm_compute. reflexivity.
  - vm_compute. reflexivity.
Defined.

(** On these two pages the estimate goes from 1 to 2. *)
Example estimate_grows_with_phrases :
  count <$> (match performAdvancedFallbackDetection (plainPage "Jane posted 3 hours ago" EmptyString)
             with Ok r => Some r | Throw _ => None end) = Some 1 /\
  count <$> (match performAdvancedFallbackDetection
                     (plainPage "Jane posted 3 hours ago 5m 7h 9h" EmptyString)
             with Ok r => Some r | Throw _ => None end) = Some 2.
Proof. split; vm_compute; reflexivity. Qed.

(** The rounding of the sums decides. Two pages with the same text, one
    qualifying phrase and one keyword near a time word, and nine structural
    matches each: [9 * 0.3] is 2.6999999999999997, while
    [3 * 0.3 + 4 * 0.3 + 0.3 + 0.3] is 2.6999999999999993. With the time
    score 1.5 and the contextual score 0.8 the total is 5 on the first page
    and 4.999999999999999 on the second, and the estimate 2 and 1. *)
Example estimate_follows_rounding :
  performAdvancedFallbackDetection (plainPage "7h posted a day ago" nineInOne) =
    Ok {| count := 2;
          details := Scores (S754_finite false 6755399441055744 (-52))
                            (S754_finite false 7205759403792794 (-53))
                            (S754_finite false 6079859496950169 (-51))
                            (S754_finite false 5629499534213120 (-50)) ["7h "] 1 |} /\
  performAdvancedFallbackDetection (plainPage "7h posted a day ago" nineSpread) =
    Ok {| count := 1;
          details := Scores (S754_finite false 6755399441055744 (-52))
                            (S754_finite false 7205759403792794 (-53))
                            (S754_finite false 6079859496950168 (-51))
                            (S754_finite false 5629499534213119 (-50)) ["7h "] 1 |} /\
  map (fun p => countMatches p nineInOne) linkedinPatterns = [0; 0; 0; 0; 9; 0; 0]%nat /\
  map (fun p => countMatches p nineSpread) linkedinPatterns = [3; 4; 1; 1; 0; 0; 0]%nat.
Proof. repeat split; vm_compute; reflexivity. Qed.

(** ** Orchestrator *)

Lemma try_catch_returns {A : Type} (body : Res A) (handler : string -> Res A) :
  (forall e, exists a, handler e = Ok a) -> exists a, try_catch body handler = Ok a.
Proof.
  intros Hh. destruct body as [a|e]; simpl; [exists a; reflexivity | apply Hh].
Qed.

Section Tiers.
Variable jsonParse : string -> Res JsonLd.
Variable doc : Document.

(** Whatever its strategies do, the name extractor returns, with the
    sentinel or a validated name. *)
Lemma tryStrategies_returns strategies :
  exists name, tryStrategies strategies = Ok name /\ reportedName name.
Proof.
  induction strategies as [|strategy rest IH]; cbn [tryStrategies].
  - exists "Unknown". split; [reflexivity | left; reflexivity].
  - destruct strategy as [[candidate|]|e]; res_step.
    + destruct (truthy (Some candidate)) as [name|]; [|exact IH].
      destruct (isValidProfileName name) eqn:Hvalid; res_step; [|exact IH].
      exists name. split; [reflexivity | right; exact Hvalid].
    + exact IH.
    + exact IH.
Qed.

Lemma extractProfileNameEnhanced_returns :
  exists name, extractProfileNameEnhanced jsonParse doc = Ok name /\ reportedName name.
Proof. apply tryStrategies_returns. Qed.

Lemma keywordHits_nonneg bodyText : 0 <= keywordHits bodyText.
Proof.
  unfold keywordHits.
  assert (H : forall words acc, 0 <= acc ->
            0 <= fold_left (fun activityScore word =>
                              activityScore + Z.of_nat (countMatches (rxi (Lit word)) bodyText))
                   words acc).
  { induction words as [|w words IH]; intros acc Hacc; simpl; [exact Hacc|].
    apply IH. lia. }
  apply H. lia.
Qed.

Lemma emergencyName_reported elements : reportedName (emergencyName elements).
Proof.
  induction elements as [|el elements IH]; cbn [emergencyName]; [left; reflexivity|].
  destruct (truthy (Some (textContent el))) as [content|]; [|exact IH].
  destruct (emergencyNameCheck (trim content)) eqn:Hcheck; [|exact IH].
  right. unfold emergencyNameCheck in Hcheck.
  apply andb_true_iff in Hcheck as [_ Hvalid]. exact Hvalid.
Qed.

(** The emergency pass returns, with a score between 0 and 3. *)
Lemma performEmergencyAnalysis_returns :
  exists em,
    performEmergencyAnalysis doc = Ok em /\
    0 <= activityScore em <= 3 /\
    reportedName (em_profileName em).
Proof.
  unfold performEmergencyAnalysis, bodyProp.
  destruct (querySelectorAll doc "h1, h2, h3, span, div") as [elements|e]; res_step.
  - destruct (body doc) as [b|]; res_step.
    + eexists. split; [reflexivity|]. cbn [activityScore em_profileName]. split.
      * pose proof (keywordHits_nonneg (toLowerCase (textContent b))) as Hhits.
        pose proof (Z.div_pos _ 20 Hhits ltac:(lia)). lia.
      * apply emergencyName_reported.
    + eexists. split; [reflexivity|]. cbn [activityScore em_profileName].
      split; [lia | left; reflexivity].
  - eexists. split; [reflexivity|]. cbn [activityScore em_profileName].
    split; [lia | left; reflexivity].
Qed.
End Tiers.

Section Pipeline.
Variable parseDate : string -> option Z.
Variable jsonParse : string -> Res JsonLd.
Variable clock : Z.
Variable doc : Document.

(** Steps of a statement over the variables of [extractProfileData]. *)
Ltac run_step :=
  unfold mbind, mret, Run_bind, Run_ret, call, modify, get, when, try_catch_run;
  cbv beta iota;
  cbn [set_postCount set_profileName set_posts set_debug
       note_name note_scan note_fallback note_emergency push_error
       l_postCount l_profileName l_posts l_debug errors
       usedFallback usedEmergencyAnalysis
       postCount profileName posts error debug analyzedAt
       length Z.of_nat Z.eqb app].

(** The four ways through [extractProfileData], by what the tiers return:
    the scan found posts; it found none and the estimate is positive; both
    gave nothing and the name is known; both gave nothing and the name is
    unknown, which is when the emergency pass runs. *)
Lemma extractProfileData_cases now :
  exists name report fr em r d,
    extractProfileNameEnhanced jsonParse doc = Ok name /\
    findRecentPostsEnhanced parseDate clock doc (now - 24 * 60 * 60 * 1000) [] = Ok report /\
    performAdvancedFallbackDetection doc = Ok fr /\
    performEmergencyAnalysis doc = Ok em /\
    extractProfileData parseDate jsonParse clock doc now = Ok r /\
    error r = None /\ debug r = Debug d /\
    reportedName name /\ 0 <= count fr <= 12 /\ 0 <= activityScore em <= 3 /\
    reportedName (em_profileName em) /\
    ((sr_posts report <> [] /\
      postCount r = Z.of_nat (length (sr_posts report)) /\
      posts r = Some (map displayPost (sr_posts report)) /\
      profileName r = name /\
      usedFallback d = false /\ usedEmergencyAnalysis d = false) \/
     (sr_posts report = [] /\ 0 < count fr /\
      postCount r = count fr /\
      posts r = Some [displayPost (fallbackPost (details fr))] /\
      profileName r = name /\
      usedFallback d = true /\ usedEmergencyAnalysis d = false) \/
     (sr_posts report = [] /\ count fr = 0 /\ name <> "Unknown" /\
      postCount r = 0 /\
      posts r = Some [] /\
      profileName r = name /\
      usedFallback d = false /\ usedEmergencyAnalysis d = false) \/
     (sr_posts report = [] /\ count fr = 0 /\ name = "Unknown" /\
      profileName r = em_profileName em /\
      usedFallback d = false /\ usedEmergencyAnalysis d = true /\
      ((0 < activityScore em /\
        postCount r = Z.min (activityScore em) 5 /\
        posts r = Some [displayPost emergencyPost]) \/
       (activityScore em = 0 /\ postCount r = 0 /\ posts r = Some [])))).
Proof.
  destruct (extractProfileNameEnhanced_returns jsonParse doc) as (name & Hname & Hrep).
  destruct (findRecentPostsEnhanced_returns parseDate clock doc (now - 24 * 60 * 60 * 1000) [])
    as (report & Hscan & _).
  destruct (performAdvancedFallbackDetection_returns doc) as (fr & Hfr & Hrange).
  destruct (performEmergencyAnalysis_returns doc) as (em & Hem & Hscore & Hemname).
  exists name, report, fr, em.
  unfold extractProfileData, extractSteps.
  rewrite Hname. run_step. rewrite Hscan. run_step. rewrite Hfr, Hem.
  destruct (sr_posts report) as [|post rest] eqn:Hposts.
  - change (Z.of_nat (length (@nil Post)) =? 0) with true. run_step.
    destruct (0 <? count fr) eqn:Hest; run_step.
    + apply Z.ltb_lt in Hest.
      replace (count fr =? 0) with false by (symmetry; apply Z.eqb_neq; lia).
      rewrite andb_false_r. run_step.
      do 2 eexists. repeat (split; [reflexivity || assumption|]).
      right. left. repeat (split; [reflexivity || assumption|]). reflexivity.
    + apply Z.ltb_ge in Hest. assert (Hzero : count fr = 0) by lia.
      change (Z.of_nat 0 =? 0) with true. rewrite andb_true_r.
      destruct (String.eqb name "Unknown") eqn:Hunknown; run_step.
      * apply String.eqb_eq in Hunknown. subst name.
        assert (Hemfinal :
          (if negb (String.eqb (em_profileName em) "Unknown")
           then em_profileName em else "Unknown") = em_profileName em).
        { destruct (String.eqb (em_profileName em) "Unknown") eqn:E; [|reflexivity].
          apply String.eqb_eq in E. simpl. symmetry. exact E. }
        destruct (negb (String.eqb (em_profileName em) "Unknown")) eqn:Hfound;
          destruct (0 <? activityScore em) eqn:Hact; run_step;
          (apply Z.ltb_lt in Hact || apply Z.ltb_ge in Hact);
          do 2 eexists; repeat (split; [reflexivity || assumption|]);
          do 3 right; repeat (split; [reflexivity || assumption || exact Hemfinal|]);
          first [ left; repeat (split; [reflexivity || assumption|]); reflexivity
                | right; repeat (split; [reflexivity || lia|]); reflexivity ].
      * apply String.eqb_neq in Hunknown.
        do 2 eexists. repeat (split; [reflexivity || assumption|]).
        do 2 right. left. repeat (split; [reflexivity || assumption|]). reflexivity.
  - change (Z.of_nat (length (post :: rest)) =? 0) with false. run_step.
    rewrite andb_false_r. run_step.
    do 2 eexists. repeat (split; [reflexivity || assumption|]).
    left. split; [discriminate|]. repeat (split; [reflexivity || assumption|]). reflexivity.
Qed.

(** C3. The pipeline never throws: on every document the extraction
    returns normally, since each tier recovers from its own failures, and
    the caller receives that record, with a count that is not negative, a
    name that is the sentinel or a validated candidate, a list of posts and
    no error. The boundary itself turns any outcome of an extraction into a
    record; an exception that reaches it gives the record with count 0,
    name Error and the message attached. *)
Theorem analysis_never_throws now later :
  (exists r,
     analyzeCurrentProfile parseDate jsonParse clock doc now later = Ok r /\
     extractProfileData parseDate jsonParse clock doc now = Ok r /\
     0 <= postCount r /\
     reportedName (profileName r) /\
     is_Some (posts r) /\
     error r = None) /\
  (forall extraction : Res AnalysisResult, exists r, settle doc later extraction = Ok r) /\
  (forall message : string,
     settle doc later (Throw message) =
       Ok {| postCount := 0; profileName := "Error"; analyzedAt := later;
             url := href doc; posts := None; error := Some message;
             debug := DebugError message |}).
Proof.
  split; [|split].
  - destruct (extractProfileData_cases now)
      as (name & report & fr & em & r & d & _ & _ & _ & _ & Hr & Herr & _ &
          Hname & Hfr & Hem & Hemname & Hcases).
    exists r. unfold analyzeCurrentProfile, settle. rewrite Hr.
    split; [reflexivity|]. split; [reflexivity|].
    destruct Hcases as [(_ & Hc & Hp & Hn & _) | [(_ & _ & Hc & Hp & Hn & _) |
                         [(_ & _ & _ & Hc & Hp & Hn & _) | (_ & _ & _ & Hn & _ & _ & Hd)]]].
    + rewrite Hc, Hp, Hn. repeat split; [lia | exact Hname | eexists; reflexivity | exact Herr].
    + rewrite Hc, Hp, Hn. repeat split; [lia | exact Hname | eexists; reflexivity | exact Herr].
    + rewrite Hc, Hp, Hn. repeat split; [lia | exact Hname | eexists; reflexivity | exact Herr].
    + rewrite Hn. destruct Hd as [(_ & Hc & Hp) | (_ & Hc & Hp)]; rewrite Hc, Hp;
        (repeat split; [lia | exact Hemname | eexists; reflexivity | exact Herr]).
  - intros extraction. unfold settle. apply try_catch_returns.
    intros e. eexists. reflexivity.
  - intros message. reflexivity.
Qed.

(** C4, as the code has it. The script returns every record of the scan:
    when the scan found posts, [postCount] is the length of [posts], however
    long. When it found none and the fallback estimate is positive, [posts]
    holds the one record synthesized for it and [postCount] is that
    estimate, between 1 and 12. When it found none, the estimate is 0 and
    the name is still unknown, the emergency pass runs: with a positive
    score [posts] holds the one record synthesized for it and [postCount] is
    the score capped at 5, between 1 and 3. In every other case both are
    empty. *)
Theorem postCount_matches_scan now later :
  exists r ps report fr name,
    analyzeCurrentProfile parseDate jsonParse clock doc now later = Ok r /\
    posts r = Some ps /\
    findRecentPostsEnhanced parseDate clock doc (now - 24 * 60 * 60 * 1000) [] = Ok report /\
    performAdvancedFallbackDetection doc = Ok fr /\
    extractProfileNameEnhanced jsonParse doc = Ok name /\
    match sr_posts report with
    | _ :: _ =>
        ps = map displayPost (sr_posts report) /\
        postCount r = Z.of_nat (length ps)
    | [] =>
        if 0 <? count fr then
          ps = [displayPost (fallbackPost (details fr))] /\
          postCount r = count fr /\ 1 <= postCount r <= 12
        else if String.eqb name "Unknown" then
          exists em,
            performEmergencyAnalysis doc = Ok em /\
            if 0 <? activityScore em then
              ps = [displayPost emergencyPost] /\
              postCount r = Z.min (activityScore em) 5 /\ 1 <= postCount r <= 3
            else ps = [] /\ postCount r = 0
        else ps = [] /\ postCount r = 0
    end.
Proof.
  destruct (extractProfileData_cases now)
    as (name & report & fr & em & r & d & Hname & Hscan & Hfr & Hem & Hr & _ & _ &
        _ & Hfrange & Hemrange & _ & Hcases).
  assert (Hrun : analyzeCurrentProfile parseDate jsonParse clock doc now later = Ok r).
  { unfold analyzeCurrentProfile, settle. rewrite Hr. reflexivity. }
  destruct Hcases as [(Hne & Hc & Hp & _) | [(Hnil & Hpos & Hc & Hp & _) |
                       [(Hnil & Hzero & Hknown & Hc & Hp & _) |
                        (Hnil & Hzero & Hunknown & _ & _ & _ & Hd)]]].
  - exists r, (map displayPost (sr_posts report)), report, fr, name.
    repeat (split; [assumption|]).
    destruct (sr_posts report) as [|p rest]; [contradiction|].
    split; [reflexivity|]. rewrite Hc, length_map. reflexivity.
  - exists r, [displayPost (fallbackPost (details fr))], report, fr, name.
    repeat (split; [assumption|]). rewrite Hnil.
    replace (0 <? count fr) with true by (symmetry; apply Z.ltb_lt; exact Hpos).
    split; [reflexivity|]. split; [exact Hc | lia].
  - exists r, [], report, fr, name.
    repeat (split; [assumption|]). rewrite Hnil, Hzero.
    change (0 <? 0) with false. cbv iota.
    replace (String.eqb name "Unknown") with false
      by (symmetry; apply String.eqb_neq; exact Hknown).
    split; [reflexivity | exact Hc].
  - subst name.
    destruct Hd as [(Hpos & Hc & Hp) | (Hnone & Hc & Hp)].
    + exists r, [displayPost emergencyPost], report, fr, "Unknown".
      repeat (split; [assumption|]). rewrite Hnil, Hzero.
      change (0 <? 0) with false. change (String.eqb "Unknown" "Unknown") with true. cbv iota.
      exists em. split; [exact Hem|].
      replace (0 <? activityScore em) with true by (symmetry; apply Z.ltb_lt; exact Hpos).
      split; [reflexivity|]. split; [exact Hc | lia].
    + exists r, [], report, fr, "Unknown".
      repeat (split; [assumption|]). rewrite Hnil, Hzero.
      change (0 <? 0) with false. change (String.eqb "Unknown" "Unknown") with true. cbv iota.
      exists em. split; [exact Hem|]. rewrite Hnone.
      change (0 <? 0) with false. cbv iota. split; [reflexivity | exact Hc].
Qed.

(** C9, as the code has it. The emergency pass accepts a candidate exactly
    when the standard predicate accepts it and its length is above 3 and
    below 60, so what it accepts the standard predicate accepts too; and the
    pass runs exactly when, after the extractor, the scan and the estimator,
    the name is still unknown and the count is still 0. *)
Theorem emergency_check_is_stricter now later candidate :
  (emergencyNameCheck candidate = true <->
   (3 < String.length candidate < 60)%nat /\ isValidProfileName candidate = true) /\
  exists r d name report fr,
    analyzeCurrentProfile parseDate jsonParse clock doc now later = Ok r /\
    debug r = Debug d /\
    extractProfileNameEnhanced jsonParse doc = Ok name /\
    findRecentPostsEnhanced parseDate clock doc (now - 24 * 60 * 60 * 1000) [] = Ok report /\
    performAdvancedFallbackDetection doc = Ok fr /\
    (usedEmergencyAnalysis d = true <->
     name = "Unknown" /\ sr_posts report = [] /\ count fr = 0).
Proof.
  split.
  - unfold emergencyNameCheck. rewrite !andb_true_iff, !Nat.ltb_lt. tauto.
  - destruct (extractProfileData_cases now)
      as (name & report & fr & em & r & d & Hname & Hscan & Hfr & _ & Hr & _ & Hd &
          _ & _ & _ & _ & Hcases).
    exists r, d, name, report, fr.
    split; [unfold analyzeCurrentProfile, settle; rewrite Hr; reflexivity|].
    repeat (split; [assumption|]).
    destruct Hcases as [(Hne & _ & _ & _ & _ & Hused) | [(_ & Hpos & _ & _ & _ & _ & Hused) |
                         [(_ & _ & Hknown & _ & _ & _ & _ & Hused) |
                          (Hnil & Hzero & Hunknown & _ & _ & Hused & _)]]].
    + rewrite Hused. split; [discriminate | intros (_ & Hnil & _); contradiction].
    + rewrite Hused. split; [discriminate | intros (_ & _ & Hzero); lia].
    + rewrite Hused. split; [discriminate | intros (Hunknown & _); contradiction].
    + rewrite Hused. split; [intros _; auto | reflexivity].
Qed.
End Pipeline.

(** C4 as stated fails: on a page where the scan finds nothing and whose
    text holds three hour phrases, the estimate is 2 and [posts] holds the
    one synthesized record; [postCount] is not the length of [posts], and
    [posts] is not a list cut to 10. *)
Lemma postCount_matches_scan_counterexample :
  exists r ps,
    analyzeCurrentProfile fixtureDates noJson clockNow
      (plainPage "3 hours ago 4 hours ago 5 hours ago" EmptyString) clockNow clockNow = Ok r /\
    posts r = Some ps /\
    postCount r = 2 /\
    length ps = 1%nat /\
    postCount r <> Z.of_nat (length ps) /\
    length ps <> 10%nat.
Proof.
  eexists. eexists. split; [vm_compute; reflexivity|].
  split; [reflexivity|]. split; [reflexivity|]. split; [reflexivity|].
  split; [discriminate | discriminate].
Qed.

(** C9 as stated fails: the standard predicate accepts [Ann], the emergency
    pass does not. *)
Lemma emergency_check_is_stricter_counterexample :
  isValidProfileName "Ann" = true /\ emergencyNameCheck "Ann" = false.
Proof. split; vm_compute; reflexivity. Qed.

(** ** End to end *)

(** A page with one fragment, posted 2 hours ago, that holds an image, and
    the title Jane Doe | LinkedIn: one post, of type image, under the name
    Jane Doe. *)
Example end_to_end_image_post :
  (fun r => (postCount r, profileName r, posts r)) <$>
    (match analyzeCurrentProfile fixtureDates noJson clockNow imagePage clockNow clockNow with
     | Ok r => Some r
     | Throw _ => None
     end) =
  Some (1, "Jane Doe",
        Some [ {| text := "posted 2 hours ago"; time := "Text: 2 hours ago";
                  type := type_image; pr_details := None |} ]).
Proof. vm_compute. reflexivity. Qed.

(** The first title pattern splits at the separator followed by the site's
    name; a title with another site name is a valid name as a whole. *)
Example title_with_other_site :
  firstValidTrimmed (map (fun sep => splitHead sep "Jane Doe | Site") titleSeparators) =
  Some "Jane Doe | Site".
Proof. vm_compute. reflexivity. Qed.

(** A page without fragments whose text holds the phrases twice: a positive
    count from the estimator, and a first post of type fallback-detection. *)
Example end_to_end_fallback :
  (fun r => (postCount r, profileName r, map type <$> posts r)) <$>
    (match analyzeCurrentProfile fixtureDates noJson clockNow
             (plainPage
                "posted 3 hours ago ... liked 5 minutes ago posted 3 hours ago ... liked 5 minutes ago"
                EmptyString) clockNow clockNow with
     | Ok r => Some r
     | Throw _ => None
     end) =
  Some (3, "Jane Doe", Some [type_fallback_detection]).
Proof. vm_compute. reflexivity. Qed.

(** * Further properties *)

(** ** Strings *)

Lemma append_nil (b : string) : EmptyString ++ b = b.
Proof. reflexivity. Qed.

Lemma append_cons c (a b : string) : String c a ++ b = String c (a ++ b).
Proof. reflexivity. Qed.

Lemma append_empty_r (s : string) : s ++ EmptyString = s.
Proof.
  induction s as [|c s IH]; [reflexivity|]. rewrite append_cons, IH. reflexivity.
Qed.

Lemma append_assoc (a b c : string) : (a ++ b) ++ c = a ++ b ++ c.
Proof.
  induction a as [|x a IH]; [reflexivity|]. rewrite !append_cons, IH. reflexivity.
Qed.

Lemma length_append (a b : string) :
  String.length (a ++ b) = (String.length a + String.length b)%nat.
Proof.
  induction a as [|x a IH]; [reflexivity|].
  rewrite append_cons. cbn [String.length]. rewrite IH. reflexivity.
Qed.

Lemma strip_spec p s s' : strip p s = Some s' <-> s = p ++ s'.
Proof.
  revert s. induction p as [|a p IH]; intros s; cbn [strip].
  - rewrite append_nil. split; [intros [= ->]; reflexivity | intros ->; reflexivity].
  - rewrite append_cons. destruct s as [|b s]; [split; discriminate|].
    destruct (Ascii.eqb_spec a b) as [<-|Hne].
    + rewrite IH. split; [intros ->; reflexivity | intros [= ->]; reflexivity].
    + split; [discriminate | intros [= E _]; symmetry in E; contradiction].
Qed.

(** [includes] finds the needle exactly when the text can be cut around
    it. *)
Lemma includes_spec needle s :
  includes needle s = true <-> exists a b, s = a ++ needle ++ b.
Proof.
  induction s as [|c s IH].
  - cbn [includes]. destruct (strip needle EmptyString) as [r|] eqn:Hs.
    + split; [intros _|reflexivity]. apply strip_spec in Hs.
      exists EmptyString, r. exact Hs.
    + split; [discriminate|]. intros (a & b & H).
      destruct a as [|x a]; [|discriminate]. rewrite append_nil in H.
      apply strip_spec in H. congruence.
  - cbn [includes]. destruct (strip needle (String c s)) as [r|] eqn:Hs.
    + split; [intros _|reflexivity]. apply strip_spec in Hs.
      exists EmptyString, r. exact Hs.
    + rewrite IH. split.
      * intros (a & b & ->). exists (String c a), b. reflexivity.
      * intros (a & b & H). destruct a as [|x a].
        -- rewrite append_nil in H. apply strip_spec in H. congruence.
        -- rewrite append_cons in H. injection H as -> ->. exists a, b. reflexivity.
Qed.

Lemma includes_trans a b s :
  includes a b = true -> includes b s = true -> includes a s = true.
Proof.
  rewrite !includes_spec. intros (a1 & a2 & ->) (b1 & b2 & ->).
  exists (b1 ++ a1), (a2 ++ b2). rewrite !append_assoc. reflexivity.
Qed.

Lemma includes_false_strip needle s :
  includes needle s = false -> strip needle s = None.
Proof.
  destruct s as [|c s]; cbn [includes].
  - destruct (strip needle EmptyString); [discriminate | reflexivity].
  - destruct (strip needle (String c s)); [discriminate | reflexivity].
Qed.

(** Without the separator in it, a text is its own first segment. *)
Lemma splitHead_absent sep s : includes sep s = false -> splitHead sep s = s.
Proof.
  induction s as [|c s IH]; cbn [includes splitHead].
  - destruct (strip sep EmptyString); [discriminate | reflexivity].
  - destruct (strip sep (String c s)); [discriminate|].
    intros H. rewrite IH by exact H. reflexivity.
Qed.

Lemma substring0_length n s :
  String.length (substring0 n s) = Nat.min n (String.length s).
Proof.
  unfold substring0. revert s. induction n as [|n IH]; intros [|c s]; simpl; try reflexivity.
  rewrite IH. reflexivity.
Qed.

Lemma substring0_all n s : (String.length s <= n)%nat -> substring0 n s = s.
Proof.
  unfold substring0. revert s. induction n as [|n IH]; intros [|c s]; simpl; try reflexivity.
  - lia.
  - intros H. rewrite IH by lia. reflexivity.
Qed.

Lemma substring0_app n a b :
  substring0 n (a ++ b) = substring0 n a ++ substring0 (n - String.length a) b.
Proof.
  unfold substring0. revert a. induction n as [|n IH]; intros [|c a];
    rewrite ?append_nil, ?append_cons; cbn [String.substring String.length Nat.sub];
    rewrite ?append_nil, ?append_cons; try reflexivity.
  - destruct b; reflexivity.
  - rewrite IH. reflexivity.
Qed.

Lemma substring0_substring0 n m s :
  (n <= m)%nat -> substring0 n (substring0 m s) = substring0 n s.
Proof.
  unfold substring0. revert m s. induction n as [|n IH]; intros [|m] [|c s] H; simpl; try reflexivity; try lia.
  rewrite IH by lia. reflexivity.
Qed.

Lemma substring0_0 s : substring0 0 s = EmptyString.
Proof. destruct s; reflexivity. Qed.

Lemma lower_char_idem c : lower_char (lower_char c) = lower_char c.
Proof.
  destruct c as [[] [] [] [] [] [] [] []]; vm_compute; reflexivity.
Qed.

Lemma toLowerCase_cons c s :
  toLowerCase (String c s) = String (lower_char c) (toLowerCase s).
Proof. reflexivity. Qed.

Lemma toLowerCase_idem s : toLowerCase (toLowerCase s) = toLowerCase s.
Proof.
  induction s as [|c s IH]; [reflexivity|].
  rewrite !toLowerCase_cons, lower_char_idem, IH. reflexivity.
Qed.

Lemma toLowerCase_length s : String.length (toLowerCase s) = String.length s.
Proof.
  induction s as [|c s IH]; [reflexivity|].
  rewrite toLowerCase_cons. cbn [String.length]. rewrite IH. reflexivity.
Qed.

Lemma trimStart_clean s :
  match trimStart s with
  | String c _ => is_space c = false
  | EmptyString => True
  end.
Proof.
  induction s as [|c s IH]; simpl; [exact I|].
  destruct (is_space c) eqn:Hc; [exact IH | exact Hc].
Qed.

Lemma trimStart_fixed s :
  match s with
  | String c _ => is_space c = false
  | EmptyString => True
  end -> trimStart s = s.
Proof. destruct s as [|c s]; simpl; [reflexivity|]. intros ->. reflexivity. Qed.

Lemma trimEnd_cons c s :
  trimEnd (String c s) =
  match trimEnd s with
  | EmptyString => if is_space c then EmptyString else String c EmptyString
  | t => String c t
  end.
Proof. reflexivity. Qed.

Lemma trimEnd_idem s : trimEnd (trimEnd s) = trimEnd s.
Proof.
  induction s as [|c s IH]; [reflexivity|].
  rewrite (trimEnd_cons c s).
  destruct (trimEnd s) as [|d t] eqn:Ht.
  - destruct (is_space c) eqn:Hc; [reflexivity|].
    rewrite trimEnd_cons. cbn [trimEnd]. rewrite Hc. reflexivity.
  - rewrite trimEnd_cons, IH. reflexivity.
Qed.

Lemma trimEnd_clean s :
  match s with
  | String c _ => is_space c = false
  | EmptyString => True
  end ->
  match trimEnd s with
  | String c _ => is_space c = false
  | EmptyString => True
  end.
Proof.
  destruct s as [|c s]; [trivial|]. intros Hc. rewrite trimEnd_cons.
  destruct (trimEnd s); [rewrite Hc|]; exact Hc.
Qed.

(** Trimming twice is trimming once. *)
Lemma trim_idem s : trim (trim s) = trim s.
Proof.
  unfold trim.
  rewrite (trimStart_fixed (trimEnd (trimStart s))).
  - apply trimEnd_idem.
  - apply trimEnd_clean, trimStart_clean.
Qed.

(** ** The matcher *)

Lemma consumed_prefix pre t : consumed (pre ++ t) t = pre.
Proof.
  unfold consumed. rewrite length_append.
  replace (String.length pre + String.length t - String.length t)%nat
    with (String.length pre) by lia.
  rewrite substring0_app, Nat.sub_diag, substring0_0, append_empty_r.
  apply substring0_all. lia.
Qed.

Lemma toLowerCase_app a b : toLowerCase (a ++ b) = toLowerCase a ++ toLowerCase b.
Proof.
  induction a as [|c a IH]; [reflexivity|].
  rewrite append_cons, !toLowerCase_cons, append_cons, IH. reflexivity.
Qed.

(** A literal is matched against a prefix that is the literal, up to case
    under the [i] flag. *)
Lemma strip_lit_spec icase l s s' :
  strip_lit icase l s = Some s' ->
  exists pre, s = pre ++ s' /\
    (if icase then toLowerCase pre = toLowerCase l else pre = l).
Proof.
  revert s. induction l as [|a l IH]; intros s; cbn [strip_lit].
  - intros [= ->]. exists EmptyString. split; [reflexivity|]. destruct icase; reflexivity.
  - destruct s as [|b s]; [discriminate|].
    destruct icase.
    + destruct (Ascii.eqb_spec (lower_char a) (lower_char b)) as [E|]; [|discriminate].
      intros H. destruct (IH _ H) as (pre & -> & Hpre).
      exists (String b pre). split; [reflexivity|].
      rewrite !toLowerCase_cons, Hpre, E. reflexivity.
    + destruct (Ascii.eqb_spec a b) as [<-|]; [|discriminate].
      intros H. destruct (IH _ H) as (pre & -> & ->).
      exists (String a l). split; reflexivity.
Qed.

Section MatcherFacts.
Context {R : Type}.

Lemma star_suffix p s (k : string -> option R) x :
  star p s k = Some x -> exists pre t, s = pre ++ t /\ k t = Some x.
Proof.
  induction s as [|c s IH]; cbn [star]; intros H.
  - exists EmptyString, EmptyString. split; [reflexivity | exact H].
  - destruct (p c).
    + destruct (star p s k) as [y|] eqn:Hs.
      * injection H as ->. destruct (IH eq_refl) as (pre & t & -> & Hk).
        exists (String c pre), t. split; [reflexivity | exact Hk].
      * exists EmptyString, (String c s). split; [reflexivity | exact H].
    + exists EmptyString, (String c s). split; [reflexivity | exact H].
Qed.

Lemma rep_suffix p lo hi s (k : string -> option R) x :
  rep p lo hi s k = Some x -> exists pre t, s = pre ++ t /\ k t = Some x.
Proof.
  revert lo s. induction hi as [|hi IH]; intros lo s; cbn [rep]; intros H.
  - destruct (lo =? 0)%nat; [|discriminate].
    exists EmptyString, s. split; [reflexivity | exact H].
  - assert (Hstop : (if (lo =? 0)%nat then k s else None) = Some x ->
                    exists pre t, s = pre ++ t /\ k t = Some x).
    { destruct (lo =? 0)%nat; [|discriminate]. intros Hk.
      exists EmptyString, s. split; [reflexivity | exact Hk]. }
    destruct s as [|c s]; [exact (Hstop H)|].
    destruct (p c); [|exact (Hstop H)].
    destruct (rep p (Nat.pred lo) hi s k) as [y|] eqn:Hr; [|exact (Hstop H)].
    injection H as ->. destruct (IH _ _ Hr) as (pre & t & -> & Hk).
    exists (String c pre), t. split; [reflexivity | exact Hk].
Qed.

Lemma alts_suffix icase l s (k : string -> string -> option R) x :
  alts icase l s k = Some x -> exists a pre t, s = pre ++ t /\ k a t = Some x.
Proof.
  induction l as [|a l IH]; cbn [alts]; [discriminate|].
  destruct (strip_lit icase a s) as [s'|] eqn:Hs.
  - destruct (k a s') as [y|] eqn:Hk.
    + intros [= ->]. destruct (strip_lit_spec _ _ _ _ Hs) as (pre & -> & _).
      exists a, pre, s'. split; [reflexivity | exact Hk].
    + exact IH.
  - exact IH.
Qed.

(** Whatever way a pattern matches, its continuation runs on a suffix of
    the input. *)
Lemma run_suffix icase r s cap (k : string -> option string -> option R) x :
  run icase r s cap k = Some x ->
  exists pre t cap', s = pre ++ t /\ k t cap' = Some x.
Proof.
  revert s cap k. induction r as [l|c|c|c|c lo hi|r IH|capture l|r IH|r1 IH1 r2 IH2|];
    intros s cap k; cbn [run]; intros H.
  - destruct (strip_lit icase l s) as [s'|] eqn:Hs; [|discriminate].
    destruct (strip_lit_spec _ _ _ _ Hs) as (pre & -> & _). eauto.
  - destruct s as [|a s]; [discriminate|]. destruct (in_cset icase c a); [|discriminate].
    exists (String a EmptyString), s, cap. split; [reflexivity | exact H].
  - destruct (star_suffix _ _ _ _ H) as (pre & t & -> & Hk). eauto.
  - destruct s as [|a s]; [discriminate|]. destruct (in_cset icase c a); [|discriminate].
    destruct (star_suffix _ _ _ _ H) as (pre & t & -> & Hk).
    exists (String a pre), t, cap. split; [reflexivity | exact Hk].
  - destruct (rep_suffix _ _ _ _ _ _ H) as (pre & t & -> & Hk). eauto.
  - destruct (run icase r s cap k) as [y|] eqn:Hr.
    + injection H as ->. exact (IH _ _ _ Hr).
    + exists EmptyString, s, cap. split; [reflexivity | exact H].
  - destruct (alts_suffix _ _ _ _ _ H) as (a & pre & t & -> & Hk). eauto.
  - destruct (IH _ _ _ H) as (pre & t & cap' & -> & Hk). eauto.
  - destruct (IH1 _ _ _ H) as (pre & t & cap' & -> & H2).
    destruct (IH2 _ _ _ H2) as (pre' & t' & cap'' & -> & Hk).
    exists (pre ++ pre'), t', cap''. split; [rewrite append_assoc; reflexivity | exact Hk].
  - destruct s; [|discriminate]. exists EmptyString, EmptyString, cap.
    split; [reflexivity | exact H].
Qed.
End MatcherFacts.

(** A match at the front of a text is a prefix of it. *)
Lemma match_here_spec p s m rest :
  match_here p s = Some (m, rest) -> s = m0 m ++ rest.
Proof.
  unfold match_here.
  destruct (run (rx_icase p) (rx_body p) s None (fun s' cap => Some (s', cap)))
    as [[s' cap]|] eqn:Hr; [|discriminate].
  intros [= <- <-].
  destruct (run_suffix _ _ _ _ _ _ Hr) as (pre & t & cap' & -> & [= -> ->]).
  cbn [m0]. rewrite consumed_prefix. reflexivity.
Qed.

Lemma search_spec p s m :
  search p s = Some m -> exists pre post, s = pre ++ m0 m ++ post.
Proof.
  induction s as [|c s IH]; cbn [search].
  - destruct (match_here p EmptyString) as [[m' rest]|] eqn:Hm; [|discriminate].
    intros [= ->]. apply match_here_spec in Hm. exists EmptyString, rest. exact Hm.
  - destruct (match_here p (String c s)) as [[m' rest]|] eqn:Hm.
    + intros [= ->]. apply match_here_spec in Hm. exists EmptyString, rest. exact Hm.
    + intros H. destruct (IH H) as (pre & post & ->).
      exists (String c pre), post. reflexivity.
Qed.

(** What [match] returns is a piece of the text. *)
Lemma exec_spec p s m :
  exec p s = Some m -> exists pre post, s = pre ++ m0 m ++ post.
Proof.
  unfold exec. destruct (rx_bol p); [|apply search_spec].
  destruct (match_here p s) as [[m' rest]|] eqn:Hm; [|discriminate].
  intros [= ->]. apply match_here_spec in Hm. exists EmptyString, rest. exact Hm.
Qed.

(** ** Name validation *)

Lemma valid_trim name : isValidProfileName (trim name) = isValidProfileName name.
Proof.
  unfold isValidProfileName.
  destruct (String.eqb_spec name EmptyString) as [->|Hname]; [reflexivity|].
  destruct (String.eqb_spec (trim name) EmptyString) as [Hempty|Hfull].
  - rewrite Hempty. reflexivity.
  - rewrite trim_idem. reflexivity.
Qed.

(** X1. Validation looks at the trimmed candidate only: a candidate and its
    trimmed form are accepted or rejected together. *)
Theorem isValidProfileName_trim name :
  isValidProfileName (trim name) = isValidProfileName name.
Proof. apply valid_trim. Qed.

(** ** Relative-time phrases *)

Lemma parseTimeLoop_inv ps content r :
  parseTimeLoop ps content = Some r ->
  exists p m,
    In p ps /\
    exec (pattern p) content = Some m /\
    r = {| isRecent := true; timeStr := "Text: " ++ m0 m |} /\
    (is_days (rp_unit p) || includes "yesterday" (source (pattern p)) = true \/
     parseIntOr1 (m1 m) <= maxValue p).
Proof.
  induction ps as [|p ps IH]; cbn [parseTimeLoop]; [discriminate|].
  assert (Hrest : parseTimeLoop ps content = Some r ->
            exists p0 m, In p0 (p :: ps) /\ exec (pattern p0) content = Some m /\
              r = {| isRecent := true; timeStr := "Text: " ++ m0 m |} /\
              (is_days (rp_unit p0) || includes "yesterday" (source (pattern p0)) = true \/
               parseIntOr1 (m1 m) <= maxValue p0)).
  { intros H. destruct (IH H) as (p0 & m & Hin & Hrest). exists p0, m.
    split; [right; exact Hin | exact Hrest]. }
  destruct (exec (pattern p) content) as [m|] eqn:Hexec; [|exact Hrest].
  destruct (is_days (rp_unit p) || includes "yesterday" (source (pattern p))) eqn:Hdays.
  - intros [= <-]. exists p, m. split; [left; reflexivity|].
    split; [exact Hexec|]. split; [reflexivity|]. left. exact Hdays.
  - destruct (parseIntOr1 (m1 m) <=? maxValue p) eqn:Hle; [|exact Hrest].
    intros [= <-]. exists p, m. split; [left; reflexivity|].
    split; [exact Hexec|]. split; [reflexivity|]. right. apply Z.leb_le, Hle.
Qed.

(** X2. A result of the text parser is always a recent one; it comes from a
    pattern of the table that matched the lowercased text, a day pattern or
    one whose number (with 0 and a missing number read as 1) is within the
    pattern's bound; and its label is the prefix Text: followed by the
    matched piece of the lowercased text. *)
Theorem parseTimeFromText_sound content r :
  parseTimeFromText content = Some r ->
  isRecent r = true /\
  exists p m before after,
    In p recentPatterns /\
    exec (pattern p) (toLowerCase content) = Some m /\
    (rp_unit p = Days \/ parseIntOr1 (m1 m) <= maxValue p) /\
    timeStr r = "Text: " ++ m0 m /\
    toLowerCase content = before ++ m0 m ++ after.
Proof.
  intros H. split; [exact (parseTimeFromText_recent _ _ H)|].
  unfold parseTimeFromText in H.
  destruct (parseTimeLoop_inv _ _ _ H) as (p & m & Hin & Hexec & -> & Hbound).
  destruct (exec_spec _ _ _ Hexec) as (before & after & Htext).
  exists p, m, before, after.
  split; [exact Hin|]. split; [exact Hexec|]. split; [|split; [reflexivity | exact Htext]].
  destruct Hbound as [Hdays|Hle]; [|right; exact Hle].
  left. revert Hdays. clear -Hin. unfold recentPatterns in Hin. cbn [In] in Hin.
  repeat (destruct Hin as [<-|Hin]; [vm_compute; first [reflexivity | discriminate]|]).
  destruct Hin.
Qed.

Lemma parseTimeFromText_sound_witness :
  exists p m before after,
    In p recentPatterns /\
    exec (pattern p) (toLowerCase "Jane shared this 3 hours ago") = Some m /\
    (rp_unit p = Days \/ parseIntOr1 (m1 m) <= maxValue p) /\
    timeStr {| isRecent := true; timeStr := "Text: 3 hours ago" |} = "Text: " ++ m0 m /\
    toLowerCase "Jane shared this 3 hours ago" = before ++ m0 m ++ after.
Proof.
  refine (proj2 (parseTimeFromText_sound "Jane shared this 3 hours ago"
                   {| isRecent := true; timeStr := "Text: 3 hours ago" |} _)).
  vm_compute. reflexivity.
Defined.

Lemma run_seq_inv {R : Type} icase a b s cap (k : string -> option string -> option R) x :
  run icase (a ⋅ b) s cap k = Some x ->
  exists pre t cap', s = pre ++ t /\ run icase b t cap' k = Some x.
Proof. cbn [run]. intros H. exact (run_suffix _ _ _ _ _ _ H). Qed.

Lemma run_lit_inv {R : Type} l s cap (k : string -> option string -> option R) x :
  run false (Lit l) s cap k = Some x -> exists t, s = l ++ t.
Proof.
  cbn [run]. destruct (strip_lit false l s) as [s'|] eqn:Hs; [|discriminate].
  intros _. destruct (strip_lit_spec _ _ _ _ Hs) as (pre & -> & ->). eauto.
Qed.

Lemma run_lit_eol_inv {R : Type} l s cap (k : string -> option string -> option R) x :
  run false (Lit l ⋅ Eol) s cap k = Some x -> s = l.
Proof.
  cbn [run]. destruct (strip_lit false l s) as [s'|] eqn:Hs; [|discriminate].
  destruct (strip_lit_spec _ _ _ _ Hs) as (pre & -> & ->).
  destruct s'; [|discriminate]. intros _. apply append_empty_r.
Qed.

Lemma match_here_run p t :
  match_here p t = None \/
  exists y, run (rx_icase p) (rx_body p) t None (fun s' cap => Some (s', cap)) = Some y.
Proof.
  unfold match_here.
  destruct (run (rx_icase p) (rx_body p) t None (fun s' cap => Some (s', cap))) as [[s' cap]|];
    [right; eauto | left; reflexivity].
Qed.

Lemma search_inv p s m :
  search p s = Some m ->
  exists pre t y,
    s = pre ++ t /\
    run (rx_icase p) (rx_body p) t None (fun s' cap => Some (s', cap)) = Some y.
Proof.
  induction s as [|c s IH]; cbn [search].
  - destruct (match_here_run p EmptyString) as [Hnone|(y & Hy)].
    + rewrite Hnone. discriminate.
    + intros _. exists EmptyString, EmptyString, y. split; [reflexivity | exact Hy].
  - destruct (match_here_run p (String c s)) as [Hnone|(y & Hy)].
    + rewrite Hnone. intros H. destruct (IH H) as (pre & t & y & -> & Hy).
      exists (String c pre), t, y. split; [reflexivity | exact Hy].
    + intros _. exists EmptyString, (String c s), y. split; [reflexivity | exact Hy].
Qed.

Lemma includes_app_r needle pre t :
  includes needle t = true -> includes needle (pre ++ t) = true.
Proof.
  rewrite !includes_spec. intros (a & b & ->). exists (pre ++ a), b.
  rewrite append_assoc. reflexivity.
Qed.

Lemma includes_prefix needle t : includes needle (needle ++ t) = true.
Proof. apply includes_spec. exists EmptyString, t. reflexivity. Qed.

Lemma ends_app (e pre t : string) :
  (exists a, t = a ++ e) -> exists a, pre ++ t = a ++ e.
Proof. intros (a & ->). exists (pre ++ a). rewrite append_assoc. reflexivity. Qed.

(** The wording every pattern of the table asks for. *)
Lemma recentPattern_wording p text m :
  In p recentPatterns ->
  exec (pattern p) text = Some m ->
  toLowerCase text = text ->
  includes "ago" text = true \/ includes "yesterday" text = true \/
  (exists a, text = a ++ "h") \/ (exists a, text = a ++ "m").
Proof.
  intros Hin Hexec Hlow. unfold recentPatterns in Hin. cbn [In] in Hin.
  repeat (destruct Hin as [<-|Hin];
          [unfold exec in Hexec; cbn [pattern rx rxi rx_bol] in Hexec;
           apply search_inv in Hexec; destruct Hexec as (pre & t & y & Htext & Hrun);
           cbn [rx rxi rx_icase rx_body digits ws] in Hrun|]);
    [..|destruct Hin].
  all: try (repeat (apply run_seq_inv in Hrun;
                    let q := fresh "q" in let u := fresh "u" in
                    destruct Hrun as (q & u & ? & -> & Hrun));
            apply run_lit_inv in Hrun; destruct Hrun as (u' & ->);
            left; rewrite Htext;
            repeat first [apply includes_prefix | apply includes_app_r]).
  - (* yesterday, under the i flag *)
    right. left. cbn [run] in Hrun.
    destruct (strip_lit true "yesterday" t) as [s'|] eqn:Hs; [|discriminate Hrun].
    destruct (strip_lit_spec _ _ _ _ Hs) as (q & -> & Hq).
    rewrite <- Hlow, Htext, !toLowerCase_app, Hq.
    apply includes_app_r, includes_prefix.
  - right. right. left.
    do 2 (apply run_seq_inv in Hrun; destruct Hrun as (? & ? & ? & -> & Hrun)).
    apply run_lit_eol_inv in Hrun. subst.
    repeat first [(exists EmptyString; reflexivity) | apply ends_app].
  - right. right. right.
    do 2 (apply run_seq_inv in Hrun; destruct Hrun as (? & ? & ? & -> & Hrun)).
    apply run_lit_eol_inv in Hrun. subst.
    repeat first [(exists EmptyString; reflexivity) | apply ends_app].
Qed.

(** X3. The text parser asks for the wording of a relative time: a text is
    recent only if, in lower case, it contains ago or yesterday, or ends in
    h or m. *)
Theorem parseTimeFromText_wording content r :
  parseTimeFromText content = Some r ->
  includes "ago" (toLowerCase content) = true \/
  includes "yesterday" (toLowerCase content) = true \/
  (exists a, toLowerCase content = a ++ "h") \/
  (exists a, toLowerCase content = a ++ "m").
Proof.
  intros H. unfold parseTimeFromText in H.
  destruct (parseTimeLoop_inv _ _ _ H) as (p & m & Hin & Hexec & _).
  exact (recentPattern_wording p _ m Hin Hexec (toLowerCase_idem content)).
Qed.

Lemma parseTimeFromText_wording_witness :
  includes "ago" (toLowerCase "Jane shared this 3 hours ago") = true \/
  includes "yesterday" (toLowerCase "Jane shared this 3 hours ago") = true \/
  (exists a, toLowerCase "Jane shared this 3 hours ago" = a ++ "h") \/
  (exists a, toLowerCase "Jane shared this 3 hours ago" = a ++ "m").
Proof.
  refine (parseTimeFromText_wording "Jane shared this 3 hours ago"
            {| isRecent := true; timeStr := "Text: 3 hours ago" |} _).
  vm_compute. reflexivity.
Defined.

(** *** The first accepted match *)

Lemma is_digit_cases c :
  is_digit c = true ->
  c = "0"%char \/ c = "1"%char \/ c = "2"%char \/ c = "3"%char \/ c = "4"%char \/
  c = "5"%char \/ c = "6"%char \/ c = "7"%char \/ c = "8"%char \/ c = "9"%char.
Proof.
  destruct c as [[] [] [] [] [] [] [] []]; vm_compute; intros H;
    first [discriminate H | tauto].
Qed.

(** One turn of the loop, by the outcome of the pattern. *)
Lemma parseTimeLoop_step p ps text :
  parseTimeLoop (p :: ps) text =
  match outcome p text with
  | Some m => Some {| isRecent := true; timeStr := "Text: " ++ m0 m |}
  | None => parseTimeLoop ps text
  end.
Proof.
  cbn [parseTimeLoop]. unfold outcome, accepted.
  destruct (exec (pattern p) text) as [m|]; [|reflexivity].
  destruct (is_days (rp_unit p) || includes "yesterday" (source (pattern p)));
    [reflexivity|].
  cbn [orb]. destruct (parseIntOr1 (m1 m) <=? maxValue p); reflexivity.
Qed.

(** The loop answers with the first pattern that has an outcome. *)
Lemma parseTimeLoop_Some ps text r :
  parseTimeLoop ps text = Some r <->
  exists before p after m,
    ps = (before ++ p :: after)%list /\
    Forall (fun q => outcome q text = None) before /\
    outcome p text = Some m /\
    r = {| isRecent := true; timeStr := "Text: " ++ m0 m |}.
Proof.
  induction ps as [|p ps IH].
  - split; [discriminate|]. intros (before & q & after & m & E & _).
    destruct before; discriminate E.
  - rewrite parseTimeLoop_step. destruct (outcome p text) as [m|] eqn:Hp.
    + split.
      * intros [= <-]. exists [], p, ps, m. repeat split; [constructor | exact Hp].
      * intros (before & q & after & m' & E & Hb & Hq & ->).
        destruct before as [|b before]; cbn [app] in E; injection E as <- E.
        -- rewrite Hp in Hq. injection Hq as <-. reflexivity.
        -- apply Forall_cons in Hb as [Hb _]. rewrite Hp in Hb. discriminate Hb.
    + rewrite IH. split.
      * intros (before & q & after & m & -> & Hb & Hq & ->).
        exists (p :: before), q, after, m. repeat split; [|exact Hq].
        constructor; assumption.
      * intros (before & q & after & m & E & Hb & Hq & ->).
        destruct before as [|b before]; cbn [app] in E; injection E as <- E.
        -- rewrite Hp in Hq. discriminate Hq.
        -- apply Forall_cons in Hb as [_ Hb].
           exists before, q, after, m. repeat split; assumption.
Qed.

Lemma parseTimeLoop_None ps text :
  parseTimeLoop ps text = None <-> Forall (fun q => outcome q text = None) ps.
Proof.
  induction ps as [|p ps IH]; [split; [constructor | reflexivity]|].
  rewrite parseTimeLoop_step, Forall_cons.
  destruct (outcome p text) as [m|]; [split; [discriminate | intros [[=] _]]|].
  rewrite IH. tauto.
Qed.

(** *** Phrases with a number *)

Section NumberPhrases.
Context {R : Type}.

(** The greedy [\d*] over a run of digits, before a continuation that
    fails at a digit: only the whole run is left. *)
Lemma star_digits ds t (k : string -> option R) :
  all_digits ds = true ->
  after_digits t ->
  (forall c s, is_digit c = true -> k (String c s) = None) ->
  star is_digit (ds ++ t) k = k t.
Proof.
  intros Hds Ht Hk. induction ds as [|d ds IH].
  - rewrite append_nil. destruct t as [|c t]; [reflexivity|].
    cbn [star]. cbn [after_digits] in Ht. rewrite Ht. reflexivity.
  - cbn [all_digits] in Hds. apply andb_true_iff in Hds as [Hd Hds].
    rewrite append_cons; cbn [star]. rewrite Hd, (IH Hds).
    destruct (k t) eqn:Hkt; [reflexivity|]. apply Hk, Hd.
Qed.
End NumberPhrases.

Lemma digits_run rest d ds t :
  is_digit d = true -> all_digits ds = true -> after_digits t ->
  rejects_digit rest ->
  run false (digits ⋅ rest) (String d (ds ++ t)) None here =
  run false rest t (Some (String d ds)) here.
Proof.
  intros Hd Hds Ht Hrej. cbn [run digits in_cset]. rewrite Hd.
  rewrite (star_digits ds t) by (try assumption; intros c s Hc; apply Hrej, Hc).
  change (String d (ds ++ t)) with (String d ds ++ t).
  rewrite consumed_prefix. reflexivity.
Qed.

Lemma consumed_all s : consumed s EmptyString = s.
Proof.
  rewrite <- (append_empty_r s) at 1. apply consumed_prefix.
Qed.

(** A pattern that starts with the number and whose rest fails on the
    phrase: no match in the number and the phrase. *)
Lemma search_number_none rest t :
  rejects_digit rest -> after_digits t ->
  (forall cap, run false rest t cap here = None) ->
  search (rx (digits ⋅ rest)) t = None ->
  forall ds, all_digits ds = true -> search (rx (digits ⋅ rest)) (ds ++ t) = None.
Proof.
  intros Hrej Ht Hrun Hs ds Hds. induction ds as [|d ds IH]; [exact Hs|].
  cbn [all_digits] in Hds. apply andb_true_iff in Hds as [Hd Hds].
  rewrite ?append_cons; cbn [search]. unfold match_here. cbn [rx rx_icase rx_body].
  fold here. rewrite digits_run, Hrun by assumption. apply IH, Hds.
Qed.

(** A pattern that starts with the number and whose rest is the phrase:
    the match is the whole text, the number the whole run of digits. *)
Lemma search_number_match rest t :
  rejects_digit rest -> after_digits t ->
  (forall cap, run false rest t cap here = Some (EmptyString, cap)) ->
  forall d ds, is_digit d = true -> all_digits ds = true ->
    search (rx (digits ⋅ rest)) (String d ds ++ t) =
    Some {| m0 := String d ds ++ t; m1 := Some (String d ds) |}.
Proof.
  intros Hrej Ht Hrun d ds Hd Hds.
  rewrite ?append_cons; cbn [search]. unfold match_here. cbn [rx rx_icase rx_body].
  fold here. rewrite digits_run, Hrun by assumption.
  rewrite consumed_all. reflexivity.
Qed.

(** A pattern that cannot start at a digit and has no match in the phrase:
    no match in the number and the phrase. *)
Lemma search_word_none p t :
  (forall d s, is_digit d = true -> match_here p (String d s) = None) ->
  search p t = None ->
  forall ds, all_digits ds = true -> search p (ds ++ t) = None.
Proof.
  intros Hh Hs ds Hds. induction ds as [|d ds IH]; [exact Hs|].
  cbn [all_digits] in Hds. apply andb_true_iff in Hds as [Hd Hds].
  rewrite ?append_cons; cbn [search]. rewrite (Hh d _ Hd). apply IH, Hds.
Qed.

Ltac by_digit c H :=
  destruct (is_digit_cases c H) as [->|[->|[->|[->|[->|[->|[->|[->|[->| ->]]]]]]]]].

Lemma oneDay_here_digits d d' s :
  is_digit d = true -> is_digit d' = true ->
  match_here oneDay (String d (String d' s)) = None.
Proof.
  intros Hd Hd'. by_digit d Hd; by_digit d' Hd'; reflexivity.
Qed.

Lemma oneDay_none t :
  (forall d, is_digit d = true -> match_here oneDay (String d t) = None) ->
  search oneDay t = None ->
  forall ds, all_digits ds = true -> search oneDay (ds ++ t) = None.
Proof.
  intros Hh Hs ds Hds. induction ds as [|d ds IH]; [exact Hs|].
  cbn [all_digits] in Hds. apply andb_true_iff in Hds as [Hd Hds].
  rewrite ?append_cons; cbn [search].
  assert (E : match_here oneDay (String d (ds ++ t)) = None).
  { destruct ds as [|d' ds]; [apply Hh, Hd|].
    cbn [all_digits] in Hds. apply andb_true_iff in Hds as [Hd' _].
    apply oneDay_here_digits; assumption. }
  rewrite E. apply IH, Hds.
Qed.

Lemma oneDay_day d ds :
  is_digit d = true -> all_digits ds = true ->
  search oneDay (String d ds ++ " day ago") =
  if bool_decide (last_char (String d ds) = Some "1"%char)
  then Some {| m0 := "1 day ago"; m1 := None |}
  else None.
Proof.
  revert d. induction ds as [|d' ds IH]; intros d Hd Hds.
  - by_digit d Hd; vm_compute; reflexivity.
  - cbn [all_digits] in Hds. apply andb_true_iff in Hds as [Hd' Hds].
    rewrite (append_cons d). cbn [search]. rewrite (append_cons d').
    rewrite oneDay_here_digits by assumption.
    rewrite <- (append_cons d'), (IH d' Hd' Hds). reflexivity.
Qed.

Lemma toLowerCase_digits ds : all_digits ds = true -> toLowerCase ds = ds.
Proof.
  induction ds as [|d ds IH]; [reflexivity|]. cbn [all_digits].
  intros H. apply andb_true_iff in H as [Hd Hds].
  rewrite toLowerCase_cons, (IH Hds). f_equal. by_digit d Hd; reflexivity.
Qed.

Lemma outcome_none p text : exec (pattern p) text = None -> outcome p text = None.
Proof. unfold outcome. intros ->. reflexivity. Qed.

(** A pattern of the table without a match in a number and a phrase. *)
Ltac no_match :=
  unfold exec; cbn [pattern rx rxi rx_bol];
  first
    [ apply search_number_none;
      [ intros c s cap Hc; by_digit c Hc; reflexivity
      | reflexivity
      | intros cap; reflexivity
      | reflexivity
      | assumption ]
    | apply oneDay_none;
      [ intros c Hc; by_digit c Hc; reflexivity
      | reflexivity
      | assumption ]
    | apply search_word_none;
      [ intros c s Hc; by_digit c Hc; reflexivity
      | reflexivity
      | assumption ] ].

Ltac next_pattern := rewrite parseTimeLoop_step, outcome_none by no_match.

Ltac this_pattern :=
  rewrite parseTimeLoop_step; unfold outcome at 1, exec; cbn [pattern rx rxi rx_bol].

Section Phrases.
Variables (d : ascii) (ds : string).
Hypothesis Hd : is_digit d = true.
Hypothesis Hds : all_digits ds = true.

Let Hnumber : all_digits (String d ds) = true.
Proof. cbn [all_digits]. rewrite Hd, Hds. reflexivity. Qed.

Lemma hours_phrase :
  parseTimeLoop recentPatterns (String d ds ++ " hours ago") =
  if parseIntOr1 (Some (String d ds)) <=? 24
  then Some {| isRecent := true; timeStr := "Text: " ++ String d ds ++ " hours ago" |}
  else None.
Proof.
  unfold recentPatterns. next_pattern. this_pattern.
  rewrite search_number_match;
    [ | intros c s cap Hc; by_digit c Hc; reflexivity | reflexivity
      | intros cap; reflexivity | exact Hd | exact Hds ].
  unfold accepted. cbn [rp_unit is_days m1 m0 maxValue orb].
  match goal with
  | |- context [includes ?a (source ?p)] =>
      let b := eval vm_compute in (includes a (source p)) in
      change (includes a (source p)) with b
  end.
  cbn [orb]. destruct (parseIntOr1 (Some (String d ds)) <=? 24); [reflexivity|].
  do 10 next_pattern. reflexivity.
Qed.

Lemma minutes_phrase :
  parseTimeLoop recentPatterns (String d ds ++ " minutes ago") =
  if parseIntOr1 (Some (String d ds)) <=? 1440
  then Some {| isRecent := true; timeStr := "Text: " ++ String d ds ++ " minutes ago" |}
  else None.
Proof.
  unfold recentPatterns. this_pattern.
  rewrite search_number_match;
    [ | intros c s cap Hc; by_digit c Hc; reflexivity | reflexivity
      | intros cap; reflexivity | exact Hd | exact Hds ].
  unfold accepted. cbn [rp_unit is_days m1 m0 maxValue orb].
  match goal with
  | |- context [includes ?a (source ?p)] =>
      let b := eval vm_compute in (includes a (source p)) in
      change (includes a (source p)) with b
  end.
  cbn [orb]. destruct (parseIntOr1 (Some (String d ds)) <=? 1440); [reflexivity|].
  do 11 next_pattern. reflexivity.
Qed.

Lemma days_phrase :
  parseTimeLoop recentPatterns (String d ds ++ " days ago") = None.
Proof. unfold recentPatterns. do 12 next_pattern. reflexivity. Qed.

Lemma day_phrase :
  parseTimeLoop recentPatterns (String d ds ++ " day ago") =
  if bool_decide (last_char (String d ds) = Some "1"%char)
  then Some {| isRecent := true; timeStr := "Text: 1 day ago" |}
  else None.
Proof.
  unfold recentPatterns. do 2 next_pattern. this_pattern.
  change (rx (Lit "1" ⋅ ws ⋅ Lit "d" ⋅ Opt (Grp false ["ay"]) ⋅ ws ⋅ Lit "ago")) with oneDay.
  rewrite (oneDay_day d ds Hd Hds).
  destruct (bool_decide (last_char (String d ds) = Some "1"%char)); [reflexivity|].
  do 9 next_pattern. reflexivity.
Qed.
End Phrases.




(** ** The scanner *)

Lemma truthy_nonempty o v : truthy o = Some v -> v <> EmptyString.
Proof.
  unfold truthy. destruct o as [w|]; [|discriminate].
  destruct (String.eqb_spec w EmptyString); [discriminate|]. intros [= <-]. assumption.
Qed.

Section ScannerFacts.
Variable parseDate : string -> option Z.
Variable now : Z.

Lemma parseTimeFromText_label content r :
  parseTimeFromText content = Some r -> timeStr r <> EmptyString.
Proof.
  intros H. unfold parseTimeFromText in H.
  destruct (parseTimeLoop_inv _ _ _ H) as (p & m & _ & _ & -> & _). discriminate.
Qed.

Lemma parseTimeElement_label te C r :
  parseTimeElement parseDate now te C = Some r -> timeStr r <> EmptyString.
Proof.
  assert (Hattr : forall name r, parseTimeAttribute te name = Some r -> timeStr r <> EmptyString).
  { intros name r0. unfold parseTimeAttribute.
    destruct (truthy (getAttribute te name)) as [label|]; [|discriminate].
    destruct (includes "ago" label); [|discriminate]. apply parseTimeFromText_label. }
  assert (Hlabels : parseTimeLabels te = Some r -> timeStr r <> EmptyString).
  { unfold parseTimeLabels.
    destruct (parseTimeAttribute te "aria-label") as [r0|] eqn:Haria.
    - intros [= <-]. exact (Hattr _ _ Haria).
    - apply Hattr. }
  unfold parseTimeElement.
  destruct (truthy (getAttribute te "datetime")) as [d|] eqn:Hd; [|exact Hlabels].
  destruct (datetimeInRange parseDate now d C); [|exact Hlabels].
  intros [= <-]. cbn [timeStr]. exact (truthy_nonempty _ _ Hd).
Qed.

(** What [extractPostFromElement] does to its arguments, whatever the
    fragment. *)
Lemma extractPost_effect el C (processed : gset string) :
  match extractPostFromElement parseDate now el C processed with
  | (Some post, processed') =>
      post_text post = trim (textContent el) /\
      scannedPost post /\
      (fragmentKey el ∉ processed) /\
      processed' = {[fragmentKey el]} ∪ processed
  | (None, processed') => processed' = processed
  end.
Proof.
  unfold extractPostFromElement, fragmentKey.
  destruct (bool_decide (_ ∈ processed)) eqn:Hin; cbn [orb]; [reflexivity|].
  apply bool_decide_eq_false in Hin.
  destruct (String.length (trim (textContent el)) <? 15)%nat eqn:Hlen; [reflexivity|].
  apply Nat.ltb_ge in Hlen.
  assert (Hfirst : exists r1 t1,
    match findTimeElement el with
    | Some te =>
        match parseTimeElement parseDate now te C with
        | Some result => (isRecent result, timeStr result)
        | None => (false, EmptyString)
        end
    | None => (false, EmptyString)
    end = (r1, t1) /\ (r1 = true -> t1 <> EmptyString)).
  { destruct (findTimeElement el) as [te|]; [|do 2 eexists; split; [reflexivity | discriminate]].
    destruct (parseTimeElement parseDate now te C) as [r|] eqn:Hr;
      [|do 2 eexists; split; [reflexivity | discriminate]].
    do 2 eexists. split; [reflexivity|]. intros _. exact (parseTimeElement_label _ _ _ Hr). }
  destruct Hfirst as (r1 & t1 & -> & Ht1).
  assert (Hsecond : exists r2 t2,
    (if negb r1 then
       match parseTimeFromText (trim (textContent el)) with
       | Some textResult => (isRecent textResult, timeStr textResult)
       | None => (r1, t1)
       end
     else (r1, t1)) = (r2, t2) /\ (r2 = true -> t2 <> EmptyString)).
  { destruct r1; cbn [negb]; [do 2 eexists; split; [reflexivity | exact Ht1]|].
    destruct (parseTimeFromText (trim (textContent el))) as [r|] eqn:Hr;
      [|do 2 eexists; split; [reflexivity | exact Ht1]].
    do 2 eexists. split; [reflexivity|]. intros _. exact (parseTimeFromText_label _ _ Hr). }
  destruct Hsecond as (r2 & t2 & -> & Ht2).
  destruct r2; cbn [negb]; [|reflexivity].
  split; [reflexivity|]. split; [|split; [exact Hin | reflexivity]].
  unfold scannedPost. cbn [post_text post_time post_details post_type].
  split; [exact Hlen|]. split; [symmetry; apply trim_idem|].
  split; [exact (Ht2 eq_refl)|]. split; [reflexivity|].
  destruct (has el imageSelector), (has el videoSelector), (has el articleSelector),
    (has el pollSelector); split; discriminate.
Qed.
End ScannerFacts.

Section ScanFacts.
Variable parseDate : string -> option Z.
Variable now : Z.
Variable doc : Document.

Lemma scanElements_app C st (l1 l2 : list Element) :
  scanElements parseDate now C st (l1 ++ l2) =
  scanElements parseDate now C (scanElements parseDate now C st l1) l2.
Proof. unfold scanElements. apply fold_left_app. Qed.

Lemma matchedElements_cons selector rest :
  matchedElements doc (selector :: rest) =
  (matchedElements doc [selector] ++ matchedElements doc rest)%list.
Proof. unfold matchedElements. cbn [flat_map]. rewrite app_nil_r. reflexivity. Qed.

Lemma selectorErrors_cons selector rest :
  selectorErrors doc (selector :: rest) =
  (selectorErrors doc [selector] ++ selectorErrors doc rest)%list.
Proof. unfold selectorErrors. cbn [flat_map]. rewrite app_nil_r. reflexivity. Qed.

Lemma scanSelector_eq C st selector :
  scanSelector parseDate now doc C st selector =
  Ok {| sl_scan := scanElements parseDate now C (sl_scan st) (matchedElements doc [selector]);
        sl_scanned := (sl_scanned st + length (matchedElements doc [selector]))%nat;
        sl_errors := sl_errors st ++ selectorErrors doc [selector] |}.
Proof.
  unfold scanSelector, matchedElements, selectorErrors. cbn [flat_map].
  destruct (querySelectorAll doc selector) as [elements|e]; res_step.
  - rewrite !app_nil_r. reflexivity.
  - unfold scanElements. cbn [app fold_left length]. rewrite Nat.add_0_r. reflexivity.
Qed.

Lemma scanFeedSelector_eq C st selector :
  scanFeedSelector parseDate now doc C st selector =
  Ok (scanElements parseDate now C st (matchedElements doc [selector])).
Proof.
  unfold scanFeedSelector, matchedElements. cbn [flat_map].
  destruct (querySelectorAll doc selector) as [elements|e]; res_step.
  - rewrite app_nil_r. reflexivity.
  - reflexivity.
Qed.

(** The selector loop is one pass over the matches of its selectors. *)
Lemma selectorLoop_flat C selectors st :
  forEach (scanSelector parseDate now doc C) selectors st =
  Ok {| sl_scan := scanElements parseDate now C (sl_scan st) (matchedElements doc selectors);
        sl_scanned := (sl_scanned st + length (matchedElements doc selectors))%nat;
        sl_errors := sl_errors st ++ selectorErrors doc selectors |}.
Proof.
  revert st. induction selectors as [|selector rest IH]; intros st.
  - cbn [forEach]. unfold matchedElements, selectorErrors, scanElements.
    cbn [flat_map fold_left length]. rewrite Nat.add_0_r, app_nil_r.
    destruct st; reflexivity.
  - cbn [forEach]. rewrite scanSelector_eq. res_step. rewrite IH.
    cbn [sl_scan sl_scanned sl_errors].
    rewrite (matchedElements_cons selector rest), (selectorErrors_cons selector rest).
    rewrite scanElements_app, length_app, Nat.add_assoc, <- app_assoc. reflexivity.
Qed.

Lemma feedLoop_flat C selectors st :
  forEach (scanFeedSelector parseDate now doc C) selectors st =
  Ok (scanElements parseDate now C st (matchedElements doc selectors)).
Proof.
  revert st. induction selectors as [|selector rest IH]; intros st.
  - reflexivity.
  - cbn [forEach]. rewrite scanFeedSelector_eq. res_step. rewrite IH.
    rewrite (matchedElements_cons selector rest), scanElements_app. reflexivity.
Qed.

(** The scan as a function of the page. *)
Lemma findRecentPostsEnhanced_flat C errors :
  findRecentPostsEnhanced parseDate now doc C errors =
  Ok {| sr_posts :=
          sc_posts
            (scanElements parseDate now C freshScan
               (matchedElements doc activitySelectors ++
                if onActivityFeed doc then matchedElements doc feedSelectors else []));
        sr_selectorsAttempted := length activitySelectors;
        sr_elementsScanned := length (matchedElements doc activitySelectors);
        sr_errors := errors ++ selectorErrors doc activitySelectors |}.
Proof.
  unfold findRecentPostsEnhanced. rewrite selectorLoop_flat. res_step.
  cbn [sl_scan sl_scanned sl_errors]. fold (onActivityFeed doc). fold freshScan.
  destruct (onActivityFeed doc).
  - unfold findActivityFeedPosts. rewrite feedLoop_flat. res_step.
    rewrite scanElements_app. reflexivity.
  - res_step. rewrite app_nil_r. reflexivity.
Qed.

Lemma scanElements_shape C elements st :
  Forall scannedPost (sc_posts st) ->
  Forall scannedPost (sc_posts (scanElements parseDate now C st elements)) /\
  (length (sc_posts (scanElements parseDate now C st elements))
   <= length (sc_posts st) + length elements)%nat /\
  (forall post, In post (sc_posts (scanElements parseDate now C st elements)) ->
     In post (sc_posts st) \/
     exists el, In el elements /\ post_text post = trim (textContent el)).
Proof.
  unfold scanElements. revert st.
  induction elements as [|el elements IH]; intros st Hst; cbn [fold_left length].
  - split; [exact Hst|]. split; [lia|]. intros post Hp. left. exact Hp.
  - pose proof (extractPost_effect parseDate now el C (sc_processed st)) as Heff.
    unfold scanElement at 2 4 6.
    destruct (extractPostFromElement parseDate now el C (sc_processed st)) as [[post|] processed'].
    + destruct Heff as (Htext & Hshape & _ & _).
      destruct (IH {| sc_posts := sc_posts st ++ [post]; sc_processed := processed' |})
        as (Hall & Hlen & Hfrom).
      { cbn [sc_posts]. apply Forall_app. split; [exact Hst|]. constructor; [exact Hshape|constructor]. }
      split; [exact Hall|]. split.
      * cbn [sc_posts] in Hlen. rewrite length_app in Hlen. cbn [length] in Hlen. lia.
      * intros p Hp. destruct (Hfrom p Hp) as [Hin|(el' & Hin & Ht)].
        -- cbn [sc_posts] in Hin. apply in_app_or in Hin as [Hin|[<-|[]]].
           ++ left. exact Hin.
           ++ right. exists el. split; [left; reflexivity | exact Htext].
        -- right. exists el'. split; [right; exact Hin | exact Ht].
    + destruct (IH {| sc_posts := sc_posts st; sc_processed := processed' |} Hst)
        as (Hall & Hlen & Hfrom).
      split; [exact Hall|]. split; [cbn [sc_posts] in Hlen; lia|].
      intros p Hp. destruct (Hfrom p Hp) as [Hin|(el' & Hin & Ht)].
      * left. exact Hin.
      * right. exists el'. split; [right; exact Hin | exact Ht].
Qed.

(** X4. What [extractPostFromElement] does, whatever the fragment. A record
    is emitted only for a key not yet in the set, which then gains exactly
    that key; the record carries the trimmed text, of at least 15
    characters, a time label that is not empty, no details, and a media type
    that is not one of the two estimate types. When no record is emitted the
    set is left as it was. *)
Theorem extractPostFromElement_effect el C (processed : gset string) :
  match extractPostFromElement parseDate now el C processed with
  | (Some post, processed') =>
      post_text post = trim (textContent el) /\
      scannedPost post /\
      (fragmentKey el ∉ processed) /\
      processed' = {[fragmentKey el]} ∪ processed
  | (None, processed') => processed' = processed
  end.
Proof. apply extractPost_effect. Qed.

(** X5. The scan is one pass, left to right, over the elements its
    selectors find, those of the activity feed after them on an activity
    page; a selector the page rejects contributes no element and one entry
    of [errors], after the entries already there; [elementsScanned] counts
    the elements of the first list only. *)
Theorem findRecentPostsEnhanced_one_pass C errors :
  findRecentPostsEnhanced parseDate now doc C errors =
  Ok {| sr_posts :=
          sc_posts
            (scanElements parseDate now C freshScan
               (matchedElements doc activitySelectors ++
                if onActivityFeed doc then matchedElements doc feedSelectors else []));
        sr_selectorsAttempted := 32;
        sr_elementsScanned := length (matchedElements doc activitySelectors);
        sr_errors := errors ++ selectorErrors doc activitySelectors |}.
Proof. apply findRecentPostsEnhanced_flat. Qed.

(** X6. Every record of a scan has the shape of a scanned post and the
    trimmed text of one of the elements found, and there are no more records
    than elements found. *)
Theorem scan_posts_shape C errors :
  exists report,
    findRecentPostsEnhanced parseDate now doc C errors = Ok report /\
    Forall scannedPost (sr_posts report) /\
    (length (sr_posts report)
     <= length (matchedElements doc activitySelectors) +
        (if onActivityFeed doc then length (matchedElements doc feedSelectors) else 0))%nat /\
    (forall post, In post (sr_posts report) ->
       exists el,
         In el (matchedElements doc activitySelectors ++
                if onActivityFeed doc then matchedElements doc feedSelectors else []) /\
         post_text post = trim (textContent el)).
Proof.
  rewrite findRecentPostsEnhanced_flat. eexists. split; [reflexivity|]. cbn [sr_posts].
  destruct (scanElements_shape C
              (matchedElements doc activitySelectors ++
               if onActivityFeed doc then matchedElements doc feedSelectors else [])
              freshScan ltac:(constructor)) as (Hall & Hlen & Hfrom).
  split; [exact Hall|]. split.
  - rewrite length_app in Hlen. cbn [freshScan sc_posts length] in Hlen.
    destruct (onActivityFeed doc); cbn [length] in *; lia.
  - intros post Hp. destruct (Hfrom post Hp) as [[]|Hel]. exact Hel.
Qed.

End ScanFacts.

Lemma matchedElements_quiet doc selectors :
  matchedElements (quiet doc) selectors = matchedElements doc selectors.
Proof.
  unfold matchedElements. induction selectors as [|selector rest IH]; [reflexivity|].
  cbn [flat_map]. rewrite IH. cbn [quiet querySelectorAll].
  destruct (querySelectorAll doc selector); reflexivity.
Qed.

Lemma selectorErrors_quiet doc selectors : selectorErrors (quiet doc) selectors = [].
Proof.
  unfold selectorErrors. induction selectors as [|selector rest IH]; [reflexivity|].
  cbn [flat_map]. rewrite IH. cbn [quiet querySelectorAll].
  destruct (querySelectorAll doc selector); reflexivity.
Qed.

(** X7. A selector the page rejects costs the scan nothing but its own
    matches: the scan finds the same posts and counts the same elements as
    on the page where that selector finds nothing, and there it logs no
    error. *)
Theorem scan_survives_rejected_selectors parseDate now doc C errors :
  exists report report',
    findRecentPostsEnhanced parseDate now doc C errors = Ok report /\
    findRecentPostsEnhanced parseDate now (quiet doc) C errors = Ok report' /\
    sr_posts report = sr_posts report' /\
    sr_elementsScanned report = sr_elementsScanned report' /\
    sr_errors report' = errors.
Proof.
  rewrite !findRecentPostsEnhanced_flat. do 2 eexists.
  split; [reflexivity|]. split; [reflexivity|].
  cbn [sr_posts sr_elementsScanned sr_errors].
  rewrite !matchedElements_quiet, selectorErrors_quiet, app_nil_r.
  repeat split; reflexivity.
Qed.

(** ** The estimator *)

Lemma Qle_bool_hours v : Qle_bool (inject_Z v) 24 = (v <=? 24).
Proof.
  apply Bool.eq_iff_eq_true. rewrite Qle_bool_iff, Z.leb_le.
  unfold Qle, inject_Z. cbn [Qnum Qden]. lia.
Qed.

Lemma Qle_bool_minutes v : Qle_bool (inject_Z v / 60) 24 = (v <=? 1440).
Proof.
  apply Bool.eq_iff_eq_true. rewrite Qle_bool_iff, Z.leb_le.
  unfold Qle, Qdiv, Qmult, Qinv, inject_Z. cbn. lia.
Qed.

(** X8. Which matches the estimator counts, pattern by pattern, with [v] the
    number of the match (0 and a missing number read as 1): the hour
    patterns count a match when [v <= 24], the minute patterns when
    [v <= 1440], the day patterns always, and the two abbreviated patterns
    always too, whatever the number. *)
Theorem activityPatterns_qualify m :
  map (fun p => qualifies p m) activityPatterns =
  let v := parseIntOr1 (m1 m) in
  [ v <=? 24; v <=? 1440; true; true; true; true;
    v <=? 24; v <=? 1440; v <=? 24; v <=? 1440 ].
Proof.
  cbv zeta. unfold activityPatterns. cbn [map].
  unfold qualifies, timeInHours. cbn [ap_pattern maxHours].
  repeat match goal with
         | |- context [includes ?a (source ?p)] =>
             let b := eval vm_compute in (includes a (source p)) in
             change (includes a (source p)) with b
         end.
  cbn [orb]. rewrite !Qle_bool_hours, !Qle_bool_minutes. reflexivity.
Qed.

Section Thresholds.
Import Reals Lra Exact.
Local Open Scope R_scope.

(** A double below a number [M * 2^E] of the format, with [M] above [2^52],
    is not above the double just before it. *)
Lemma below_threshold m e M E :
  (Z.pos (digits2_pos m) <= 53)%Z ->
  (2 ^ 52 < M)%Z ->
  IZR (Z.pos m) * p2 e < IZR M * p2 E ->
  IZR (Z.pos m) * p2 e <= IZR (M - 1) * p2 E.
Proof.
  intros Hd HM Hlt.
  pose proof (p2_pos E) as PE.
  destruct (Z_le_gt_dec E e) as [Hge|Hless].
  - replace e with ((e - E) + E)%Z in * by lia.
    rewrite p2_add, (p2_IZR (e - E)), <- Rmult_assoc, <- mult_IZR in * by lia.
    apply Rmult_le_compat_r; [lra|].
    apply IZR_le.
    assert (Hk : (Z.pos m * 2 ^ (e - E) < M)%Z).
    { apply lt_IZR. apply Rmult_lt_reg_r with (p2 E); assumption. }
    lia.
  - pose proof (digits2_pos_bounds m) as [_ Hm].
    assert (Hm' : (Z.pos m <= 2 ^ 53 - 1)%Z).
    { pose proof (Z.pow_le_mono_r 2 (Z.pos (digits2_pos m)) 53 ltac:(lia) Hd). lia. }
    apply IZR_le in Hm'.
    assert (HM' : (2 ^ 52 <= M - 1)%Z) by lia.
    apply IZR_le in HM'.
    pose proof (p2_le e (E - 1) ltac:(lia)) as He.
    pose proof (p2_succ (E - 1)) as Hs. replace (E - 1 + 1)%Z with E in Hs by lia.
    pose proof (p2_pos e) as Pe.
    assert (Hpos : 0 < IZR (Z.pos m)) by (apply IZR_lt; lia).
    change (2 ^ 53 - 1)%Z with 9007199254740991%Z in Hm'.
    change (2 ^ 52)%Z with 4503599627370496%Z in HM'.
    apply Rle_trans with (9007199254740991 * p2 (E - 1)); [|nra].
    apply Rmult_le_compat; lra.
Qed.

Lemma estimatedPosts_at_thresholds :
  estimatedPosts below25 = 0%Z /\ estimatedPosts (Double.lit 25 10) = 1%Z /\
  estimatedPosts below30 = 11%Z /\ estimatedPosts (Double.ofZ 30) = 12%Z.
Proof. repeat split; vm_compute; reflexivity. Qed.

Lemma estimatedPosts_thresholds total :
  good total ->
  ((0 < estimatedPosts total)%Z <-> le (Double.lit 25 10) total) /\
  (estimatedPosts total = 12%Z <-> le (Double.ofZ 30) total).
Proof.
  intros Ht.
  destruct estimatedPosts_at_thresholds as (E0 & E1 & E11 & E12).
  assert (G25 : good (Double.lit 25 10)) by (vm_compute; split; discriminate).
  assert (G30 : good (Double.ofZ 30)) by (vm_compute; split; discriminate).
  assert (Gb25 : good below25) by (vm_compute; split; discriminate).
  assert (Gb30 : good below30) by (vm_compute; split; discriminate).
  pose proof (estimatedPosts_range total) as Hrange.
  split; split.
  - intros Hpos.
    change (Double.lit 25 10) with (S754_finite false 5629499534213120 (-51)).
    unfold good in Ht. fits_cases total Ht m e.
    + vm_compute in Hpos. discriminate.
    + exact I.
    + cbn [le value]. destruct (Rle_or_lt (IZR 5629499534213120 * p2 (-51)) (IZR (Z.pos m) * p2 e))
        as [H|H]; [exact H|].
      apply below_threshold in H; [|apply Ht|reflexivity].
      pose proof (estimatedPosts_mono (S754_finite false m e) below25 Ht Gb25 H). lia.
  - intros Hle. pose proof (estimatedPosts_mono _ _ G25 Ht Hle). lia.
  - intros H12.
    change (Double.ofZ 30) with (S754_finite false 8444249301319680 (-48)).
    unfold good in Ht. fits_cases total Ht m e.
    + vm_compute in H12. discriminate.
    + exact I.
    + cbn [le value]. destruct (Rle_or_lt (IZR 8444249301319680 * p2 (-48)) (IZR (Z.pos m) * p2 e))
        as [H|H]; [exact H|].
      apply below_threshold in H; [|apply Ht|reflexivity].
      pose proof (estimatedPosts_mono (S754_finite false m e) below30 Ht Gb30 H). lia.
  - intros Hle. pose proof (estimatedPosts_mono _ _ G30 Ht Hle). lia.
Qed.
End Thresholds.


(** ** The emergency pass *)

Lemma emergencyName_from elements :
  emergencyName elements = "Unknown" \/
  exists el,
    In el elements /\
    emergencyName elements = trim (textContent el) /\
    emergencyNameCheck (trim (textContent el)) = true.
Proof.
  induction elements as [|el elements IH]; cbn [emergencyName]; [left; reflexivity|].
  assert (Hrest : emergencyName elements = "Unknown" \/
            exists el0, In el0 (el :: elements) /\
              emergencyName elements = trim (textContent el0) /\
              emergencyNameCheck (trim (textContent el0)) = true).
  { destruct IH as [H|(el0 & Hin & Hn & Hc)]; [left; exact H|].
    right. exists el0. split; [right; exact Hin | split; assumption]. }
  unfold truthy. destruct (String.eqb (textContent el) EmptyString); [exact Hrest|].
  destruct (emergencyNameCheck (trim (textContent el))) eqn:Hcheck; [|exact Hrest].
  right. exists el. split; [left; reflexivity | split; [reflexivity | exact Hcheck]].
Qed.


(** ** The name extractor *)

Lemma valid_nonempty name : isValidProfileName name = true -> name <> EmptyString.
Proof. intros H ->. discriminate H. Qed.

Lemma valid_truthy name : isValidProfileName name = true -> truthy (Some name) = Some name.
Proof.
  intros H. unfold truthy.
  destruct (String.eqb_spec name EmptyString) as [E|]; [|reflexivity].
  exfalso. exact (valid_nonempty _ H E).
Qed.

Lemma firstValidText_valid elements name :
  firstValidText elements = Some name -> isValidProfileName name = true.
Proof.
  induction elements as [|el elements IH]; cbn [firstValidText]; [discriminate|].
  destruct (truthy (Some (textContent el))) as [content|]; [|exact IH].
  destruct (isValidProfileName (trim content)) eqn:Hv; [|exact IH].
  intros [= <-]. exact Hv.
Qed.

Lemma firstValidTrimmed_valid candidates name :
  firstValidTrimmed candidates = Some name -> isValidProfileName name = true.
Proof.
  induction candidates as [|c candidates IH]; cbn [firstValidTrimmed]; [discriminate|].
  destruct (isValidProfileName (trim c)) eqn:Hv; [|exact IH].
  intros [= <-]. exact Hv.
Qed.

Section NameFacts.
Variable jsonParse : string -> Res JsonLd.
Variable doc : Document.

Lemma nameFromSelectors_returns selectors :
  exists o, nameFromSelectors doc selectors = Ok o /\
    forall name, o = Some name -> isValidProfileName name = true.
Proof.
  induction selectors as [|selector rest IH]; cbn [nameFromSelectors].
  - exists None. split; [reflexivity | discriminate].
  - destruct (querySelectorAll doc selector) as [elements|e]; res_step; [|exact IH].
    destruct (firstValidText elements) as [name|] eqn:Hf; [|exact IH].
    exists (Some name). split; [reflexivity|]. intros n [= <-].
    exact (firstValidText_valid _ _ Hf).
Qed.

Lemma extractNameFromTitle_returns :
  exists o, extractNameFromTitle doc = Ok o /\
    forall name, o = Some name -> isValidProfileName name = true.
Proof.
  unfold extractNameFromTitle.
  destruct (String.eqb (title doc) EmptyString); res_step.
  - exists None. split; [reflexivity | discriminate].
  - eexists. split; [reflexivity|]. intros name. apply firstValidTrimmed_valid.
Qed.

Lemma cleanNameFromTitle_valid t :
  cleanNameFromTitle t = EmptyString \/ isValidProfileName (cleanNameFromTitle t) = true.
Proof.
  unfold cleanNameFromTitle. destruct (String.eqb t EmptyString); [left; reflexivity|].
  destruct (firstValidTrimmed _) as [name|] eqn:Hf; [|left; reflexivity].
  right. exact (firstValidTrimmed_valid _ _ Hf).
Qed.

Lemma nameFromMeta_valid selectors name :
  nameFromMeta doc selectors = Some name -> isValidProfileName name = true.
Proof.
  induction selectors as [|selector rest IH]; cbn [nameFromMeta]; [discriminate|].
  destruct (docQuerySelector doc selector) as [meta|]; [|exact IH].
  destruct (truthy (getAttribute meta "content")) as [content|]; [|exact IH].
  destruct (isValidProfileName (cleanNameFromTitle content)) eqn:Hv; [|exact IH].
  intros [= <-]. exact Hv.
Qed.

Lemma extractNameFromMetaTags_returns :
  exists o, extractNameFromMetaTags doc = Ok o /\
    forall name, o = Some name -> isValidProfileName name = true.
Proof.
  unfold extractNameFromMetaTags. res_step. eexists. split; [reflexivity|].
  intros name. apply nameFromMeta_valid.
Qed.

Lemma nameFromJsonLd_valid d name :
  nameFromJsonLd d = Some name -> isValidProfileName name = true.
Proof.
  unfold nameFromJsonLd.
  destruct (truthy (ld_name d)) as [n|].
  - destruct (isValidProfileName n) eqn:Hv; [intros [= <-]; exact Hv|].
    destruct (ld_graph d) as [graph|]; [|discriminate].
    destruct (List.find _ graph) as [person|]; [|discriminate].
    destruct (truthy (item_name person)) as [n'|]; [|discriminate].
    destruct (isValidProfileName n') eqn:Hv'; [intros [= <-]; exact Hv' | discriminate].
  - destruct (ld_graph d) as [graph|]; [|discriminate].
    destruct (List.find _ graph) as [person|]; [|discriminate].
    destruct (truthy (item_name person)) as [n'|]; [|discriminate].
    destruct (isValidProfileName n') eqn:Hv'; [intros [= <-]; exact Hv' | discriminate].
Qed.

Lemma nameFromScripts_returns scripts :
  exists o, nameFromScripts jsonParse scripts = Ok o /\
    forall name, o = Some name -> isValidProfileName name = true.
Proof.
  induction scripts as [|script rest IH]; cbn [nameFromScripts].
  - exists None. split; [reflexivity | discriminate].
  - destruct (jsonParse (textContent script)) as [d|e]; res_step; [|exact IH].
    destruct (nameFromJsonLd d) as [name|] eqn:Hn; [|exact IH].
    exists (Some name). split; [reflexivity|]. intros n [= <-].
    exact (nameFromJsonLd_valid _ _ Hn).
Qed.

Lemma extractNameFromStructuredData_returns :
  exists o, extractNameFromStructuredData jsonParse doc = Ok o /\
    forall name, o = Some name -> isValidProfileName name = true.
Proof.
  unfold extractNameFromStructuredData.
  destruct (querySelectorAll doc _) as [scripts|e]; res_step.
  - destruct (nameFromScripts_returns scripts) as (o & Ho & Hv).
    rewrite Ho. res_step. exists o. split; [reflexivity | exact Hv].
  - exists None. split; [reflexivity | discriminate].
Qed.

Lemma nameFromPattern_valid p pageText name :
  nameFromPattern p pageText = Some name -> isValidProfileName name = true.
Proof.
  unfold nameFromPattern.
  destruct (exec p pageText) as [m|]; [|discriminate].
  destruct (truthy (m1 m)) as [captured|]; [|discriminate].
  destruct (isValidProfileName (trim captured)) eqn:Hv; [|discriminate].
  intros [= <-]. exact Hv.
Qed.

Lemma extractNameFromPageText_returns :
  exists o, extractNameFromPageText doc = Ok o /\
    forall name, o = Some name -> isValidProfileName name = true.
Proof.
  unfold extractNameFromPageText, bodyProp.
  destruct (body doc) as [b|]; res_step.
  - destruct (nameFromPattern rxViewProfile (textContent b)) as [name|] eqn:Hn; res_step.
    + exists (Some name). split; [reflexivity|]. intros n [= <-].
      exact (nameFromPattern_valid _ _ _ Hn).
    + eexists. split; [reflexivity|]. intros name. apply nameFromPattern_valid.
  - exists None. split; [reflexivity | discriminate].
Qed.

(** Strategies that return validated names: the first name wins. *)
Lemma tryStrategies_first (found : list (option string)) :
  Forall (fun o => forall name, o = Some name -> isValidProfileName name = true) found ->
  tryStrategies (map Ok found) = Ok (default "Unknown" (firstOf found)).
Proof.
  induction found as [|o found IH]; intros Hall; [reflexivity|].
  apply Forall_cons in Hall as [Ho Hall].
  cbn [map tryStrategies]. res_step. destruct o as [name|].
  - rewrite (valid_truthy name (Ho name eq_refl)), (Ho name eq_refl). res_step. reflexivity.
  - cbn [truthy]. res_step. cbn [firstOf]. apply IH, Hall.
Qed.

Lemma extractProfileNameEnhanced_first :
  exists o1 o2 o3 o4 o5,
    extractNameFromSelectors doc = Ok o1 /\
    extractNameFromTitle doc = Ok o2 /\
    extractNameFromMetaTags doc = Ok o3 /\
    extractNameFromStructuredData jsonParse doc = Ok o4 /\
    extractNameFromPageText doc = Ok o5 /\
    extractProfileNameEnhanced jsonParse doc =
      Ok (default "Unknown" (firstOf [o1; o2; o3; o4; o5])).
Proof.
  destruct (nameFromSelectors_returns nameSelectors) as (o1 & H1 & V1).
  destruct extractNameFromTitle_returns as (o2 & H2 & V2).
  destruct extractNameFromMetaTags_returns as (o3 & H3 & V3).
  destruct extractNameFromStructuredData_returns as (o4 & H4 & V4).
  destruct extractNameFromPageText_returns as (o5 & H5 & V5).
  exists o1, o2, o3, o4, o5. repeat (split; [assumption|]).
  unfold extractProfileNameEnhanced, extractNameFromSelectors.
  rewrite H1, H2, H3, H4, H5.
  apply (tryStrategies_first [o1; o2; o3; o4; o5]).
  repeat (constructor; [assumption|]). constructor.
Qed.
End NameFacts.

Lemma splitHead_eq sep s :
  splitHead sep s =
  match strip sep s with
  | Some _ => EmptyString
  | None => match s with
            | String c s' => String c (splitHead sep s')
            | EmptyString => EmptyString
            end
  end.
Proof. destruct s; reflexivity. Qed.

Lemma includes_char_cons b c s :
  includes (String b EmptyString) (String c s) = false ->
  Ascii.eqb b c = false /\ includes (String b EmptyString) s = false.
Proof.
  cbn [includes strip]. destruct (Ascii.eqb b c); [discriminate|]. auto.
Qed.

(** A text followed by a separator is the first segment, when the second
    character of the separator differs from its first and is not in the
    text. *)
Lemma splitHead_first a b sep' name rest :
  Ascii.eqb a b = false ->
  includes (String b EmptyString) name = false ->
  splitHead (String a (String b sep')) (name ++ String a (String b sep') ++ rest) = name.
Proof.
  intros Hab. induction name as [|c name IH]; intros Hfree.
  - rewrite append_nil, splitHead_eq.
    assert (E : strip (String a (String b sep')) (String a (String b sep') ++ rest) = Some rest)
      by (apply strip_spec; reflexivity).
    rewrite E. reflexivity.
  - apply includes_char_cons in Hfree as [Hc Hfree].
    rewrite append_cons, splitHead_eq.
    assert (E : strip (String a (String b sep'))
                  (String c (name ++ String a (String b sep') ++ rest)) = None).
    { cbn [strip]. destruct (Ascii.eqb a c); [|reflexivity].
      destruct name as [|d name'].
      - rewrite append_nil, append_cons. rewrite Ascii.eqb_sym, Hab. reflexivity.
      - rewrite append_cons. apply includes_char_cons in Hfree as [Hd _].
        rewrite Hd. reflexivity. }
    rewrite E, (IH Hfree). reflexivity.
Qed.

Section NameTheorems.
Variable jsonParse : string -> Res JsonLd.
Variable doc : Document.

(** X11. The name extractor returns on every page, and what it returns is
    the first name that its five strategies give, in their order, or the
    sentinel when none gives one: a strategy's name is never refused by the
    loop, and a strategy without a name, or one that threw, is passed
    over. *)
Theorem extractProfileNameEnhanced_order :
  exists o1 o2 o3 o4 o5,
    extractNameFromSelectors doc = Ok o1 /\
    extractNameFromTitle doc = Ok o2 /\
    extractNameFromMetaTags doc = Ok o3 /\
    extractNameFromStructuredData jsonParse doc = Ok o4 /\
    extractNameFromPageText doc = Ok o5 /\
    extractProfileNameEnhanced jsonParse doc =
      Ok (default "Unknown" (firstOf [o1; o2; o3; o4; o5])) /\
    reportedName (default "Unknown" (firstOf [o1; o2; o3; o4; o5])).
Proof.
  destruct (extractProfileNameEnhanced_first jsonParse doc)
    as (o1 & o2 & o3 & o4 & o5 & H1 & H2 & H3 & H4 & H5 & H).
  exists o1, o2, o3, o4, o5. repeat (split; [assumption|]).
  destruct (extractProfileNameEnhanced_returns jsonParse doc) as (name & Hname & Hrep).
  rewrite H in Hname. injection Hname as <-. exact Hrep.
Qed.

Lemma title_segment name rest :
  includes "|" name = false ->
  splitHead " | LinkedIn" (name ++ " | LinkedIn" ++ rest) = name.
Proof. intros H. apply (splitHead_first " " "|" " LinkedIn" name rest); [reflexivity | exact H]. Qed.

(** X12. A page whose title is a valid name followed by the separator and
    the site's name, on which no name selector finds a name, is given that
    name, trimmed; the name must hold no bar of its own. *)
Theorem profile_name_from_title name rest :
  extractNameFromSelectors doc = Ok None ->
  title doc = name ++ " | LinkedIn" ++ rest ->
  isValidProfileName name = true ->
  includes "|" name = false ->
  extractNameFromTitle doc = Ok (Some (trim name)) /\
  extractProfileNameEnhanced jsonParse doc = Ok (trim name).
Proof.
  intros Hsel Htitle Hvalid Hbar.
  assert (Ht : extractNameFromTitle doc = Ok (Some (trim name))).
  { unfold extractNameFromTitle. rewrite Htitle.
    destruct (String.eqb_spec (name ++ " | LinkedIn" ++ rest) EmptyString) as [E|_].
    - destruct name; discriminate E.
    - res_step. unfold titleSeparators. cbn [map firstValidTrimmed].
      rewrite (title_segment name rest Hbar), valid_trim, Hvalid. reflexivity. }
  split; [exact Ht|].
  destruct (extractProfileNameEnhanced_first jsonParse doc)
    as (o1 & o2 & o3 & o4 & o5 & H1 & H2 & _ & _ & _ & H).
  rewrite H. rewrite Hsel in H1. injection H1 as <-.
  rewrite Ht in H2. injection H2 as <-. reflexivity.
Qed.

(** X13. A title that does not hold the separator followed by the site's
    name is tried whole first: when the whole title passes the validation it
    is the name the title gives, and the other separators are not
    consulted. *)
Theorem whole_title_is_the_name :
  includes " | LinkedIn" (title doc) = false ->
  isValidProfileName (title doc) = true ->
  extractNameFromTitle doc = Ok (Some (trim (title doc))).
Proof.
  intros Habsent Hvalid. unfold extractNameFromTitle.
  destruct (String.eqb_spec (title doc) EmptyString) as [E|_].
  - rewrite E in Hvalid. discriminate Hvalid.
  - res_step. unfold titleSeparators. cbn [map firstValidTrimmed].
    rewrite (splitHead_absent _ _ Habsent), valid_trim, Hvalid. reflexivity.
Qed.
End NameTheorems.

Lemma profile_name_from_title_witness :
  extractNameFromTitle (plainPage EmptyString EmptyString) = Ok (Some (trim "Jane Doe")) /\
  extractProfileNameEnhanced noJson (plainPage EmptyString EmptyString) = Ok (trim "Jane Doe").
Proof.
  refine (profile_name_from_title noJson (plainPage EmptyString EmptyString)
            "Jane Doe" EmptyString _ _ _ _).
  - vm_compute. reflexivity.
  - reflexivity.
  - vm_compute. reflexivity.
  - vm_compute. reflexivity.
Defined.

Lemma whole_title_is_the_name_witness :
  extractNameFromTitle (titledPage "Jane Doe | Site") = Ok (Some (trim "Jane Doe | Site")).
Proof.
  refine (whole_title_is_the_name (titledPage "Jane Doe | Site") _ _).
  - vm_compute. reflexivity.
  - vm_compute. reflexivity.
Defined.

(** ** The returned record *)

Lemma displayPost_text_eq post :
  text (displayPost post) =
  if (String.length (post_text post) <=? 150)%nat
  then post_text post
  else substring0 150 (post_text post) ++ "...".
Proof.
  unfold displayPost. cbn [text].
  destruct (Nat.leb_spec (String.length (post_text post)) 150) as [Hle|Hgt].
  - replace (150 <? String.length (post_text post))%nat with false
      by (symmetry; apply Nat.ltb_ge; exact Hle).
    rewrite append_empty_r. apply substring0_all. exact Hle.
  - replace (150 <? String.length (post_text post))%nat with true
      by (symmetry; apply Nat.ltb_lt; exact Hgt).
    reflexivity.
Qed.

(** X14. The text of a returned post is the post's text when that has at
    most 150 characters, and its first 150 characters followed by three dots
    otherwise, so never more than 153 characters; its first 100 characters
    are still the key under which the scan told the posts apart; time, type
    and details are passed on. *)
Theorem displayPost_keeps_key post :
  text (displayPost post) =
    (if (String.length (post_text post) <=? 150)%nat
     then post_text post
     else substring0 150 (post_text post) ++ "...") /\
  (String.length (text (displayPost post)) <= 153)%nat /\
  substring0 100 (text (displayPost post)) = postKey post /\
  time (displayPost post) = post_time post /\
  type (displayPost post) = post_type post /\
  pr_details (displayPost post) = post_details post.
Proof.
  split; [apply displayPost_text_eq|].
  split; [|split; [|repeat split]].
  - rewrite displayPost_text_eq.
    destruct (Nat.leb_spec (String.length (post_text post)) 150) as [Hle|Hgt].
    + lia.
    + rewrite length_append, substring0_length. cbn [String.length]. lia.
  - rewrite displayPost_text_eq. unfold postKey.
    destruct (Nat.leb_spec (String.length (post_text post)) 150) as [Hle|Hgt];
      [reflexivity|].
    rewrite substring0_app, substring0_length.
    replace (100 - Nat.min 150 (String.length (post_text post)))%nat with 0%nat by lia.
    rewrite substring0_0, append_empty_r. apply substring0_substring0. lia.
Qed.

Section DebugFacts.
Variable parseDate : string -> option Z.
Variable jsonParse : string -> Res JsonLd.
Variable clock : Z.
Variable doc : Document.

(** Steps of a statement over the variables, with the fields of the debug
    record. *)
Ltac debug_step :=
  unfold mbind, mret, Run_bind, Run_ret, call, modify, get, when, try_catch_run;
  cbv beta iota;
  cbn [set_postCount set_profileName set_posts set_debug
       note_name note_scan note_fallback note_emergency push_error
       l_postCount l_profileName l_posts l_debug
       bodyLength errors profileNameFound selectorsAttempted elementsScanned
       usedFallback fallbackDetails usedEmergencyAnalysis emergencyResult
       postCount profileName posts error debug analyzedAt url
       length Z.of_nat Z.eqb app].

Lemma extractProfileData_debug now :
  exists name report fr em r d,
    extractProfileNameEnhanced jsonParse doc = Ok name /\
    findRecentPostsEnhanced parseDate clock doc (now - 24 * 60 * 60 * 1000) [] = Ok report /\
    performAdvancedFallbackDetection doc = Ok fr /\
    performEmergencyAnalysis doc = Ok em /\
    extractProfileData parseDate jsonParse clock doc now = Ok r /\
    debug r = Debug d /\
    analyzedAt r = now /\
    url r = href doc /\
    errors d = sr_errors report /\
    profileNameFound d = Some (negb (String.eqb name "Unknown")) /\
    selectorsAttempted d = Some (sr_selectorsAttempted report) /\
    elementsScanned d = Some (sr_elementsScanned report) /\
    usedFallback d = (Z.of_nat (length (sr_posts report)) =? 0) && (0 <? count fr) /\
    fallbackDetails d = (if usedFallback d then Some (details fr) else None) /\
    emergencyResult d = (if usedEmergencyAnalysis d then Some em else None).
Proof.
  destruct (extractProfileNameEnhanced_returns jsonParse doc) as (name & Hname & _).
  destruct (findRecentPostsEnhanced_returns parseDate clock doc (now - 24 * 60 * 60 * 1000) [])
    as (report & Hscan & _).
  destruct (performAdvancedFallbackDetection_returns doc) as (fr & Hfr & _).
  destruct (performEmergencyAnalysis_returns doc) as (em & Hem & _).
  exists name, report, fr, em.
  unfold extractProfileData, extractSteps.
  rewrite Hname. debug_step. rewrite Hscan. debug_step. rewrite Hfr, Hem.
  destruct (sr_posts report) as [|post rest] eqn:Hposts.
  - change (Z.of_nat (length (@nil Post)) =? 0) with true. debug_step.
    destruct (0 <? count fr) eqn:Hest; debug_step.
    + apply Z.ltb_lt in Hest.
      replace (count fr =? 0) with false by (symmetry; apply Z.eqb_neq; lia).
      rewrite andb_false_r. debug_step.
      do 2 eexists. repeat (split; [reflexivity|]). reflexivity.
    + change (Z.of_nat 0 =? 0) with true. rewrite andb_true_r.
      destruct (String.eqb name "Unknown") eqn:Hunknown; debug_step.
      * destruct (negb (String.eqb (em_profileName em) "Unknown"));
          destruct (0 <? activityScore em); debug_step;
          do 2 eexists; repeat (split; [reflexivity|]); reflexivity.
      * do 2 eexists. repeat (split; [reflexivity|]). reflexivity.
  - change (Z.of_nat (length (post :: rest)) =? 0) with false. debug_step.
    rewrite andb_false_r. debug_step.
    do 2 eexists. repeat (split; [reflexivity|]). reflexivity.
Qed.

(** X15. What the returned record says about the run: its time and address
    are the clock at the start and the page's address; the errors are those
    the scan collected, and no other; the counters are the scan's; the flag
    for the name tells whether the extractor found a name, also when the
    emergency pass supplied one later; the fallback flag is set exactly when
    the scan found no post and the estimate is positive, and the details of
    the estimate and the result of the emergency pass are recorded exactly
    when the flags say so. *)
Theorem debug_record_reports_the_run now later :
  exists name report fr em r d,
    extractProfileNameEnhanced jsonParse doc = Ok name /\
    findRecentPostsEnhanced parseDate clock doc (now - 24 * 60 * 60 * 1000) [] = Ok report /\
    performAdvancedFallbackDetection doc = Ok fr /\
    performEmergencyAnalysis doc = Ok em /\
    analyzeCurrentProfile parseDate jsonParse clock doc now later = Ok r /\
    debug r = Debug d /\
    analyzedAt r = now /\
    url r = href doc /\
    errors d = sr_errors report /\
    profileNameFound d = Some (negb (String.eqb name "Unknown")) /\
    selectorsAttempted d = Some (sr_selectorsAttempted report) /\
    elementsScanned d = Some (sr_elementsScanned report) /\
    usedFallback d = (Z.of_nat (length (sr_posts report)) =? 0) && (0 <? count fr) /\
    fallbackDetails d = (if usedFallback d then Some (details fr) else None) /\
    emergencyResult d = (if usedEmergencyAnalysis d then Some em else None).
Proof.
  destruct (extractProfileData_debug now)
    as (name & report & fr & em & r & d & Hname & Hscan & Hfr & Hem & Hr & H).
  exists name, report, fr, em, r, d.
  repeat (split; [assumption|]).
  split; [|exact H].
  unfold analyzeCurrentProfile, settle. rewrite Hr. reflexivity.
Qed.
End DebugFacts.

(** ** The page test and the listener *)

Lemma isLinkedInProfile_eq hostname pathname :
  isLinkedInProfile hostname pathname =
  includes "linkedin.com" hostname &&
  (includes "/in/" pathname || includes "/profile/" pathname).
Proof.
  unfold isLinkedInProfile. f_equal.
  destruct (includes "linkedin.com" hostname) eqn:Hbare; [reflexivity|].
  destruct (includes "www.linkedin.com" hostname) eqn:Hwww; [|reflexivity].
  rewrite (includes_trans "linkedin.com" "www.linkedin.com" hostname) in Hbare;
    [discriminate Hbare | vm_compute; reflexivity | exact Hwww].
Qed.

(** X16. The page test accepts exactly the pages whose host name holds
    linkedin.com and whose path holds /in/ or /profile/: the second test of
    the host name, for www.linkedin.com, never changes the answer. *)
Theorem isLinkedInProfile_host_test hostname pathname :
  isLinkedInProfile hostname pathname =
  includes "linkedin.com" hostname &&
  (includes "/in/" pathname || includes "/profile/" pathname).
Proof. apply isLinkedInProfile_eq. Qed.

(** X17. On a profile page the listener answers the action analyzeProfile
    with a success and the record of the analysis, which carries no error:
    the branch that replies with a failure is never taken. Any other action,
    and any message on another page, gets no reply. *)
Theorem contentScript_reply parseDate jsonParse clock doc hostname pathname now later action :
  exists r,
    analyzeCurrentProfile parseDate jsonParse clock doc now later = Ok r /\
    error r = None /\
    contentScript parseDate jsonParse clock doc hostname pathname now later action =
      if isLinkedInProfile hostname pathname && String.eqb action "analyzeProfile"
      then Some {| success := true; data := Some r; response_error := None |}
      else None.
Proof.
  destruct (extractProfileData_cases parseDate jsonParse clock doc now)
    as (name & report & fr & em & r & d & _ & _ & _ & _ & Hr & Herr & _).
  exists r.
  assert (Hrun : analyzeCurrentProfile parseDate jsonParse clock doc now later = Ok r).
  { unfold analyzeCurrentProfile, settle. rewrite Hr. reflexivity. }
  split; [exact Hrun|]. split; [exact Herr|].
  unfold contentScript, onMessage. rewrite Hrun.
  destruct (isLinkedInProfile hostname pathname); [|reflexivity].
  destruct (String.eqb action "analyzeProfile"); reflexivity.
Qed.

(** ** The rate limiter *)

Import Background.

Lemma prune_app now (a b : list Z) : prune now (a ++ b)%list = (prune now a ++ prune now b)%list.
Proof. apply List.filter_app. Qed.

Lemma prune_length now l : (length (prune now l) <= length l)%nat.
Proof. apply List.filter_length_le. Qed.

(** Pruning at a reading removes what pruning at an earlier reading
    removed. *)
Lemma prune_prune now now' l : now <= now' -> prune now' (prune now l) = prune now' l.
Proof.
  intros Hle. unfold prune. induction l as [|t l IH]; [reflexivity|].
  cbn [List.filter].
  destruct (Z.ltb_spec (now - t) timeWindow) as [Hin|Hout];
    destruct (Z.ltb_spec (now' - t) timeWindow) as [Hin'|Hout']; cbn [List.filter].
  - destruct (Z.ltb_spec (now' - t) timeWindow); [|lia]. rewrite IH. reflexivity.
  - destruct (Z.ltb_spec (now' - t) timeWindow); [lia|]. exact IH.
  - lia.
  - exact IH.
Qed.

Lemma prune_now now : prune now [now] = [now].
Proof.
  unfold prune. cbn [List.filter]. replace (now - now) with 0 by lia. reflexivity.
Qed.

Lemma canMakeRequest_eq now requests :
  canMakeRequest now requests =
  ((length (prune now requests) <? maxRequests)%nat,
   (prune now requests ++
    if (length (prune now requests) <? maxRequests)%nat then [now] else [])%list).
Proof.
  unfold canMakeRequest.
  destruct (length (prune now requests) <? maxRequests)%nat; [reflexivity|].
  rewrite app_nil_r. reflexivity.
Qed.

Lemma limiterRun_snoc clock now :
  limiterRun (clock ++ [now]) = limiterStep (limiterRun clock) now.
Proof. unfold limiterRun. rewrite fold_left_app. reflexivity. Qed.

Lemma limiterRun_inv clock :
  (length (limiterRun clock).2 <= maxRequests)%nat /\
  forall now, Forall (fun time => time <= now) clock ->
    prune now (limiterRun clock).2 = prune now (limiterRun clock).1.
Proof.
  induction clock as [|t clock [IHlen IH]] using rev_ind.
  - split; [cbn; unfold maxRequests; lia | reflexivity].
  - rewrite limiterRun_snoc.
    destruct (limiterRun clock) as [granted requests]. cbn [fst snd] in *.
    unfold limiterStep. rewrite canMakeRequest_eq.
    destruct (Nat.ltb_spec (length (prune t requests)) maxRequests) as [Hlt|Hge];
      cbn [fst snd].
    + split.
      * rewrite length_app. cbn [length]. lia.
      * intros now Hnow. apply Forall_app in Hnow as [Hclock Ht].
        apply Forall_cons in Ht as [Ht _].
        rewrite !prune_app, (prune_prune _ _ _ Ht), (IH now Hclock). reflexivity.
    + split.
      * rewrite app_nil_r. pose proof (prune_length t requests). lia.
      * intros now Hnow. apply Forall_app in Hnow as [Hclock Ht].
        apply Forall_cons in Ht as [Ht _].
        rewrite app_nil_r, (prune_prune _ _ _ Ht). apply IH. exact Hclock.
Qed.

(** X18. The limiter keeps its promise over any run of calls from its
    empty list: at a reading [now] that is not before the calls so far, at
    most 20 of the calls it granted are younger than the window of a minute,
    and the call at [now] is granted exactly when fewer than 20 are; the
    list it keeps never holds more than 20 readings. *)
Theorem rate_limit_holds clock now :
  Forall (fun time => time <= now) clock ->
  let '(granted, requests) := limiterRun clock in
  (length requests <= 20)%nat /\
  (length (prune now granted) <= 20)%nat /\
  (canMakeRequest now requests).1 = (length (prune now granted) <? 20)%nat /\
  (limiterRun (clock ++ [now])).1 =
    (granted ++ if (length (prune now granted) <? 20)%nat then [now] else [])%list.
Proof.
  intros Hnow. destruct (limiterRun_inv clock) as [Hlen Hinv].
  specialize (Hinv now Hnow). rewrite limiterRun_snoc.
  destruct (limiterRun clock) as [granted requests]. cbn [fst snd] in *.
  unfold limiterStep. rewrite canMakeRequest_eq. cbn [fst]. rewrite Hinv.
  split; [exact Hlen|]. split; [|split].
  - rewrite <- Hinv. pose proof (prune_length now requests).
    unfold maxRequests in Hlen. lia.
  - reflexivity.
  - change maxRequests with 20%nat.
    destruct (length (prune now granted) <? 20)%nat; [reflexivity|].
    rewrite app_nil_r. reflexivity.
Qed.

Lemma rate_limit_holds_witness :
  let '(granted, requests) := limiterRun [0; 1000] in
  (length requests <= 20)%nat /\
  (length (prune 61000 granted) <= 20)%nat /\
  (canMakeRequest 61000 requests).1 = (length (prune 61000 granted) <? 20)%nat /\
  (limiterRun ([0; 1000] ++ [61000])).1 =
    (granted ++ if (length (prune 61000 granted) <? 20)%nat then [61000] else [])%list.
Proof.
  apply (rate_limit_holds [0; 1000] 61000).
  repeat constructor; lia.
Defined.

Lemma fold_min_in rest time : In (fold_left Z.min rest time) (time :: rest).
Proof.
  revert time. induction rest as [|t rest IH]; intros time; [left; reflexivity|].
  cbn [fold_left]. destruct (IH (Z.min time t)) as [E|Hin].
  - rewrite <- E. destruct (Z.min_spec time t) as [[_ ->]|[_ ->]];
      [left | right; left]; reflexivity.
  - right. right. exact Hin.
Qed.

Lemma filter_drops {A : Type} (f : A -> bool) (x : A) (l : list A) :
  In x l -> f x = false -> (length (List.filter f l) < length l)%nat.
Proof.
  intros Hin Hx. induction l as [|y l IH]; [destruct Hin|].
  cbn [List.filter length]. destruct Hin as [->|Hin].
  - rewrite Hx. pose proof (List.filter_length_le f l). lia.
  - specialize (IH Hin). destruct (f y); cbn [length]; lia.
Qed.

Lemma ceilSeconds_covers waitTime : waitTime <= 1000 * ceilSeconds waitTime.
Proof.
  unfold ceilSeconds.
  pose proof (Z.div_mod (waitTime + 999) 1000 ltac:(lia)) as Hdiv.
  pose proof (Z.mod_pos_bound (waitTime + 999) 1000 ltac:(lia)) as Hmod.
  lia.
Qed.

Lemma wait_is_enough now later requests requests' moment :
  (length requests <= 20)%nat ->
  canMakeRequest now requests = (false, requests') ->
  later + getTimeUntilNextRequest later requests' <= moment ->
  (canMakeRequest moment requests').1 = true.
Proof.
  intros Hlen Hdenied Hwait. rewrite canMakeRequest_eq in Hdenied.
  injection Hdenied as Hfull Hrequests.
  rewrite Hfull, app_nil_r in Hrequests. subst requests'.
  apply Nat.ltb_ge in Hfull. unfold maxRequests in Hfull.
  pose proof (prune_length now requests) as Hpruned.
  set (kept := prune now requests) in *.
  unfold getTimeUntilNextRequest in Hwait.
  replace (length kept <? maxRequests)%nat with false in Hwait
    by (symmetry; apply Nat.ltb_ge; unfold maxRequests; lia).
  cbv zeta in Hwait.
  assert (Hin : In (oldest kept) kept).
  { destruct kept as [|t rest]; [cbn in Hfull; lia|]. apply fold_min_in. }
  rewrite canMakeRequest_eq. cbn [fst]. apply Nat.ltb_lt.
  assert (Hdrop : (length (prune moment kept) < length kept)%nat).
  { apply (filter_drops _ (oldest kept)); [exact Hin|].
    apply Z.ltb_ge. unfold timeWindow in *. lia. }
  unfold maxRequests. lia.
Qed.

(** X19. A refused caller who waits as long as the limiter says is served:
    when a call is refused, the list holding at most 20 readings, any call
    made once the announced wait has passed is granted. The wait is not
    negative, and the whole seconds named in the refusal cover it. *)
Theorem announced_wait_suffices now later requests requests' moment :
  (length requests <= 20)%nat ->
  canMakeRequest now requests = (false, requests') ->
  later + getTimeUntilNextRequest later requests' <= moment ->
  (canMakeRequest moment requests').1 = true /\
  0 <= getTimeUntilNextRequest later requests'
    <= 1000 * ceilSeconds (getTimeUntilNextRequest later requests').
Proof.
  intros Hlen Hdenied Hwait.
  split; [exact (wait_is_enough now later requests requests' moment Hlen Hdenied Hwait)|].
  split; [|apply ceilSeconds_covers].
  unfold getTimeUntilNextRequest.
  destruct (length requests' <? maxRequests)%nat; [lia|]. cbv zeta. lia.
Qed.

Lemma announced_wait_suffices_witness :
  (canMakeRequest 60000 (replicate 20 0)).1 = true /\
  0 <= getTimeUntilNextRequest 1000 (replicate 20 0)
    <= 1000 * ceilSeconds (getTimeUntilNextRequest 1000 (replicate 20 0)).
Proof.
  apply (announced_wait_suffices 1000 1000 (replicate 20 0) (replicate 20 0) 60000).
  - cbn. lia.
  - vm_compute. reflexivity.
  - vm_compute. intros H. discriminate H.
Defined.

(** ** The store *)

Lemma pushHistory_take data history :
  pushHistory data history = take 10 (data :: default [] history).
Proof.
  unfold pushHistory. cbv zeta.
  destruct (Nat.ltb_spec 10 (length (data :: default [] history))) as [Hlong|Hshort];
    [reflexivity|].
  symmetry. apply take_ge. exact Hshort.
Qed.

Lemma storeAnalysisResult_taken data timestamp s :
  storeAnalysisResult (fun _ => true) data timestamp s = (stored data timestamp s, Ok tt).
Proof. reflexivity. Qed.

Lemma storeAll_snoc items data timestamp s :
  storeAll (items ++ [(data, timestamp)]) s = stored data timestamp (storeAll items s).
Proof. unfold storeAll. rewrite fold_left_app. reflexivity. Qed.

Lemma storeAll_history items s n :
  (n <= 10)%nat ->
  take n (default [] (analysisHistory (storeAll items s))) =
  take n (rev (map fst items) ++ default [] (analysisHistory s)).
Proof.
  revert n. induction items as [|[data timestamp] items IH] using rev_ind; intros n Hn;
    [reflexivity|].
  rewrite storeAll_snoc, map_app, rev_app_distr. cbn [map rev app fst].
  unfold stored. cbn [analysisHistory default option_rect from_option].
  unfold id. rewrite pushHistory_take, take_take.
  replace (Nat.min n 10) with n by lia.
  destruct n as [|n]; [reflexivity|].
  cbn [take]. f_equal. apply IH. lia.
Qed.

(** X20. The history holds the ten newest results, newest first: after
    results were stored one after the other, by a store that takes every
    content, the last analysis is the last result with the clock of its
    call, and the history is the first ten of the results in reverse order,
    followed by what the history held before. *)
Theorem history_keeps_ten_newest items data timestamp s :
  lastAnalysis (storeAll (items ++ [(data, timestamp)]) s) = Some (data, timestamp) /\
  analysisHistory (storeAll (items ++ [(data, timestamp)]) s) =
    Some (take 10 (data :: rev (map fst items) ++ default [] (analysisHistory s))).
Proof.
  rewrite storeAll_snoc. split; [reflexivity|].
  unfold stored. cbn [analysisHistory]. rewrite pushHistory_take.
  cbn [take]. rewrite (storeAll_history items s 9) by lia. reflexivity.
Qed.

Lemma storeAnalysisResult_outcomes accepts data timestamp s :
  match storeAnalysisResult accepts data timestamp s with
  | (s', Ok _) => s' = stored data timestamp s
  | (s', Throw _) => analysisHistory s' = analysisHistory s
  end.
Proof.
  unfold storeAnalysisResult, storageSet, stored.
  destruct (accepts _); [|reflexivity].
  cbn [lastAnalysis analysisHistory].
  destruct (accepts _); reflexivity.
Qed.

(** ** The analysis request *)

Lemma lacking_usable r :
  0 <= postCount r -> lacking (Some r) = negb (usable r).
Proof.
  intros Hcount. unfold lacking, usable.
  destruct (String.eqb (profileName r) "Unknown"); cbn [negb orb andb]; [|reflexivity].
  destruct (Z.eqb_spec (postCount r) 0) as [E|Hne];
    destruct (Z.ltb_spec 0 (postCount r)); try reflexivity; lia.
Qed.

Lemma usable_not_lacking r : usable r = true -> lacking (Some r) = false.
Proof.
  unfold lacking, usable.
  destruct (String.eqb (profileName r) "Unknown"); cbn [negb orb andb]; [|reflexivity].
  intros Hpos. apply Z.ltb_lt in Hpos. apply Z.eqb_neq. lia.
Qed.

(** What the three strategies leave: the first usable candidate when there
    is one, and otherwise nothing usable. *)
Lemma strategies_first tab :
  Forall (fun r => 0 <= postCount r) (candidates tab) ->
  match firstUsable tab with
  | Some r => (strategyUltimate tab (strategyDirect tab (strategyMessage tab))).1 = Some r
  | None =>
      match (strategyUltimate tab (strategyDirect tab (strategyMessage tab))).1 with
      | Some r => usable r = false
      | None => True
      end
  end.
Proof.
  unfold firstUsable, candidates, strategyMessage.
  destruct (messageAnalysis tab) as [d|e1]; cbn [app find].
  - intros Hall. apply Forall_cons in Hall as [Hd Hall].
    unfold strategyDirect. rewrite (lacking_usable d Hd).
    destruct (usable d) eqn:Hud; cbn [negb].
    + unfold strategyUltimate. rewrite (usable_not_lacking d Hud). reflexivity.
    + assert (Hzero : postCount d = 0).
      { unfold usable in Hud. apply orb_false_iff in Hud as [_ Hpos].
        apply Z.ltb_ge in Hpos. lia. }
      destruct (direct tab) as [[r2|]|e2]; cbn [app find].
      * apply Forall_cons in Hall as [Hr2 Hall].
        rewrite Hzero. fold (usable r2).
        destruct (usable r2) eqn:Hur2.
        -- unfold strategyUltimate. rewrite (usable_not_lacking r2 Hur2). reflexivity.
        -- unfold strategyUltimate. rewrite (lacking_usable d Hd), Hud. cbn [negb].
           destruct (ultimate tab) as [[r3|]|e3]; cbn [app find fst].
           ++ destruct (usable r3); reflexivity.
           ++ exact Hud.
           ++ exact Hud.
      * unfold strategyUltimate. rewrite (lacking_usable d Hd), Hud. cbn [negb].
        destruct (ultimate tab) as [[r3|]|e3]; cbn [app find fst].
        -- destruct (usable r3); reflexivity.
        -- exact Hud.
        -- exact Hud.
      * unfold strategyUltimate. rewrite (lacking_usable d Hd), Hud. cbn [negb].
        destruct (ultimate tab) as [[r3|]|e3]; cbn [app find fst].
        -- destruct (usable r3); reflexivity.
        -- exact Hud.
        -- exact Hud.
  - intros Hall. unfold strategyDirect. cbn [lacking].
    destruct (direct tab) as [[r2|]|e2]; cbn [app find].
    + apply Forall_cons in Hall as [Hr2 Hall].
      unfold strategyUltimate. rewrite (lacking_usable r2 Hr2).
      destruct (usable r2) eqn:Hur2; cbn [negb]; [reflexivity|].
      destruct (ultimate tab) as [[r3|]|e3]; cbn [app find fst].
      * destruct (usable r3); reflexivity.
      * exact Hur2.
      * exact Hur2.
    + unfold strategyUltimate. cbn [lacking].
      destruct (ultimate tab) as [[r3|]|e3]; cbn [app find fst]; [|exact I|exact I].
      destruct (usable r3); reflexivity.
    + unfold strategyUltimate. cbn [lacking].
      destruct (ultimate tab) as [[r3|]|e3]; cbn [app find fst]; [|exact I|exact I].
      destruct (usable r3); reflexivity.
Qed.

Lemma strategies_in tab r :
  (strategyUltimate tab (strategyDirect tab (strategyMessage tab))).1 = Some r ->
  In r (candidates tab).
Proof.
  unfold candidates, strategyMessage, strategyDirect, strategyUltimate.
  destruct (messageAnalysis tab) as [d|e1]; cbn [lacking].
  - destruct (String.eqb (profileName d) "Unknown" && (postCount d =? 0)).
    + destruct (direct tab) as [[r2|]|e2].
      * destruct (negb (String.eqb (profileName r2) "Unknown")
                  || (postCount d <? postCount r2)); cbn [lacking].
        -- destruct (String.eqb (profileName r2) "Unknown" && (postCount r2 =? 0));
             [destruct (ultimate tab) as [[r3|]|e3]|];
             cbn [fst]; intros [= <-]; cbn [app In]; rewrite ?in_app_iff; cbn [In]; intuition auto.
        -- destruct (String.eqb (profileName d) "Unknown" && (postCount d =? 0));
             [destruct (ultimate tab) as [[r3|]|e3]|];
             cbn [fst]; intros [= <-]; cbn [app In]; rewrite ?in_app_iff; cbn [In]; intuition auto.
      * cbn [lacking].
        destruct (String.eqb (profileName d) "Unknown" && (postCount d =? 0));
          [destruct (ultimate tab) as [[r3|]|e3]|];
          cbn [fst]; intros [= <-]; cbn [app In]; rewrite ?in_app_iff; cbn [In]; intuition auto.
      * cbn [lacking].
        destruct (String.eqb (profileName d) "Unknown" && (postCount d =? 0));
          [destruct (ultimate tab) as [[r3|]|e3]|];
          cbn [fst]; intros [= <-]; cbn [app In]; rewrite ?in_app_iff; cbn [In]; intuition auto.
    + cbn [lacking].
      destruct (String.eqb (profileName d) "Unknown" && (postCount d =? 0));
        [destruct (ultimate tab) as [[r3|]|e3]|];
        cbn [fst]; intros [= <-]; cbn [app In]; rewrite ?in_app_iff; cbn [In]; intuition auto.
  - destruct (direct tab) as [[r2|]|e2]; cbn [lacking].
    + destruct (String.eqb (profileName r2) "Unknown" && (postCount r2 =? 0));
        [destruct (ultimate tab) as [[r3|]|e3]|];
        cbn [fst]; intros [= <-]; cbn [app In]; rewrite ?in_app_iff; cbn [In]; intuition auto.
    + destruct (ultimate tab) as [[r3|]|e3]; cbn [fst]; intros [= <-]; cbn [app In]; rewrite ?in_app_iff; cbn [In]; intuition auto.
    + destruct (ultimate tab) as [[r3|]|e3]; cbn [fst]; intros [= <-]; cbn [app In]; rewrite ?in_app_iff; cbn [In]; intuition auto.
Qed.

Section Requests.
Variable accepts : Storage -> bool.

(** X21. What a reply of the service means. A reply with data carries a
    usable result, a known name or a positive count, that one of the three
    strategies produced; the limiter granted the call, and the result is the
    last analysis of the store and the head of its history. A reply with an
    error leaves the history as it was. *)
Theorem reply_soundness tabId now later timestamp tab sv :
  match handleAnalyzeProfile accepts tabId now later timestamp tab sv with
  | (ReplyData r, sv') =>
      usable r = true /\
      In r (candidates tab) /\
      (canMakeRequest now (requests sv)).1 = true /\
      storage sv' = stored r timestamp (storage sv)
  | (ReplyError _, sv') =>
      analysisHistory (storage sv') = analysisHistory (storage sv)
  end.
Proof.
  unfold handleAnalyzeProfile. destruct tabId as [[|n]|]; [reflexivity| |reflexivity].
  rewrite canMakeRequest_eq. cbn [fst].
  destruct (length (prune now (requests sv)) <? maxRequests)%nat; cbn [negb];
    [|reflexivity].
  destruct (inject tab) as [u|e]; [|reflexivity].
  pose proof (strategies_in tab) as Hin.
  destruct (strategyUltimate tab (strategyDirect tab (strategyMessage tab)))
    as [[r|] lastError]; [|reflexivity].
  destruct (usable r) eqn:Husable; [|reflexivity].
  cbn [storage].
  pose proof (storeAnalysisResult_outcomes accepts r timestamp (storage sv)) as Hstore.
  destruct (storeAnalysisResult accepts r timestamp (storage sv)) as [s' [u'|e]].
  - cbn [storage]. split; [exact Husable|]. split; [apply Hin; reflexivity|].
    split; [reflexivity | exact Hstore].
  - exact Hstore.
Qed.

Lemma handleAnalyzeProfile_first n now later timestamp tab sv :
  (length (prune now (requests sv)) < 20)%nat ->
  inject tab = Ok tt ->
  Forall (fun r => 0 <= postCount r) (candidates tab) ->
  match firstUsable tab with
  | Some r =>
      handleAnalyzeProfile accepts (Some (S n)) now later timestamp tab sv =
        let '(s', outcome) := storeAnalysisResult accepts r timestamp (storage sv) in
        (match outcome with Ok _ => ReplyData r | Throw e => ReplyError e end,
         {| requests := (prune now (requests sv) ++ [now])%list; storage := s' |})
  | None =>
      exists e,
        handleAnalyzeProfile accepts (Some (S n)) now later timestamp tab sv =
          (ReplyError e,
           {| requests := (prune now (requests sv) ++ [now])%list; storage := storage sv |})
  end.
Proof.
  intros Hfree Hinject Hcounts.
  pose proof (strategies_first tab Hcounts) as Hfirst.
  unfold handleAnalyzeProfile. rewrite canMakeRequest_eq.
  replace (length (prune now (requests sv)) <? maxRequests)%nat with true
    by (symmetry; apply Nat.ltb_lt; exact Hfree).
  cbn [negb]. rewrite Hinject.
  destruct (firstUsable tab) as [r|] eqn:Hr.
  - assert (Husable : usable r = true).
    { unfold firstUsable in Hr. apply find_some in Hr as [_ Hr]. exact Hr. }
    destruct (strategyUltimate tab (strategyDirect tab (strategyMessage tab)))
      as [res lastError]. cbn [fst] in Hfirst. subst res.
    rewrite Husable. cbn [storage].
    destruct (storeAnalysisResult accepts r timestamp (storage sv)) as [s' [u|e]];
      reflexivity.
  - destruct (strategyUltimate tab (strategyDirect tab (strategyMessage tab)))
      as [[r|] lastError]; cbn [fst] in Hfirst.
    + rewrite Hfirst. eexists. reflexivity.
    + eexists. reflexivity.
Qed.

(** X22. A request that passes the limiter and the injection is answered
    from the first usable result in the order of the strategies, the
    content script's data, then the injected analysis, then the last
    resort, when no result has a negative count: that result is stored and,
    the store taking it, is the reply. Without a usable result the reply is
    an error and the store is left as it was. *)
Theorem reply_is_first_usable n now later timestamp tab sv :
  (length (prune now (requests sv)) < 20)%nat ->
  inject tab = Ok tt ->
  Forall (fun r => 0 <= postCount r) (candidates tab) ->
  match firstUsable tab with
  | Some r =>
      handleAnalyzeProfile accepts (Some (S n)) now later timestamp tab sv =
        let '(s', outcome) := storeAnalysisResult accepts r timestamp (storage sv) in
        (match outcome with Ok _ => ReplyData r | Throw e => ReplyError e end,
         {| requests := (prune now (requests sv) ++ [now])%list; storage := s' |})
  | None =>
      exists e,
        handleAnalyzeProfile accepts (Some (S n)) now later timestamp tab sv =
          (ReplyError e,
           {| requests := (prune now (requests sv) ++ [now])%list; storage := storage sv |})
  end.
Proof. apply handleAnalyzeProfile_first. Qed.
End Requests.

Lemma reply_is_first_usable_witness :
  handleAnalyzeProfile (fun _ => true) (Some 1%nat) 0 0 0 silentTab idleService =
  (ReplyData (sampleResult "Jane Doe" 2),
   {| requests := [0];
      storage := stored (sampleResult "Jane Doe" 2) 0 (storage idleService) |}).
Proof.
  refine (reply_is_first_usable (fun _ => true) 0%nat 0 0 0 silentTab idleService _ _ _).
  - cbn. lia.
  - reflexivity.
  - unfold candidates. cbn. repeat constructor; discriminate.
Defined.

Lemma messageAnalysis_relay parseDate jsonParse clock doc hostname pathname now later tab r :
  isLinkedInProfile hostname pathname = true ->
  analyzeCurrentProfile parseDate jsonParse clock doc now later = Ok r ->
  answer tab =
    Ok (contentScript parseDate jsonParse clock doc hostname pathname now later
          "analyzeProfile") ->
  messageAnalysis tab = Ok r.
Proof.
  intros Hprofile Hrun Hanswer.
  unfold messageAnalysis. rewrite Hanswer.
  unfold contentScript, onMessage. rewrite Hprofile, Hrun. reflexivity.
Qed.

Lemma handleAnalyzeProfile_message accepts n now later timestamp tab sv r :
  (length (prune now (requests sv)) < 20)%nat ->
  inject tab = Ok tt ->
  messageAnalysis tab = Ok r ->
  usable r = true ->
  handleAnalyzeProfile accepts (Some (S n)) now later timestamp tab sv =
    let '(s', outcome) := storeAnalysisResult accepts r timestamp (storage sv) in
    (match outcome with Ok _ => ReplyData r | Throw e => ReplyError e end,
     {| requests := (prune now (requests sv) ++ [now])%list; storage := s' |}).
Proof.
  intros Hfree Hinject Hmessage Husable.
  unfold handleAnalyzeProfile. rewrite canMakeRequest_eq.
  replace (length (prune now (requests sv)) <? maxRequests)%nat with true
    by (symmetry; apply Nat.ltb_lt; exact Hfree).
  cbn [negb]. rewrite Hinject.
  unfold strategyMessage. rewrite Hmessage.
  unfold strategyDirect. rewrite (usable_not_lacking r Husable).
  unfold strategyUltimate. rewrite (usable_not_lacking r Husable).
  rewrite Husable. cbn [storage].
  destruct (storeAnalysisResult accepts r timestamp (storage sv)) as [s' [u|e]];
    reflexivity.
Qed.

(** X23. From the page to the popup: when the tab's answer is the reply of
    the content script on a profile page, and the record of the analysis has
    a known name or a positive count, a request that passes the limiter and
    the injection stores that record and replies with it, whatever the
    injected analyses would return. *)
Theorem service_relays_content_script accepts parseDate jsonParse clock doc hostname pathname
    now later n moment afterwards timestamp tab sv r :
  isLinkedInProfile hostname pathname = true ->
  analyzeCurrentProfile parseDate jsonParse clock doc now later = Ok r ->
  usable r = true ->
  answer tab =
    Ok (contentScript parseDate jsonParse clock doc hostname pathname now later
          "analyzeProfile") ->
  inject tab = Ok tt ->
  (length (prune moment (requests sv)) < 20)%nat ->
  handleAnalyzeProfile accepts (Some (S n)) moment afterwards timestamp tab sv =
    let '(s', outcome) := storeAnalysisResult accepts r timestamp (storage sv) in
    (match outcome with Ok _ => ReplyData r | Throw e => ReplyError e end,
     {| requests := (prune moment (requests sv) ++ [moment])%list; storage := s' |}).
Proof.
  intros Hprofile Hrun Husable Hanswer Hinject Hfree.
  apply handleAnalyzeProfile_message; try assumption.
  exact (messageAnalysis_relay parseDate jsonParse clock doc hostname pathname now later
           tab r Hprofile Hrun Hanswer).
Qed.

Lemma service_relays_content_script_witness :
  exists r,
    analyzeCurrentProfile fixtureDates noJson clockNow imagePage clockNow clockNow = Ok r /\
    postCount r = 1 /\
    handleAnalyzeProfile (fun _ => true) (Some 1%nat) 0 0 0
      (relayTab (contentScript fixtureDates noJson clockNow imagePage
                   "www.linkedin.com" "/in/jane-doe/" clockNow clockNow "analyzeProfile"))
      idleService =
    (ReplyData r, {| requests := [0]; storage := stored r 0 (storage idleService) |}).
Proof.
  eexists. split; [vm_compute; reflexivity|]. split; [reflexivity|].
  refine (service_relays_content_script (fun _ => true) fixtureDates noJson clockNow imagePage
            "www.linkedin.com" "/in/jane-doe/" clockNow clockNow 0%nat 0 0 0 _ idleService _
            _ _ _ _ _ _).
  - vm_compute. reflexivity.
  - vm_compute. reflexivity.
  - reflexivity.
  - reflexivity.
  - reflexivity.
  - cbn. lia.
Defined.

(** ** The injected analysis *)

Lemma valid_direct name : isValidProfileName name = true -> isValidNameDirect name = true.
Proof.
  unfold isValidProfileName, isValidNameDirect.
  destruct (String.eqb name EmptyString); [discriminate|]. cbv zeta.
  rewrite !andb_true_iff. intros H. decompose [and] H. repeat split; assumption.
Qed.

(** X24. The two validations agree in one direction: a name the content
    script accepts is accepted by the validation of the injected analysis,
    which applies six of its tests. *)
Theorem content_name_passes_direct_validation name :
  isValidProfileName name = true -> isValidNameDirect name = true.
Proof. apply valid_direct. Qed.

Lemma content_name_passes_direct_validation_witness : isValidNameDirect "Jane Doe" = true.
Proof.
  apply (content_name_passes_direct_validation "Jane Doe"). vm_compute. reflexivity.
Defined.

Lemma totalMatches_nonneg pageText : 0 <= totalMatches pageText.
Proof. unfold totalMatches, directTimePatterns. cbn [fold_left]. lia. Qed.

Lemma performFallbackDetectionDirect_eq doc :
  performFallbackDetectionDirect doc =
  Ok match body doc with
     | Some b => Z.min (totalMatches (toLowerCase (textContent b)) / 3) 8
     | None => 0
     end.
Proof.
  unfold performFallbackDetectionDirect, bodyProp.
  destruct (body doc) as [b|]; [|reflexivity].
  res_step. f_equal. f_equal. apply Z.max_r.
  apply Z.div_pos; [apply totalMatches_nonneg | lia].
Qed.

(** X25. The estimate of the injected analysis never throws and lies
    between 0 and 8: it is 0 on a page without a body, and otherwise a third
    of the number of time phrases, rounded down and capped at 8, so it is
    positive exactly from three phrases on. *)
Theorem direct_estimate_clamped doc :
  exists estimate,
    performFallbackDetectionDirect doc = Ok estimate /\
    0 <= estimate <= 8 /\
    estimate =
      match body doc with
      | Some b => Z.min (totalMatches (toLowerCase (textContent b)) / 3) 8
      | None => 0
      end /\
    (0 <? estimate) =
      match body doc with
      | Some b => 3 <=? totalMatches (toLowerCase (textContent b))
      | None => false
      end.
Proof.
  eexists. split; [apply performFallbackDetectionDirect_eq|].
  destruct (body doc) as [b|]; [|repeat split; lia].
  pose proof (totalMatches_nonneg (toLowerCase (textContent b))) as Hnonneg.
  set (total := totalMatches (toLowerCase (textContent b))) in *.
  assert (Hdiv : 0 <= total / 3) by (apply Z.div_pos; lia).
  split; [lia|]. split; [reflexivity|].
  destruct (Z.leb_spec 3 total) as [Hge|Hlt].
  - apply Z.ltb_lt. assert (1 <= total / 3) by (apply Z.div_le_lower_bound; lia). lia.
  - apply Z.ltb_ge. assert (total / 3 = 0) by (apply Z.div_small; lia). lia.
Qed.
